(** * Pixel-adaptive convolution layers (CPPLayer, SepCPPLayer)

    A shallow embedding of [src/caffe/layers/cpp_layer.cpp] and
    [src/caffe/layers/sepcpp_layer.cpp] together with the expansion oracle of
    [src/caffe/test/test_sepcpp_layer.cpp].  The four passes are also
    given with every buffer access checked, and the forward passes are run
    in binary32 on one input.

    - C++ [int] values are integers of [Z]; the one product that is not an
      index ([kernel*kernel] in [Reshape]) has its 32-bit wrap-around written
      out.  Index expressions of the loop nests are bounded by the element
      count of a blob, which Caffe keeps below [INT_MAX], and are computed in
      [Z].
    - [static_cast<float>], [sqrt] on [float] and [static_cast<int>] are the
      IEEE-754 binary32 operations of the Standard Library's [SpecFloat]
      (precision 24, emax 128).
    - [Dtype] is the template parameter of the layers.  The numeric
      statements are about exact arithmetic: [Dtype] is any commutative ring.
      At [Dtype = float] the operations are those of binary32, which round.
    - The buffers behind [cpu_data()] / [mutable_cpu_diff()] are lists
      indexed from 0; a blob owns a data buffer and a diff buffer. *)

From Stdlib Require Import ZArith Lia Bool String Ring.
From Stdlib Require Import Floats.SpecFloat.
From Stdlib Require Import setoid_ring.InitialRing.
From stdpp Require Import base list.

Local Open Scope Z_scope.

(** ** Machine integers and binary32 *)

Definition INT_MIN : Z := - 2 ^ 31.
Definition INT_MAX : Z := 2 ^ 31 - 1.

(** Two's-complement reduction of a mathematical result to [int]. *)
Definition int_wrap (z : Z) : Z := (z + 2 ^ 31) mod 2 ^ 32 - 2 ^ 31.

(** [static_cast<float>(int)]: round to nearest, ties to even. *)
Definition float_of_int (z : Z) : spec_float := binary_normalize 24 128 z 0 false.

(** [sqrt] at type [float]. *)
Definition sqrtf (x : spec_float) : spec_float := SFsqrt 24 128 x.

(** [static_cast<int>(float)]: truncation toward zero.  A NaN, an infinity or
    a value outside [int] has no defined result in C++; the x86 conversion
    instruction yields [INT_MIN] there, which is what is recorded here. *)
Definition int_of_float (x : spec_float) : Z :=
  match x with
  | S754_zero _ => 0
  | S754_finite s m e =>
      let a := match e with
               | Zneg p => Z.shiftr (Zpos m) (Zpos p)
               | _ => Z.shiftl (Zpos m) e
               end in
      let v := if s then - a else a in
      if (INT_MIN <=? v) && (v <=? INT_MAX) then v else INT_MIN
  | _ => INT_MIN
  end.

(** The same root taken in binary64: the [float] argument converted to
    [double] (exactly) and [sqrt] at type [double], truncated to [int]. *)
Definition double_of_float (x : spec_float) : spec_float :=
  match x with
  | S754_finite s m e => binary_normalize 53 1024 (cond_Zopp s (Zpos m)) e false
  | _ => x
  end.

Definition sqrt_double (x : spec_float) : spec_float := SFsqrt 53 1024 x.

(** [static_cast<int>((sqrt(static_cast<float>((B_input)))))], the kernel size
    [CPPLayer::Reshape] derives from the channel count of the kernel blob. *)
Definition CPP_kernel_size (B_input : Z) : Z :=
  int_of_float (sqrtf (float_of_int B_input)).

(** ** Fatal errors

    [CHECK_EQ] and [NOT_IMPLEMENTED] end in glog's [LOG(FATAL)], which aborts
    the process: a call either returns or is fatal. *)

Inductive fatal : Type :=
| CheckFailed (msg : string)
| NotImplementedYet.

Inductive outcome (A : Type) : Type :=
| Ok (a : A)
| Fatal (e : fatal).
Arguments Ok {A} a.
Arguments Fatal {A} e.

#[global] Instance outcome_bind : MBind outcome :=
  fun A B (k : A -> outcome B) (m : outcome A) =>
    match m with
    | Ok a => k a
    | Fatal e => Fatal e
    end.

(** Modelled from the spec: glog's [CHECK_EQ(a, b) << msg] (the macro is not
    under src/); the spec calls each check a hard precondition violation that
    aborts the operation. *)
Definition CHECK_EQ (a b : Z) (msg : string) : outcome unit :=
  if a =? b then Ok tt else Fatal (CheckFailed msg).

(** Modelled from the spec: Caffe's [NOT_IMPLEMENTED] macro (declared in
    caffe/common.hpp, not under src/); the spec's unsupported-operation
    error, fatal to the call. *)
Definition NOT_IMPLEMENTED {A : Type} : outcome A := Fatal NotImplementedYet.

(** ** Loops *)

(** [for (int i = lo; i < hi; ++i) body]. *)
Fixpoint for_loop {S : Type} (trips : nat) (i : Z) (body : Z -> S -> S) (s : S) : S :=
  match trips with
  | O => s
  | Datatypes.S t => for_loop t (i + 1) body (body i s)
  end.

Definition for_range {S : Type} (lo hi : Z) (body : Z -> S -> S) (s : S) : S :=
  for_loop (Z.to_nat (hi - lo)) lo body s.

(** [for (int it_ker = k0, it_img = m0; it_ker < ker_end && it_img < img_end;
         ++it_ker, ++it_img) body]: two iterators advanced together, the
    loop stops as soon as either leaves its range. *)
Fixpoint dual_for {S : Type} (fuel : nat) (it_ker it_img ker_end img_end : Z)
    (body : Z -> Z -> S -> S) (s : S) : S :=
  match fuel with
  | O => s
  | Datatypes.S f =>
      if (it_ker <? ker_end) && (it_img <? img_end)
      then dual_for f (it_ker + 1) (it_img + 1) ker_end img_end body (body it_ker it_img s)
      else s
  end.

(** ** Layer members

    [CPPLayer] and [SepCPPLayer] declare the same six [int] members. *)
Record LayerState : Type := {
  kernel_ : Z;
  padding_ : Z;
  height_ : Z;
  width_ : Z;
  batch_num_ : Z;
  channels_ : Z
}.

(** [LayerSetUp] of both classes. *)
Definition LayerSetUp : LayerState :=
  {| kernel_ := 0; padding_ := 0; height_ := 0; width_ := 0;
     batch_num_ := 0; channels_ := 0 |}.

(** The "smart" loop header shared by all four passes:
    [for (int i_ker = std::max(padding_-pos, 0), i_img = pos - padding_ + i_ker;
          i_ker < kernel_ && i_img < dim; ++i_ker, ++i_img)].
    The kernel iterator can advance at most [kernel_ - i_ker] times. *)
Definition smart_for {S : Type} (L : LayerState) (pos dim : Z)
    (body : Z -> Z -> S -> S) (s : S) : S :=
  let i_ker := Z.max (padding_ L - pos) 0 in
  let i_img := pos - padding_ L + i_ker in
  dual_for (Z.to_nat (kernel_ L - i_ker)) i_ker i_img (kernel_ L) dim body s.

(** ** Blobs

    Modelled from the spec: Caffe's [Blob] (caffe/blob.hpp, not under src/),
    the spec's multi-dimensional buffer with explicit shape and row-major
    layout, last axis fastest.  A blob carries its shape and two buffers, the
    values ([cpu_data]) and the gradient ([cpu_diff]). *)
Record Blob (Dtype : Type) : Type := {
  shape_ : list Z;
  data_ : list Dtype;
  diff_ : list Dtype
}.
Arguments shape_ {Dtype} _.
Arguments data_ {Dtype} _.
Arguments diff_ {Dtype} _.

Section BlobAPI.
Context {Dtype : Type}.
Implicit Types b : Blob Dtype.

(** Modelled from the spec: [Blob::num_axes]. *)
Definition num_axes b : Z := Z.of_nat (length (shape_ b)).

(** Modelled from the spec: [Blob::CanonicalAxisIndex]; a negative index
    counts from the last axis, an index outside [-num_axes, num_axes) is
    fatal. *)
Definition CanonicalAxisIndex b (axis_index : Z) : outcome Z :=
  if axis_index <? - num_axes b then
    Fatal (CheckFailed "axis out of range")
  else if num_axes b <=? axis_index then
    Fatal (CheckFailed "axis out of range")
  else if axis_index <? 0 then Ok (axis_index + num_axes b)
  else Ok axis_index.

(** Modelled from the spec: [Blob::shape(int index)]. *)
Definition shape b (index : Z) : outcome Z :=
  i ← CanonicalAxisIndex b index;
  Ok (nth (Z.to_nat i) (shape_ b) 0).

(** Modelled from the spec: [Blob::count(int start_axis)], the product of
    the dimensions from [start_axis] on. *)
Definition count b (start_axis : Z) : Z :=
  fold_right Z.mul 1 (drop (Z.to_nat start_axis) (shape_ b)).

(** Modelled from the spec: [Blob::offset(n, c, h, w)] of a 4-axis blob. *)
Definition offset b (n c h w : Z) : Z :=
  ((n * nth 1 (shape_ b) 0 + c) * nth 2 (shape_ b) 0 + h) * nth 3 (shape_ b) 0 + w.
End BlobAPI.

(** ** Shape validation *)

(** [CPPLayer<Dtype>::Reshape] up to the last statement: the checks and the
    members they assign. *)
Definition CPPLayer_Reshape_members {Dtype : Type} (bottom0 bottom1 : Blob Dtype)
    : outcome LayerState :=
  CHECK_EQ (num_axes bottom0) 4 "inputs must have exactly 4 axes.";;
  CHECK_EQ (num_axes bottom0) (num_axes bottom1)
    "both input blobs must have the same number of axes.";;
  n0 ← shape bottom0 0;
  n1 ← shape bottom1 0;
  CHECK_EQ n0 n1 "both input blobs must have the same batch dimension length.";;
  batch_num ← shape bottom0 0;
  channels ← shape bottom0 1;
  B_input ← shape bottom1 1;
  let kernel := CPP_kernel_size B_input in
  CHECK_EQ (int_wrap (kernel * kernel)) B_input
    "input channel dimension must be a square of an integer.";;
  CHECK_EQ (Z.rem kernel 2) 1 "input kernel size must be an odd integer.";;
  let padding := Z.quot (kernel - 1) 2 in
  w0 ← shape bottom0 (-1);
  w1 ← shape bottom1 (-1);
  CHECK_EQ w0 w1 "inputs must have the same height.";;
  h0 ← shape bottom0 (-2);
  h1 ← shape bottom1 (-2);
  CHECK_EQ h0 h1 "inputs must have the same width.";;
  width ← shape bottom0 (-1);
  height ← shape bottom0 (-2);
  Ok {| kernel_ := kernel; padding_ := padding; height_ := height;
        width_ := width; batch_num_ := batch_num; channels_ := channels |}.

(** [SepCPPLayer<Dtype>::Reshape] up to the last statement. *)
Definition SepCPPLayer_Reshape_members {Dtype : Type} (bottom0 bottom1 : Blob Dtype)
    : outcome LayerState :=
  CHECK_EQ (num_axes bottom0) 4 "inputs must have exactly 4 axes.";;
  CHECK_EQ (num_axes bottom0) (num_axes bottom1)
    "both input blobs must have the same number of axes.";;
  n0 ← shape bottom0 0;
  n1 ← shape bottom1 0;
  CHECK_EQ n0 n1 "both input blobs must have the same batch dimension length.";;
  batch_num ← shape bottom0 0;
  channels ← shape bottom0 1;
  B_input ← shape bottom1 1;
  CHECK_EQ (Z.rem B_input 2) 0
    "kernel blob channel dimension must be an even integer.";;
  let kernel := Z.quot B_input 2 in
  CHECK_EQ (Z.rem kernel 2) 1 "input kernel size must be an odd integer.";;
  let padding := Z.quot (kernel - 1) 2 in
  w0 ← shape bottom0 (-1);
  w1 ← shape bottom1 (-1);
  CHECK_EQ w0 w1 "inputs must have the same height.";;
  h0 ← shape bottom0 (-2);
  h1 ← shape bottom1 (-2);
  CHECK_EQ h0 h1 "inputs must have the same width.";;
  width ← shape bottom0 (-1);
  height ← shape bottom0 (-2);
  Ok {| kernel_ := kernel; padding_ := padding; height_ := height;
        width_ := width; batch_num_ := batch_num; channels_ := channels |}.

(** The three blobs a layer call works on: [bottom[0]] (image), [bottom[1]]
    (per-pixel kernels) and [top[0]] (output).  They are distinct [Blob]
    objects, each with buffers of its own. *)
Record Blobs (Dtype : Type) : Type := {
  bottom0 : Blob Dtype;
  bottom1 : Blob Dtype;
  top0 : Blob Dtype
}.
Arguments bottom0 {Dtype} _.
Arguments bottom1 {Dtype} _.
Arguments top0 {Dtype} _.

(** Modelled from the spec: [Caffe::mode()] (caffe/common.hpp, not under
    src/), the device the host engine computes on. *)
Inductive Brew : Type := CPU | GPU.

(** Modelled from the spec: the bound [kMaxBlobAxes] on the number of axes of
    a blob (caffe/blob.hpp, not under src/). *)
Definition kMaxBlobAxes : Z := 32.

(** Modelled from the spec: the loop of [Blob::Reshape(const vector<int>&)]
    (caffe/blob.hpp, not under src/) that multiplies the extents into the
    element count.  Extents and count are C++ [int]s: a negative extent is
    fatal, and so is an extent above [INT_MAX / count_]. *)
Fixpoint Reshape_count (shape : list Z) (count_ : Z) : outcome Z :=
  match shape with
  | [] => Ok count_
  | d :: rest =>
      if d <? 0 then Fatal (CheckFailed "Check failed: shape[i] >= 0")
      else if negb (count_ =? 0) && (Z.quot INT_MAX count_ <? d)
      then Fatal (CheckFailed "blob size exceeds INT_MAX")
      else Reshape_count rest (count_ * d)
  end.

Section Layers.
Context {Dtype : Type}.
Variables (dzero : Dtype) (dadd dmul : Dtype -> Dtype -> Dtype).

Local Abbreviation buffer := (list Dtype).

(** ** Buffers *)

(** [buf[i]] read through a [const Dtype*].  An index outside the buffer is
    undefined behaviour in C++; the embedding reads [Dtype(0)] there. *)
Definition load (buf : buffer) (i : Z) : Dtype :=
  if i <? 0 then dzero else default dzero (buf !! Z.to_nat i).

(** [buf[i] = v] through a [Dtype*]; nothing is written outside the buffer. *)
Definition store (buf : buffer) (i : Z) (v : Dtype) : buffer :=
  if i <? 0 then buf else <[Z.to_nat i := v]> buf.

(** Modelled from the spec: [Blob::data_at] and [Blob::diff_at]. *)
Definition data_at (b : Blob Dtype) (n c h w : Z) : Dtype :=
  load (data_ b) (offset b n c h w).
Definition diff_at (b : Blob Dtype) (n c h w : Z) : Dtype :=
  load (diff_ b) (offset b n c h w).

(** Modelled from the spec: [Blob::ReshapeLike].  The shape is taken from
    [other]; the buffers are kept while they are large enough and replaced
    by fresh zero-filled ones otherwise. *)
Definition ReshapeLike (b other : Blob Dtype) : Blob Dtype :=
  let cnt := count other 0 in
  if cnt <=? Z.of_nat (length (data_ b)) then
    {| shape_ := shape_ other; data_ := data_ b; diff_ := diff_ b |}
  else
    {| shape_ := shape_ other;
       data_ := replicate (Z.to_nat cnt) dzero;
       diff_ := replicate (Z.to_nat cnt) dzero |}.

(** [CPPLayer<Dtype>::Reshape]. *)
Definition CPPLayer_Reshape (io : Blobs Dtype) : outcome (LayerState * Blobs Dtype) :=
  L ← CPPLayer_Reshape_members (bottom0 io) (bottom1 io);
  Ok (L, {| bottom0 := bottom0 io; bottom1 := bottom1 io;
            top0 := ReshapeLike (top0 io) (bottom0 io) |}).

(** [SepCPPLayer<Dtype>::Reshape]. *)
Definition SepCPPLayer_Reshape (io : Blobs Dtype) : outcome (LayerState * Blobs Dtype) :=
  L ← SepCPPLayer_Reshape_members (bottom0 io) (bottom1 io);
  Ok (L, {| bottom0 := bottom0 io; bottom1 := bottom1 io;
            top0 := ReshapeLike (top0 io) (bottom0 io) |}).

(** ** Dense layer *)

(** The accumulation [v] of [CPPLayer::Forward_cpu] for one output pixel. *)
Definition CPP_pixel (L : LayerState) (img ker : buffer)
    (pixels_in_kblob pixels_in_kernel n img_offset pix_offset y x : Z) : Dtype :=
  smart_for L y (height_ L) (fun i_ker i_img v =>
    smart_for L x (width_ L) (fun j_ker j_img v =>
      dadd v (dmul (load img (img_offset + i_img * width_ L + j_img))
                   (load ker (n * pixels_in_kblob +
                              (i_ker * kernel_ L + j_ker) * pixels_in_kernel +
                              pix_offset)))) v) dzero.

(** The loop nest of a forward pass: [pixel] computes the value stored at
    [out[img_offset + pix_offset]]; [pix_offset] is reset per channel and
    incremented with [x]. *)
Definition forward_nest (L : LayerState) (pixels_in_image pixels_in_channel : Z)
    (pixel : Z -> Z -> Z -> Z -> Z -> Dtype) (out : buffer) : buffer :=
  for_range 0 (batch_num_ L) (fun n out =>
    for_range 0 (channels_ L) (fun c out =>
      let img_offset := n * pixels_in_image + c * pixels_in_channel in
      snd (for_range 0 (height_ L) (fun y st =>
             for_range 0 (width_ L) (fun x st =>
               let pix_offset := fst st in
               let v := pixel n img_offset pix_offset y x in
               (pix_offset + 1, store (snd st) (img_offset + pix_offset) v)) st)
           (0, out))) out) out.

(** [CPPLayer<Dtype>::Forward_cpu]. *)
Definition CPPLayer_Forward_cpu (L : LayerState) (io : Blobs Dtype) : Blobs Dtype :=
  let img := data_ (bottom0 io) in
  let ker := data_ (bottom1 io) in
  let out := data_ (top0 io) in
  let pixels_in_image := count (bottom0 io) 1 in
  let pixels_in_channel := count (bottom0 io) 2 in
  let pixels_in_kblob := count (bottom1 io) 1 in
  let pixels_in_kernel := count (bottom1 io) 2 in
  let out' := forward_nest L pixels_in_image pixels_in_channel
                (CPP_pixel L img ker pixels_in_kblob pixels_in_kernel) out in
  {| bottom0 := bottom0 io; bottom1 := bottom1 io;
     top0 := {| shape_ := shape_ (top0 io); data_ := out'; diff_ := diff_ (top0 io) |} |}.

(** The channel sum [sum_c src[..] * img[..]] of both backward passes. *)
Definition channel_dot (L : LayerState) (src img : buffer)
    (pixels_in_image pixels_in_channel n y x i_img j_img : Z) : Dtype :=
  for_range 0 (channels_ L) (fun c v =>
    let offset := n * pixels_in_image + c * pixels_in_channel in
    dadd v (dmul (load src (offset + y * width_ L + x))
                 (load img (offset + i_img * width_ L + j_img)))) dzero.

(** [CPPLayer<Dtype>::Backward_cpu]; [propagate_down] is not consulted. *)
Definition CPPLayer_Backward_cpu (L : LayerState) (propagate_down : list bool)
    (io : Blobs Dtype) : Blobs Dtype :=
  let src := diff_ (top0 io) in
  let diff := diff_ (bottom1 io) in
  let img := data_ (bottom0 io) in
  let pixels_in_image := count (bottom0 io) 1 in
  let pixels_in_channel := count (bottom0 io) 2 in
  let pixels_in_kblob := count (bottom1 io) 1 in
  let pixels_in_kernel := count (bottom0 io) 2 in
  let diff' :=
    for_range 0 (batch_num_ L) (fun n diff =>
      for_range 0 (height_ L) (fun y diff =>
        for_range 0 (width_ L) (fun x diff =>
          smart_for L y (height_ L) (fun i_ker i_img diff =>
            smart_for L x (width_ L) (fun j_ker j_img diff =>
              let v := channel_dot L src img pixels_in_image pixels_in_channel
                         n y x i_img j_img in
              store diff (n * pixels_in_kblob +
                          (i_ker * kernel_ L + j_ker) * pixels_in_kernel +
                          y * width_ L + x) v) diff) diff) diff) diff) diff in
  {| bottom0 := bottom0 io;
     bottom1 := {| shape_ := shape_ (bottom1 io); data_ := data_ (bottom1 io);
                   diff_ := diff' |};
     top0 := top0 io |}.

(** [CPPLayer::Forward_gpu] and [CPPLayer::Backward_gpu] (cpp_layer.hpp):
    the body of each is the [NOT_IMPLEMENTED] macro. *)
Definition CPPLayer_Forward_gpu (L : LayerState) (io : Blobs Dtype)
    : outcome (Blobs Dtype) := NOT_IMPLEMENTED.
Definition CPPLayer_Backward_gpu (L : LayerState) (propagate_down : list bool)
    (io : Blobs Dtype) : outcome (Blobs Dtype) := NOT_IMPLEMENTED.

(** ** Separable layer *)

(** The accumulation [v] of [SepCPPLayer::Forward_cpu] for one output pixel:
    the inner loop forms the row sum [temp] with the horizontal weights, the
    outer loop weighs it with the vertical weight. *)
Definition SepCPP_pixel (L : LayerState) (img ker : buffer)
    (pixels_in_kblob pixels_in_kernel n img_offset pix_offset y x : Z) : Dtype :=
  smart_for L y (height_ L) (fun i_ker i_img v =>
    let temp :=
      smart_for L x (width_ L) (fun j_ker j_img temp =>
        dadd temp (dmul (load img (img_offset + i_img * width_ L + j_img))
                        (load ker (n * pixels_in_kblob +
                                   j_ker * pixels_in_kernel +
                                   pix_offset)))) dzero in
    dadd v (dmul temp (load ker (n * pixels_in_kblob +
                                 (kernel_ L + i_ker) * pixels_in_kernel +
                                 pix_offset)))) dzero.

(** [SepCPPLayer<Dtype>::Forward_cpu]. *)
Definition SepCPPLayer_Forward_cpu (L : LayerState) (io : Blobs Dtype) : Blobs Dtype :=
  let img := data_ (bottom0 io) in
  let ker := data_ (bottom1 io) in
  let out := data_ (top0 io) in
  let pixels_in_image := count (bottom0 io) 1 in
  let pixels_in_channel := count (bottom0 io) 2 in
  let pixels_in_kblob := count (bottom1 io) 1 in
  let pixels_in_kernel := count (bottom1 io) 2 in
  let out' := forward_nest L pixels_in_image pixels_in_channel
                (SepCPP_pixel L img ker pixels_in_kblob pixels_in_kernel) out in
  {| bottom0 := bottom0 io; bottom1 := bottom1 io;
     top0 := {| shape_ := shape_ (top0 io); data_ := out'; diff_ := diff_ (top0 io) |} |}.

(** ** The expansion oracle of the separable forward test *)

(** The loop nest of [reference_cpp] (test_sepcpp_layer.cpp) that expands the
    separable filters into a dense kernel blob:
    [expanded[n, j*kernel+i, y, x] = kernels[n, j+kernel, y, x] * kernels[n, i, y, x]]. *)
Definition expand_filters (kernels_ expanded : Blob Dtype) (kernel d0 d2 d3 : Z)
    : buffer :=
  for_range 0 d0 (fun n data =>
    for_range 0 d2 (fun y data =>
      for_range 0 d3 (fun x data =>
        for_range 0 kernel (fun j data =>
          for_range 0 kernel (fun i data =>
            store data (offset expanded n (j * kernel + i) y x)
              (dmul (data_at kernels_ n (j + kernel) y x)
                    (data_at kernels_ n i y x))) data) data) data) data)
    (data_ expanded).

(** Modelled from the spec: [Blob::Reshape(const vector<int>&)]
    (caffe/blob.hpp, not under src/).  The shape is checked and stored; the
    buffers are kept while they are large enough and replaced by fresh
    zero-filled ones otherwise. *)
Definition Blob_Reshape (b : Blob Dtype) (shape : list Z) : outcome (Blob Dtype) :=
  (if kMaxBlobAxes <? Z.of_nat (length shape)
   then Fatal (CheckFailed "Check failed: shape.size() <= kMaxBlobAxes")
   else Ok tt);;
  cnt ← Reshape_count shape 1;
  Ok (if cnt <=? Z.of_nat (length (data_ b)) then
        {| shape_ := shape; data_ := data_ b; diff_ := diff_ b |}
      else
        {| shape_ := shape;
           data_ := replicate (Z.to_nat cnt) dzero;
           diff_ := replicate (Z.to_nat cnt) dzero |}).

(** Modelled from the spec: [Layer::Forward] (caffe/layer.hpp, not under
    src/) on a [CPPLayer]: [Reshape], then the forward pass of the device in
    use. *)
Definition CPPLayer_Forward (mode : Brew) (io : Blobs Dtype) : outcome (Blobs Dtype) :=
  r ← CPPLayer_Reshape io;
  match mode with
  | CPU => Ok (CPPLayer_Forward_cpu (fst r) (snd r))
  | GPU => CPPLayer_Forward_gpu (fst r) (snd r)
  end.

(** [reference_cpp]: a default-constructed blob is reshaped to
    [N, kernel*kernel, H, W] ([kernel*kernel] an [int] product) and filled by
    the expansion; the dense layer is set up on the image and the expanded
    kernels and run forward ([Layer::Forward]).  Of [Layer::SetUp]
    (caffe/layer.hpp, not under src/) the call of [Reshape] is what acts
    here: the blob counts are the two inputs and one output the layer
    declares, [LayerSetUp] assigns members that [Reshape] assigns again, and
    the default layer parameter sets no loss weight. *)
Definition reference_cpp (mode : Brew) (image_ kernels_ output_ : Blob Dtype)
    : outcome (Blobs Dtype) :=
  c1 ← shape kernels_ 1;
  let kernel := Z.quot c1 2 in
  d0 ← shape kernels_ 0;
  d2 ← shape kernels_ 2;
  d3 ← shape kernels_ 3;
  let ref_shape := [d0; int_wrap (kernel * kernel); d2; d3] in
  fresh ← Blob_Reshape {| shape_ := []; data_ := []; diff_ := [] |} ref_shape;
  let expanded_kernels :=
    {| shape_ := shape_ fresh;
       data_ := expand_filters kernels_ fresh kernel d0 d2 d3;
       diff_ := diff_ fresh |} in
  r ← CPPLayer_Reshape {| bottom0 := image_; bottom1 := expanded_kernels;
                          top0 := output_ |};
  CPPLayer_Forward mode (snd r).

(** The value [v] of the horizontal pass of [SepCPPLayer::Backward_cpu] for
    one horizontal weight: the loop over the vertical offsets. *)
Definition SepCPP_horizontal_value (L : LayerState) (src img ker : buffer)
    (pixels_in_image pixels_in_channel pixels_in_kblob pixels_in_kernel
     n y x j_img : Z) : Dtype :=
  smart_for L y (height_ L) (fun i_ker i_img v =>
    let t := channel_dot L src img pixels_in_image pixels_in_channel
               n y x i_img j_img in
    dadd v (dmul t (load ker (n * pixels_in_kblob +
                              (kernel_ L + i_ker) * pixels_in_kernel +
                              y * width_ L + x)))) dzero.

(** The value [v] of the vertical pass for one vertical weight: the loop
    over the horizontal offsets. *)
Definition SepCPP_vertical_value (L : LayerState) (src img ker : buffer)
    (pixels_in_image pixels_in_channel pixels_in_kblob pixels_in_kernel
     n y x i_img : Z) : Dtype :=
  smart_for L x (width_ L) (fun j_ker j_img v =>
    let t := channel_dot L src img pixels_in_image pixels_in_channel
               n y x i_img j_img in
    dadd v (dmul t (load ker (n * pixels_in_kblob +
                              j_ker * pixels_in_kernel +
                              y * width_ L + x)))) dzero.

(** [SepCPPLayer<Dtype>::Backward_cpu]: per pixel, the pass over the
    horizontal weights followed by the pass over the vertical weights;
    [propagate_down] is not consulted. *)
Definition SepCPPLayer_Backward_cpu (L : LayerState) (propagate_down : list bool)
    (io : Blobs Dtype) : Blobs Dtype :=
  let src := diff_ (top0 io) in
  let img := data_ (bottom0 io) in
  let ker := data_ (bottom1 io) in
  let diff := diff_ (bottom1 io) in
  let pixels_in_image := count (bottom0 io) 1 in
  let pixels_in_channel := count (bottom0 io) 2 in
  let pixels_in_kblob := count (bottom1 io) 1 in
  let pixels_in_kernel := count (bottom0 io) 2 in
  let diff' :=
    for_range 0 (batch_num_ L) (fun n diff =>
      for_range 0 (height_ L) (fun y diff =>
        for_range 0 (width_ L) (fun x diff =>
          let diff :=
            smart_for L x (width_ L) (fun j_ker j_img diff =>
              let v := SepCPP_horizontal_value L src img ker
                         pixels_in_image pixels_in_channel
                         pixels_in_kblob pixels_in_kernel n y x j_img in
              store diff (n * pixels_in_kblob +
                          j_ker * pixels_in_kernel +
                          y * width_ L + x) v) diff in
          smart_for L y (height_ L) (fun i_ker i_img diff =>
            let v := SepCPP_vertical_value L src img ker
                       pixels_in_image pixels_in_channel
                       pixels_in_kblob pixels_in_kernel n y x i_img in
            store diff (n * pixels_in_kblob +
                        (kernel_ L + i_ker) * pixels_in_kernel +
                        y * width_ L + x) v) diff) diff) diff) diff in
  {| bottom0 := bottom0 io;
     bottom1 := {| shape_ := shape_ (bottom1 io); data_ := data_ (bottom1 io);
                   diff_ := diff' |};
     top0 := top0 io |}.

End Layers.

(** ** The passes with checked accesses

    Reading or writing outside a buffer is undefined behaviour in C++.  The
    passes are given a second time with every access checked: a read or a
    write outside the buffer makes the pass fail. *)

Section CheckedLayers.
Context {Dtype : Type}.
Variables (dzero : Dtype) (dadd dmul : Dtype -> Dtype -> Dtype).

Local Abbreviation buffer := (list Dtype).

(** [buf[i]] read through a [const Dtype*], defined inside the buffer only. *)
Definition load_checked (buf : buffer) (i : Z) : option Dtype :=
  if i <? 0 then None else buf !! Z.to_nat i.

(** [buf[i] = v] through a [Dtype*], defined inside the buffer only. *)
Definition store_checked (buf : buffer) (i : Z) (v : Dtype) : option buffer :=
  if (0 <=? i) && (i <? Z.of_nat (length buf))
  then Some (<[Z.to_nat i := v]> buf) else None.

(** The accumulation [v] of [CPPLayer::Forward_cpu] for one output pixel. *)
Definition CPP_pixel_checked (L : LayerState) (img ker : buffer)
    (pixels_in_kblob pixels_in_kernel n img_offset pix_offset y x : Z)
    : option Dtype :=
  smart_for L y (height_ L) (fun i_ker i_img v =>
    smart_for L x (width_ L) (fun j_ker j_img v =>
      v ← v;
      a ← load_checked img (img_offset + i_img * width_ L + j_img);
      b ← load_checked ker (n * pixels_in_kblob +
                            (i_ker * kernel_ L + j_ker) * pixels_in_kernel +
                            pix_offset);
      Some (dadd v (dmul a b))) v) (Some dzero).

(** The loop nest of a forward pass, the store into [out] checked. *)
Definition forward_nest_checked (L : LayerState)
    (pixels_in_image pixels_in_channel : Z)
    (pixel : Z -> Z -> Z -> Z -> Z -> option Dtype) (out : buffer)
    : option buffer :=
  for_range 0 (batch_num_ L) (fun n out =>
    for_range 0 (channels_ L) (fun c out =>
      let img_offset := n * pixels_in_image + c * pixels_in_channel in
      snd <$> for_range 0 (height_ L) (fun y st =>
                for_range 0 (width_ L) (fun x st =>
                  st ← st;
                  let pix_offset := fst st in
                  v ← pixel n img_offset pix_offset y x;
                  out ← store_checked (snd st) (img_offset + pix_offset) v;
                  Some (pix_offset + 1, out)) st)
              (pair 0 <$> out)) out) (Some out).

(** [CPPLayer<Dtype>::Forward_cpu] with checked accesses. *)
Definition CPPLayer_Forward_cpu_checked (L : LayerState) (io : Blobs Dtype)
    : option (Blobs Dtype) :=
  let img := data_ (bottom0 io) in
  let ker := data_ (bottom1 io) in
  let out := data_ (top0 io) in
  let pixels_in_image := count (bottom0 io) 1 in
  let pixels_in_channel := count (bottom0 io) 2 in
  let pixels_in_kblob := count (bottom1 io) 1 in
  let pixels_in_kernel := count (bottom1 io) 2 in
  out' ← forward_nest_checked L pixels_in_image pixels_in_channel
           (CPP_pixel_checked L img ker pixels_in_kblob pixels_in_kernel) out;
  Some {| bottom0 := bottom0 io; bottom1 := bottom1 io;
          top0 := {| shape_ := shape_ (top0 io); data_ := out';
                     diff_ := diff_ (top0 io) |} |}.

(** The accumulation [v] of [SepCPPLayer::Forward_cpu] for one output pixel. *)
Definition SepCPP_pixel_checked (L : LayerState) (img ker : buffer)
    (pixels_in_kblob pixels_in_kernel n img_offset pix_offset y x : Z)
    : option Dtype :=
  smart_for L y (height_ L) (fun i_ker i_img v =>
    v ← v;
    temp ← smart_for L x (width_ L) (fun j_ker j_img temp =>
              temp ← temp;
              a ← load_checked img (img_offset + i_img * width_ L + j_img);
              b ← load_checked ker (n * pixels_in_kblob +
                                    j_ker * pixels_in_kernel +
                                    pix_offset);
              Some (dadd temp (dmul a b))) (Some dzero);
    b ← load_checked ker (n * pixels_in_kblob +
                          (kernel_ L + i_ker) * pixels_in_kernel +
                          pix_offset);
    Some (dadd v (dmul temp b))) (Some dzero).

(** [SepCPPLayer<Dtype>::Forward_cpu] with checked accesses. *)
Definition SepCPPLayer_Forward_cpu_checked (L : LayerState) (io : Blobs Dtype)
    : option (Blobs Dtype) :=
  let img := data_ (bottom0 io) in
  let ker := data_ (bottom1 io) in
  let out := data_ (top0 io) in
  let pixels_in_image := count (bottom0 io) 1 in
  let pixels_in_channel := count (bottom0 io) 2 in
  let pixels_in_kblob := count (bottom1 io) 1 in
  let pixels_in_kernel := count (bottom1 io) 2 in
  out' ← forward_nest_checked L pixels_in_image pixels_in_channel
           (SepCPP_pixel_checked L img ker pixels_in_kblob pixels_in_kernel) out;
  Some {| bottom0 := bottom0 io; bottom1 := bottom1 io;
          top0 := {| shape_ := shape_ (top0 io); data_ := out';
                     diff_ := diff_ (top0 io) |} |}.

(** The channel sum of both backward passes. *)
Definition channel_dot_checked (L : LayerState) (src img : buffer)
    (pixels_in_image pixels_in_channel n y x i_img j_img : Z) : option Dtype :=
  for_range 0 (channels_ L) (fun c v =>
    v ← v;
    let offset := n * pixels_in_image + c * pixels_in_channel in
    a ← load_checked src (offset + y * width_ L + x);
    b ← load_checked img (offset + i_img * width_ L + j_img);
    Some (dadd v (dmul a b))) (Some dzero).

(** [CPPLayer<Dtype>::Backward_cpu] with checked accesses. *)
Definition CPPLayer_Backward_cpu_checked (L : LayerState)
    (propagate_down : list bool) (io : Blobs Dtype) : option (Blobs Dtype) :=
  let src := diff_ (top0 io) in
  let diff := diff_ (bottom1 io) in
  let img := data_ (bottom0 io) in
  let pixels_in_image := count (bottom0 io) 1 in
  let pixels_in_channel := count (bottom0 io) 2 in
  let pixels_in_kblob := count (bottom1 io) 1 in
  let pixels_in_kernel := count (bottom0 io) 2 in
  diff' ←
    for_range 0 (batch_num_ L) (fun n diff =>
      for_range 0 (height_ L) (fun y diff =>
        for_range 0 (width_ L) (fun x diff =>
          smart_for L y (height_ L) (fun i_ker i_img diff =>
            smart_for L x (width_ L) (fun j_ker j_img diff =>
              diff ← diff;
              v ← channel_dot_checked L src img pixels_in_image
                     pixels_in_channel n y x i_img j_img;
              store_checked diff (n * pixels_in_kblob +
                                  (i_ker * kernel_ L + j_ker) * pixels_in_kernel +
                                  y * width_ L + x) v) diff) diff) diff) diff)
      (Some diff);
  Some {| bottom0 := bottom0 io;
          bottom1 := {| shape_ := shape_ (bottom1 io); data_ := data_ (bottom1 io);
                        diff_ := diff' |};
          top0 := top0 io |}.

(** The value [v] of the horizontal pass of [SepCPPLayer::Backward_cpu]. *)
Definition SepCPP_horizontal_value_checked (L : LayerState) (src img ker : buffer)
    (pixels_in_image pixels_in_channel pixels_in_kblob pixels_in_kernel
     n y x j_img : Z) : option Dtype :=
  smart_for L y (height_ L) (fun i_ker i_img v =>
    v ← v;
    t ← channel_dot_checked L src img pixels_in_image pixels_in_channel
          n y x i_img j_img;
    b ← load_checked ker (n * pixels_in_kblob +
                          (kernel_ L + i_ker) * pixels_in_kernel +
                          y * width_ L + x);
    Some (dadd v (dmul t b))) (Some dzero).

(** The value [v] of the vertical pass. *)
Definition SepCPP_vertical_value_checked (L : LayerState) (src img ker : buffer)
    (pixels_in_image pixels_in_channel pixels_in_kblob pixels_in_kernel
     n y x i_img : Z) : option Dtype :=
  smart_for L x (width_ L) (fun j_ker j_img v =>
    v ← v;
    t ← channel_dot_checked L src img pixels_in_image pixels_in_channel
          n y x i_img j_img;
    b ← load_checked ker (n * pixels_in_kblob +
                          j_ker * pixels_in_kernel +
                          y * width_ L + x);
    Some (dadd v (dmul t b))) (Some dzero).

(** [SepCPPLayer<Dtype>::Backward_cpu] with checked accesses. *)
Definition SepCPPLayer_Backward_cpu_checked (L : LayerState)
    (propagate_down : list bool) (io : Blobs Dtype) : option (Blobs Dtype) :=
  let src := diff_ (top0 io) in
  let img := data_ (bottom0 io) in
  let ker := data_ (bottom1 io) in
  let diff := diff_ (bottom1 io) in
  let pixels_in_image := count (bottom0 io) 1 in
  let pixels_in_channel := count (bottom0 io) 2 in
  let pixels_in_kblob := count (bottom1 io) 1 in
  let pixels_in_kernel := count (bottom0 io) 2 in
  diff' ←
    for_range 0 (batch_num_ L) (fun n diff =>
      for_range 0 (height_ L) (fun y diff =>
        for_range 0 (width_ L) (fun x diff =>
          let diff :=
            smart_for L x (width_ L) (fun j_ker j_img diff =>
              diff ← diff;
              v ← SepCPP_horizontal_value_checked L src img ker
                     pixels_in_image pixels_in_channel
                     pixels_in_kblob pixels_in_kernel n y x j_img;
              store_checked diff (n * pixels_in_kblob +
                                  j_ker * pixels_in_kernel +
                                  y * width_ L + x) v) diff in
          smart_for L y (height_ L) (fun i_ker i_img diff =>
            diff ← diff;
            v ← SepCPP_vertical_value_checked L src img ker
                   pixels_in_image pixels_in_channel
                   pixels_in_kblob pixels_in_kernel n y x i_img;
            store_checked diff (n * pixels_in_kblob +
                                (kernel_ L + i_ker) * pixels_in_kernel +
                                y * width_ L + x) v) diff) diff) diff)
      (Some diff);
  Some {| bottom0 := bottom0 io;
          bottom1 := {| shape_ := shape_ (bottom1 io); data_ := data_ (bottom1 io);
                        diff_ := diff' |};
          top0 := top0 io |}.
End CheckedLayers.

(** * Specification vocabulary *)

(** The clamped range of kernel offsets the smart loop visits at position
    [pos] of an axis of extent [dim]. *)
Abbreviation lo_ L pos := (Z.max (padding_ L - pos) 0).
Abbreviation hi_ L pos dim := (Z.min (kernel_ L) (dim + padding_ L - pos)).

Section Vocabulary.
Context {Dtype : Type}.
Variables (dzero : Dtype) (dadd dmul : Dtype -> Dtype -> Dtype).

(** [sum_{lo <= i < hi} f i], added up in increasing order of [i]. *)
Definition dsum (lo hi : Z) (f : Z -> Dtype) : Dtype :=
  for_range lo hi (fun i acc => dadd acc (f i)) dzero.

(** [sum_{lo <= i < hi, p i} f i]: the terms with [p i = false] are skipped. *)
Definition dsum_if (lo hi : Z) (p : Z -> bool) (f : Z -> Dtype) : Dtype :=
  for_range lo hi (fun i acc => if p i then dadd acc (f i) else acc) dzero.

(** Kernel offset [i] of the window centred at [pos] meets an image
    coordinate inside [0, dim). *)
Definition in_bounds (L : LayerState) (pos dim i : Z) : bool :=
  (0 <=? pos - padding_ L + i) && (pos - padding_ L + i <? dim).

(** A blob whose buffers hold at least [count] elements. *)
Definition blob_allocated (b : Blob Dtype) : Prop :=
  count b 0 <= Z.of_nat (length (data_ b)) /\
  count b 0 <= Z.of_nat (length (diff_ b)).

(** A blob whose buffers exist.  Caffe creates the two buffers of a blob
    when its element count first exceeds zero and keeps them from then on;
    [cpu_data], [cpu_diff] and their mutable versions abort on a blob that
    has none. *)
Definition has_buffers (b : Blob Dtype) : Prop :=
  data_ b <> [] /\ diff_ b <> [].

(** What both validators establish, apart from the kernel blob's channel
    rule: non-negative extents [N, C, H, W] read off the image blob, an odd
    kernel size with [P = (K-1)/2], the output shaped like the image. *)
Definition common_shaped (L : LayerState) (io : Blobs Dtype) : Prop :=
  shape_ (bottom0 io) = [batch_num_ L; channels_ L; height_ L; width_ L] /\
  shape_ (top0 io) = shape_ (bottom0 io) /\
  0 <= batch_num_ L /\ 0 <= channels_ L /\ 0 <= height_ L /\ 0 <= width_ L /\
  Z.rem (kernel_ L) 2 = 1 /\
  padding_ L = Z.quot (kernel_ L - 1) 2 /\
  blob_allocated (bottom0 io) /\ blob_allocated (bottom1 io) /\
  blob_allocated (top0 io).

(** Well-shaped input of the dense layer: image [N,C,H,W], kernels
    [N,K*K,H,W]. *)
Definition dense_shaped (L : LayerState) (io : Blobs Dtype) : Prop :=
  common_shaped L io /\
  shape_ (bottom1 io) =
    [batch_num_ L; kernel_ L * kernel_ L; height_ L; width_ L].

(** Well-shaped input of the separable layer: image [N,C,H,W], kernels
    [N,2K,H,W]. *)
Definition sep_shaped (L : LayerState) (io : Blobs Dtype) : Prop :=
  common_shaped L io /\
  shape_ (bottom1 io) =
    [batch_num_ L; 2 * kernel_ L; height_ L; width_ L].

(** Coordinates of an image element. *)
Definition in_image (L : LayerState) (n c y x : Z) : Prop :=
  0 <= n < batch_num_ L /\ 0 <= c < channels_ L /\
  0 <= y < height_ L /\ 0 <= x < width_ L.

(** The blobs of a call with the kernel blob's values replaced. *)
Definition with_kernel_data (io : Blobs Dtype) (ker : list Dtype) : Blobs Dtype :=
  {| bottom0 := bottom0 io;
     bottom1 := {| shape_ := shape_ (bottom1 io); data_ := ker;
                   diff_ := diff_ (bottom1 io) |};
     top0 := top0 io |}.

(** The scalar [sum_{n,c,y,x} src[n,c,y,x] * out[n,c,y,x]]: the output of a
    forward pass paired with the upstream gradient [src = top[0]->cpu_diff()].
    The gradient of a loss with respect to a kernel element is the
    derivative of this scalar with [src] held fixed. *)
Definition pairing (L : LayerState) (src out : Blob Dtype) : Dtype :=
  dsum 0 (batch_num_ L) (fun n =>
    dsum 0 (channels_ L) (fun c =>
      dsum 0 (height_ L) (fun y =>
        dsum 0 (width_ L) (fun x =>
          dmul (diff_at dzero src n c y x) (data_at dzero out n c y x))))).

(** Buffer [b'] is buffer [b] after stores that only touched indices in
    [dom], each stored value being related to its index by [R]. *)
Definition stores_into (dom : Z -> Prop) (R : Z -> Dtype -> Prop)
    (b b' : list Dtype) : Prop :=
  length b' = length b /\
  (forall j, dom j -> R j (load dzero b' j)) /\
  (forall j, load dzero b' j = load dzero b j \/ (dom j /\ R j (load dzero b' j))).

(** What the nest stores at flat index [j]: the pixel value of the
    coordinates that [j] encodes. *)
Definition nest_value (L : LayerState) (pixels_in_image pixels_in_channel : Z)
    (pixel : Z -> Z -> Z -> Z -> Z -> Dtype) (j : Z) (v : Dtype) : Prop :=
  forall n c y x, in_image L n c y x ->
    j = n * pixels_in_image + c * pixels_in_channel + y * width_ L + x ->
    v = pixel n (n * pixels_in_image + c * pixels_in_channel) (y * width_ L + x) y x.

(** The set of diff indices the dense backward pass assigns. *)
Definition dense_assigned (L : LayerState) (e : Z) : Prop :=
  exists n, 0 <= n < batch_num_ L /\
  exists y, 0 <= y < height_ L /\
  exists x, 0 <= x < width_ L /\
  exists i, lo_ L y <= i < hi_ L y (height_ L) /\
  exists j, lo_ L x <= j < hi_ L x (width_ L) /\
    e = n * (kernel_ L * kernel_ L * height_ L * width_ L) +
        (i * kernel_ L + j) * (height_ L * width_ L) + y * width_ L + x.

(** The value the dense backward pass assigns at a diff index. *)
Definition dense_assigns (L : LayerState) (src img : list Dtype) (e : Z) (v : Dtype)
    : Prop :=
  forall n y x i j,
    0 <= n < batch_num_ L -> 0 <= y < height_ L -> 0 <= x < width_ L ->
    0 <= i < kernel_ L -> 0 <= j < kernel_ L ->
    e = n * (kernel_ L * kernel_ L * height_ L * width_ L) +
        (i * kernel_ L + j) * (height_ L * width_ L) + y * width_ L + x ->
    v = channel_dot dzero dadd dmul L src img
          (channels_ L * height_ L * width_ L) (height_ L * width_ L)
          n y x (y - padding_ L + i) (x - padding_ L + j).

(** The set of diff indices the separable backward pass assigns. *)
Definition sep_assigned (L : LayerState) (e : Z) : Prop :=
  exists n, 0 <= n < batch_num_ L /\
  exists y, 0 <= y < height_ L /\
  exists x, 0 <= x < width_ L /\
    ((exists j, lo_ L x <= j < hi_ L x (width_ L) /\
        e = n * (2 * kernel_ L * height_ L * width_ L) +
            j * (height_ L * width_ L) + y * width_ L + x) \/
     (exists i, lo_ L y <= i < hi_ L y (height_ L) /\
        e = n * (2 * kernel_ L * height_ L * width_ L) +
            (kernel_ L + i) * (height_ L * width_ L) + y * width_ L + x)).

(** The value the separable backward pass assigns at a diff index. *)
Definition sep_assigns (L : LayerState) (src img ker : list Dtype)
    (e : Z) (v : Dtype) : Prop :=
  let PI := channels_ L * height_ L * width_ L in
  let PC := height_ L * width_ L in
  let KB := 2 * kernel_ L * height_ L * width_ L in
  (forall n y x j,
     0 <= n < batch_num_ L -> 0 <= y < height_ L -> 0 <= x < width_ L ->
     0 <= j < kernel_ L ->
     e = n * KB + j * PC + y * width_ L + x ->
     v = SepCPP_horizontal_value dzero dadd dmul L src img ker PI PC KB PC
           n y x (x - padding_ L + j)) /\
  (forall n y x i,
     0 <= n < batch_num_ L -> 0 <= y < height_ L -> 0 <= x < width_ L ->
     0 <= i < kernel_ L ->
     e = n * KB + (kernel_ L + i) * PC + y * width_ L + x ->
     v = SepCPP_vertical_value dzero dadd dmul L src img ker PI PC KB PC
           n y x (y - padding_ L + i)).

End Vocabulary.

(** The two checks [CPPLayer::Reshape] makes on the channel count [B] of the
    kernel blob: [kernel*kernel == B] (in [int]) and [kernel % 2 == 1]. *)
Definition CPP_kernel_accepted (B_input : Z) : bool :=
  let kernel := CPP_kernel_size B_input in
  (int_wrap (kernel * kernel) =? B_input) && (Z.rem kernel 2 =? 1).

(** The two checks [SepCPPLayer::Reshape] makes on the channel count. *)
Definition SepCPP_kernel_accepted (B_input : Z) : bool :=
  (Z.rem B_input 2 =? 0) && (Z.rem (Z.quot B_input 2) 2 =? 1).

(** The spec's rule for the dense kernel blob: the channel count is the
    square of an odd integer. *)
Definition pac_channel_rule (B : Z) : Prop :=
  exists k, Z.odd k = true /\ B = k * k.

(** The spec's rule for the separable kernel blob: the channel count is even
    and its half is odd. *)
Definition sep_channel_rule (B : Z) : Prop :=
  Z.even B = true /\ Z.odd (B / 2) = true.

(** The extents of a blob are non-negative [int]s. *)
Definition dims_valid {Dtype : Type} (b : Blob Dtype) : Prop :=
  Forall (fun d => 0 <= d <= INT_MAX) (shape_ b).

(** The rules of shape validation: exactly four axes each, the same batch
    count, the same height and width, and the channel rule of the layer on
    the kernel blob. *)
Definition inputs_agree {Dtype : Type} (rule : Z -> Prop) (b0 b1 : Blob Dtype) : Prop :=
  num_axes b0 = 4 /\ num_axes b1 = 4 /\
  nth 0 (shape_ b0) 0 = nth 0 (shape_ b1) 0 /\
  nth 2 (shape_ b0) 0 = nth 2 (shape_ b1) 0 /\
  nth 3 (shape_ b0) 0 = nth 3 (shape_ b1) 0 /\
  rule (nth 1 (shape_ b1) 0).

(** What a successful validation leaves behind: the output blob shaped like
    the image blob, the inputs untouched, and the members [N, C, H, W] read
    off the image shape, [K] odd and positive with [channels_of K] the channel
    count of the kernel blob, and [P = (K-1)/2]. *)
Definition validated {Dtype : Type} (channels_of : Z -> Z)
    (io : Blobs Dtype) (L : LayerState) (io' : Blobs Dtype) : Prop :=
  shape_ (top0 io') = shape_ (bottom0 io) /\
  bottom0 io' = bottom0 io /\ bottom1 io' = bottom1 io /\
  shape_ (bottom0 io) = [batch_num_ L; channels_ L; height_ L; width_ L] /\
  0 < kernel_ L /\ Z.odd (kernel_ L) = true /\
  nth 1 (shape_ (bottom1 io)) 0 = channels_of (kernel_ L) /\
  padding_ L = (kernel_ L - 1) / 2.

(** What [shr] knows after shifting [p] right by [k] bits: the mantissa is
    the quotient, the round bit is the first bit shifted out and the sticky
    bit tells whether any bit below it was set. *)
Definition shr_inv (p k : Z) (mrs : shr_record) : Prop :=
  0 <= shr_m mrs /\
  exists u, 0 <= u < 2 ^ k /\
    2 * (p - shr_m mrs * 2 ^ k) = (if shr_r mrs then 2 ^ k else 0) + u /\
    (shr_s mrs = true <-> 0 < u).

(** ** Concrete inputs over the integers *)

(** A 1x1x3x3 image holding 1..9, K = 3. *)
Definition L3 : LayerState :=
  {| kernel_ := 3; padding_ := 1; height_ := 3; width_ := 3;
     batch_num_ := 1; channels_ := 1 |}.

Definition image3 : Blob Z :=
  {| shape_ := [1; 1; 3; 3]; data_ := [1; 2; 3; 4; 5; 6; 7; 8; 9];
     diff_ := replicate 9 0 |}.

(** Output blob; its diff is an upstream gradient of ones. *)
Definition top3 : Blob Z :=
  {| shape_ := [1; 1; 3; 3]; data_ := replicate 9 0; diff_ := replicate 9 1 |}.

(** Dense kernels, every weight 2; the gradient buffer holds stale sevens. *)
Definition dense_kernels3 : Blob Z :=
  {| shape_ := [1; 9; 3; 3]; data_ := replicate 81 2; diff_ := replicate 81 7 |}.

(** Separable kernels: horizontal weights 1, vertical weights 2. *)
Definition sep_kernels3 : Blob Z :=
  {| shape_ := [1; 6; 3; 3];
     data_ := replicate 27 1 ++ replicate 27 2; diff_ := replicate 54 7 |}.

Definition dense_io3 : Blobs Z :=
  {| bottom0 := image3; bottom1 := dense_kernels3; top0 := top3 |}.

Definition sep_io3 : Blobs Z :=
  {| bottom0 := image3; bottom1 := sep_kernels3; top0 := top3 |}.

(** The identity scenario: a 2x3x4x4 image, K = 1, every weight 1. *)
Definition L1 : LayerState :=
  {| kernel_ := 1; padding_ := 0; height_ := 4; width_ := 4;
     batch_num_ := 2; channels_ := 3 |}.

Definition identity_io : Blobs Z :=
  {| bottom0 := {| shape_ := [2; 3; 4; 4];
                   data_ := map Z.of_nat (seq 1 96); diff_ := replicate 96 0 |};
     bottom1 := {| shape_ := [2; 1; 4; 4];
                   data_ := replicate 32 1; diff_ := replicate 32 0 |};
     top0 := {| shape_ := [2; 3; 4; 4];
                data_ := replicate 96 0; diff_ := replicate 96 0 |} |}.

(** Blobs given by their shapes alone, with empty buffers: the validators
    read nothing else. *)
Definition shapes_io (s0 s1 : list Z) : Blobs Z :=
  {| bottom0 := {| shape_ := s0; data_ := []; diff_ := [] |};
     bottom1 := {| shape_ := s1; data_ := []; diff_ := [] |};
     top0 := {| shape_ := []; data_ := []; diff_ := [] |} |}.

(** A separable input with K = 1: a 2x3x4x4 image holding 1..96, horizontal
    weights 2 (channel 0) and vertical weights 3 (channel 1). *)
Definition sep_identity_io : Blobs Z :=
  {| bottom0 := {| shape_ := [2; 3; 4; 4];
                   data_ := map Z.of_nat (seq 1 96); diff_ := replicate 96 0 |};
     bottom1 := {| shape_ := [2; 2; 4; 4];
                   data_ := replicate 16 2 ++ replicate 16 3 ++
                            replicate 16 2 ++ replicate 16 3;
                   diff_ := replicate 64 0 |};
     top0 := {| shape_ := [2; 3; 4; 4];
                data_ := replicate 96 0; diff_ := replicate 96 0 |} |}.

(** Three images on the 3x3 grid of [image3]: [image3c = 3 * image3 - 2 *
    image3b], element by element. *)
Definition image3b : Blob Z :=
  {| shape_ := [1; 1; 3; 3]; data_ := [1; 0; 0; 0; 1; 0; 0; 0; 1];
     diff_ := replicate 9 0 |}.

Definition image3c : Blob Z :=
  {| shape_ := [1; 1; 3; 3]; data_ := [1; 6; 9; 12; 13; 18; 21; 24; 25];
     diff_ := replicate 9 0 |}.

(** Three dense kernel blobs: weights 2 ([dense_kernels3]), weights
    0, 1, ..., 80, and [3 * 2 - 2 * e] at element [e]. *)
Definition dense_kernels3b : Blob Z :=
  {| shape_ := [1; 9; 3; 3]; data_ := map Z.of_nat (seq 0 81);
     diff_ := replicate 81 7 |}.

Definition dense_kernels3c : Blob Z :=
  {| shape_ := [1; 9; 3; 3];
     data_ := map (fun e => 3 * 2 + -2 * Z.of_nat e) (seq 0 81);
     diff_ := replicate 81 7 |}.

(** An empty batch held in blobs that keep the buffers of an earlier
    1x1x3x3 call. *)
Definition L_empty : LayerState :=
  {| kernel_ := 3; padding_ := 1; height_ := 3; width_ := 3;
     batch_num_ := 0; channels_ := 1 |}.

Definition empty_batch (b : Blob Z) (B : Z) : Blob Z :=
  {| shape_ := [0; B; 3; 3]; data_ := data_ b; diff_ := diff_ b |}.

Definition dense_io_empty : Blobs Z :=
  {| bottom0 := empty_batch image3 1; bottom1 := empty_batch dense_kernels3 9;
     top0 := empty_batch top3 1 |}.

Definition sep_io_empty : Blobs Z :=
  {| bottom0 := empty_batch image3 1; bottom1 := empty_batch sep_kernels3 6;
     top0 := empty_batch top3 1 |}.

(** ** The layers at [Dtype = float] *)

(** [Dtype(0)], [+] and [*] at type [float]: the IEEE-754 binary32
    operations, each rounding to nearest, ties to even. *)
Definition f32_zero : spec_float := S754_zero false.
Definition f32_add : spec_float -> spec_float -> spec_float := SFadd 24 128.
Definition f32_mul : spec_float -> spec_float -> spec_float := SFmul 24 128.

(** The value of a finite binary32 number in units of 2^-149, the spacing of
    the smallest binary32 numbers: an integer. *)
Definition f32_units (x : spec_float) : option Z :=
  match x with
  | S754_zero _ => Some 0
  | S754_finite s m e => Some (cond_Zopp s (Zpos m) * 2 ^ (e + 149))
  | _ => None
  end.

(** [|a - b| <= 1e-3], the tolerance of the forward tests
    ([EXPECT_NEAR(a, b, 1e-3)]), decided exactly on finite values. *)
Definition within_1e3 (a b : spec_float) : bool :=
  match f32_units a, f32_units b with
  | Some u, Some v => 1000 * Z.abs (u - v) <=? 2 ^ 149
  | _, _ => false
  end.

(** A 1x1x1x3 image holding 2^24, 1, 1 with K = 3; separable kernels with
    horizontal weights 1 and vertical weights 3, and their expansion, the
    dense kernels with every weight 1 * 3 = 3. *)
Definition L_row : LayerState :=
  {| kernel_ := 3; padding_ := 1; height_ := 1; width_ := 3;
     batch_num_ := 1; channels_ := 1 |}.

Definition f32_image : Blob spec_float :=
  {| shape_ := [1; 1; 1; 3]; data_ := map float_of_int [2 ^ 24; 1; 1];
     diff_ := replicate 3 f32_zero |}.

Definition f32_top : Blob spec_float :=
  {| shape_ := [1; 1; 1; 3]; data_ := replicate 3 f32_zero;
     diff_ := replicate 3 f32_zero |}.

Definition f32_sep_kernels : Blob spec_float :=
  {| shape_ := [1; 6; 1; 3];
     data_ := replicate 9 (float_of_int 1) ++ replicate 9 (float_of_int 3);
     diff_ := replicate 18 f32_zero |}.

Definition f32_dense_kernels : Blob spec_float :=
  {| shape_ := [1; 9; 1; 3]; data_ := replicate 27 (float_of_int 3);
     diff_ := replicate 27 f32_zero |}.

Definition f32_sep_io : Blobs spec_float :=
  {| bottom0 := f32_image; bottom1 := f32_sep_kernels; top0 := f32_top |}.

Definition f32_dense_io : Blobs spec_float :=
  {| bottom0 := f32_image; bottom1 := f32_dense_kernels; top0 := f32_top |}.

(** * Loop laws *)

Lemma Z_up_ind (P : Z -> Prop) (lo : Z) :
  P lo -> (forall h, lo <= h -> P h -> P (h + 1)) -> forall h, lo <= h -> P h.
Proof.
  intros H0 Hs h Hh. pattern h. apply (Zlt_lower_bound_ind _ lo); [|exact Hh].
  clear h Hh. intros h IH Hh.
  destruct (Z.eq_dec h lo) as [->|Hne]; [exact H0|].
  replace h with (h - 1 + 1) by lia. apply Hs; [lia|]. apply IH. lia.
Qed.


Section LoopLaws.
Context {S : Type}.
Implicit Types (body : Z -> S -> S) (s : S).

Lemma for_loop_last body s (t : nat) (i : Z) :
  for_loop (Datatypes.S t) i body s = body (i + Z.of_nat t) (for_loop t i body s).
Proof.
  revert i s. induction t as [|t IH]; intros i s.
  - simpl. now rewrite Z.add_0_r.
  - change (for_loop (Datatypes.S (Datatypes.S t)) i body s)
      with (for_loop (Datatypes.S t) (i + 1) body (body i s)).
    rewrite IH. simpl for_loop. f_equal. lia.
Qed.

Lemma for_range_nil body s (lo hi : Z) :
  hi <= lo -> for_range lo hi body s = s.
Proof.
  intros H. unfold for_range. now replace (Z.to_nat (hi - lo)) with O by lia.
Qed.

Lemma for_range_last body s (lo hi : Z) :
  lo <= hi -> for_range lo (hi + 1) body s = body hi (for_range lo hi body s).
Proof.
  intros H. unfold for_range.
  replace (Z.to_nat (hi + 1 - lo)) with (Datatypes.S (Z.to_nat (hi - lo))) by lia.
  rewrite for_loop_last. f_equal. lia.
Qed.

Lemma for_range_first body s (lo hi : Z) :
  lo < hi -> for_range lo hi body s = for_range (lo + 1) hi body (body lo s).
Proof.
  intros H. unfold for_range.
  replace (Z.to_nat (hi - lo)) with (Datatypes.S (Z.to_nat (hi - (lo + 1)))) by lia.
  reflexivity.
Qed.

(** Invariant rule of the counted loop. *)
Lemma for_range_ind (P : Z -> S -> Prop) body s (lo hi : Z) :
  lo <= hi ->
  P lo s ->
  (forall i s', lo <= i < hi -> P i s' -> P (i + 1) (body i s')) ->
  P hi (for_range lo hi body s).
Proof.
  intros Hle H0 Hstep.
  assert (Hall : forall h, lo <= h -> h <= hi -> P h (for_range lo h body s)).
  { intros h Hh. pattern h. apply (Zlt_lower_bound_ind _ lo); [|exact Hh].
    clear h Hh. intros h IH Hh Hhi.
    destruct (Z.eq_dec h lo) as [->|Hne].
    - now rewrite for_range_nil by lia.
    - replace h with (h - 1 + 1) by lia.
      rewrite for_range_last by lia.
      apply Hstep; [lia|]. apply IH; lia. }
  apply Hall; lia.
Qed.

Lemma for_range_ext body body' s (lo hi : Z) :
  (forall i s', lo <= i < hi -> body i s' = body' i s') ->
  for_range lo hi body s = for_range lo hi body' s.
Proof.
  intros Hext.
  destruct (Z_le_gt_dec lo hi) as [Hle|Hgt].
  - apply (for_range_ind (fun h r => r = for_range lo h body' s)); [lia| |].
    + now rewrite for_range_nil by lia.
    + intros i s' Hi ->. rewrite for_range_last by lia. apply Hext. lia.
  - now rewrite !for_range_nil by lia.
Qed.

(** The two-iterator loop is the counted loop over the offsets at which both
    iterators are in range; fuel beyond the distance of the kernel iterator
    to its bound is never used. *)
Lemma dual_for_range (body2 : Z -> Z -> S -> S) s (fuel : nat)
    (it_ker it_img ker_end img_end : Z) :
  (Z.to_nat (ker_end - it_ker) <= fuel)%nat ->
  dual_for fuel it_ker it_img ker_end img_end body2 s =
  for_range it_ker (Z.min ker_end (it_ker + (img_end - it_img)))
    (fun i => body2 i (it_img + (i - it_ker))) s.
Proof.
  revert it_ker it_img s. induction fuel as [|fuel IH]; intros k m s Hfuel.
  - simpl. rewrite for_range_nil; [reflexivity|lia].
  - simpl.
    destruct (k <? ker_end) eqn:Hk; destruct (m <? img_end) eqn:Hm; simpl;
      try (rewrite for_range_nil; [reflexivity|lia]).
    rewrite IH by lia.
    rewrite (for_range_first _ s k) by lia.
    replace (m + (k - k)) with m by lia.
    replace (k + 1 + (img_end - (m + 1))) with (k + (img_end - m)) by lia.
    apply for_range_ext. intros i s' Hi. f_equal. lia.
Qed.

Lemma smart_for_range (L : LayerState) (pos dim : Z) (body2 : Z -> Z -> S -> S) s :
  smart_for L pos dim body2 s =
  for_range (Z.max (padding_ L - pos) 0) (Z.min (kernel_ L) (dim + padding_ L - pos))
    (fun i => body2 i (pos - padding_ L + i)) s.
Proof.
  unfold smart_for. cbv zeta.
  rewrite dual_for_range by lia.
  replace (Z.max (padding_ L - pos) 0 +
           (dim - (pos - padding_ L + Z.max (padding_ L - pos) 0)))
    with (dim + padding_ L - pos) by lia.
  apply for_range_ext. intros i s' Hi. f_equal. lia.
Qed.
End LoopLaws.

(** * Buffer laws *)

Section BufferLaws.
Context {Dtype : Type}.
Variable dzero : Dtype.
Implicit Types (b : list Dtype) (v : Dtype).

Lemma length_store b (i : Z) v : length (store b i v) = length b.
Proof. unfold store. destruct (i <? 0); [reflexivity|apply length_insert]. Qed.

Lemma load_store_eq b (i : Z) v :
  0 <= i < Z.of_nat (length b) -> load dzero (store b i v) i = v.
Proof.
  intros Hi. unfold load, store.
  destruct (i <? 0) eqn:Hneg; [lia|].
  rewrite list_lookup_insert_eq by lia. reflexivity.
Qed.

Lemma load_store_ne b (i j : Z) v :
  i <> j -> load dzero (store b i v) j = load dzero b j.
Proof.
  intros Hne. unfold load, store.
  destruct (j <? 0) eqn:Hj; [reflexivity|].
  destruct (i <? 0) eqn:Hi; [reflexivity|].
  rewrite list_lookup_insert_ne by lia. reflexivity.
Qed.

Lemma stores_into_refl (dom : Z -> Prop) R b :
  (forall j, dom j -> R j (load dzero b j)) -> stores_into dzero dom R b b.
Proof. intros H. split; [reflexivity|]. split; [exact H|]. intros j. now left. Qed.

Lemma stores_into_none R b : stores_into dzero (fun _ => False) R b b.
Proof. apply stores_into_refl. intros j []. Qed.

Lemma stores_into_store R b (i : Z) v :
  0 <= i < Z.of_nat (length b) -> R i v ->
  stores_into dzero (fun j => j = i) R b (store b i v).
Proof.
  intros Hi HR. split; [apply length_store|]. split.
  - intros j ->. now rewrite load_store_eq.
  - intros j. destruct (Z.eq_dec i j) as [<-|Hne].
    + right. split; [reflexivity|]. now rewrite load_store_eq.
    + left. now apply load_store_ne.
Qed.

Lemma stores_into_step (dom1 dom2 : Z -> Prop) R b b1 b2 :
  stores_into dzero dom1 R b b1 ->
  stores_into dzero dom2 R b1 b2 ->
  stores_into dzero (fun j => dom1 j \/ dom2 j) R b b2.
Proof.
  intros (Hl1 & Hin1 & Hfr1) (Hl2 & Hin2 & Hfr2).
  split; [congruence|]. split.
  - intros j [Hj|Hj]; [|now apply Hin2].
    destruct (Hfr2 j) as [->|[_ HR]]; [now apply Hin1|exact HR].
  - intros j. destruct (Hfr2 j) as [->|[Hd HR]].
    + destruct (Hfr1 j) as [->|[Hd HR]]; [now left|right; tauto].
    + right; tauto.
Qed.

Lemma stores_into_dom (dom dom' : Z -> Prop) R b b' :
  (forall j, dom j <-> dom' j) ->
  stores_into dzero dom R b b' -> stores_into dzero dom' R b b'.
Proof.
  intros Heq (Hl & Hin & Hfr). split; [exact Hl|]. split.
  - intros j Hj. apply Hin, Heq, Hj.
  - intros j. destruct (Hfr j) as [->|[Hd HR]]; [now left|].
    right. split; [now apply Heq|exact HR].
Qed.

(** A counted loop whose iteration [i] stores into [dom i] stores into the
    union of the [dom i]. *)
Lemma stores_into_for_range (dom : Z -> Z -> Prop) R
    (body : Z -> list Dtype -> list Dtype) b (lo hi : Z) :
  (forall i b', lo <= i < hi -> length b' = length b ->
                stores_into dzero (dom i) R b' (body i b')) ->
  stores_into dzero (fun j => exists i, lo <= i < hi /\ dom i j) R b
    (for_range lo hi body b).
Proof.
  intros Hbody.
  destruct (Z_le_gt_dec lo hi) as [Hle|Hgt].
  2:{ rewrite for_range_nil by lia. apply stores_into_refl.
      intros j (i & Hi & _). lia. }
  apply (for_range_ind
           (fun h r => stores_into dzero
                         (fun j => exists i, lo <= i < h /\ dom i j) R b r));
    [exact Hle| |].
  - apply stores_into_refl. intros j (i & Hi & _). lia.
  - intros i b' Hi Hst.
    eapply stores_into_dom; [|eapply stores_into_step; [exact Hst|]].
    2:{ apply Hbody; [lia|]. apply Hst. }
    intros j. split.
    + intros [(i' & Hi' & Hd)|Hd]; [exists i'|exists i]; (split; [lia|assumption]).
    + intros (i' & Hi' & Hd).
      destruct (Z.eq_dec i' i) as [->|Hne]; [now right|].
      left. exists i'. split; [lia|assumption].
Qed.
End BufferLaws.

(** * Row-major indexing *)

Lemma flat_inj (s a r a' r' : Z) :
  0 <= r < s -> 0 <= r' < s -> a * s + r = a' * s + r' -> a = a' /\ r = r'.
Proof. intros Hr Hr' Heq. assert (a = a') by nia. subst a'. lia. Qed.

Lemma flat_bound (A s a r : Z) :
  0 <= a < A -> 0 <= r < s -> 0 <= a * s + r < A * s.
Proof. intros Ha Hr. nia. Qed.

Lemma index4_inj (C H W n c y x n' c' y' x' : Z) :
  0 <= c < C -> 0 <= c' < C -> 0 <= y < H -> 0 <= y' < H ->
  0 <= x < W -> 0 <= x' < W ->
  n * (C * H * W) + c * (H * W) + y * W + x =
  n' * (C * H * W) + c' * (H * W) + y' * W + x' ->
  n = n' /\ c = c' /\ y = y' /\ x = x'.
Proof.
  intros Hc Hc' Hy Hy' Hx Hx' Heq.
  replace (n * (C * H * W) + c * (H * W) + y * W + x)
    with (((n * C + c) * H + y) * W + x) in Heq by ring.
  replace (n' * (C * H * W) + c' * (H * W) + y' * W + x')
    with (((n' * C + c') * H + y') * W + x') in Heq by ring.
  apply flat_inj in Heq as [Heq ->]; [|lia|lia].
  apply flat_inj in Heq as [Heq ->]; [|lia|lia].
  apply flat_inj in Heq as [-> ->]; [|lia|lia].
  tauto.
Qed.

Lemma index4_bound (N C H W n c y x : Z) :
  0 <= n < N -> 0 <= c < C -> 0 <= y < H -> 0 <= x < W ->
  0 <= n * (C * H * W) + c * (H * W) + y * W + x < N * C * H * W.
Proof.
  intros Hn Hc Hy Hx.
  replace (n * (C * H * W) + c * (H * W) + y * W + x)
    with (((n * C + c) * H + y) * W + x) by ring.
  apply flat_bound; [|lia]. apply flat_bound; [|lia]. apply flat_bound; lia.
Qed.

Section ShapeFacts.
Context {Dtype : Type}.
Implicit Types b : Blob Dtype.

Lemma count_4 b (N C H W : Z) :
  shape_ b = [N; C; H; W] ->
  count b 0 = N * C * H * W /\ count b 1 = C * H * W /\ count b 2 = H * W.
Proof. intros E. unfold count. rewrite E. simpl. lia. Qed.

Lemma offset_4 b (N C H W n c h w : Z) :
  shape_ b = [N; C; H; W] ->
  offset b n c h w = n * (C * H * W) + c * (H * W) + h * W + w.
Proof. intros E. unfold offset. rewrite E. simpl. ring. Qed.
End ShapeFacts.

(** * Exact arithmetic: sums over a commutative ring *)

Section Exact.
Context {Dtype : Type}.
Variables (dzero done : Dtype) (dadd dmul dsub : Dtype -> Dtype -> Dtype)
          (dopp : Dtype -> Dtype).
Hypothesis Dtype_ring : ring_theory dzero done dadd dmul dsub dopp eq.
Add Ring DtypeRing : Dtype_ring.

Local Infix "⊕" := dadd (at level 50, left associativity).
Local Infix "⊗" := dmul (at level 40, left associativity).
Local Abbreviation Σ := (dsum dzero dadd).

Lemma dsum_nil (lo hi : Z) f : hi <= lo -> Σ lo hi f = dzero.
Proof. intros H. unfold dsum. now rewrite for_range_nil. Qed.

Lemma dsum_last (lo hi : Z) f : lo <= hi -> Σ lo (hi + 1) f = Σ lo hi f ⊕ f hi.
Proof. intros H. unfold dsum. now rewrite for_range_last. Qed.

(** Induction over the upper bound of a sum. *)
Lemma dsum_ind (P : Z -> Dtype -> Prop) (lo hi : Z) f :
  lo <= hi ->
  P lo dzero ->
  (forall h r, lo <= h < hi -> P h r -> P (h + 1) (r ⊕ f h)) ->
  P hi (Σ lo hi f).
Proof. intros Hle H0 Hs. unfold dsum. now apply for_range_ind. Qed.

Lemma dsum_ext (lo hi : Z) f g :
  (forall i, lo <= i < hi -> f i = g i) -> Σ lo hi f = Σ lo hi g.
Proof.
  intros H. unfold dsum. apply for_range_ext. intros i s Hi. now rewrite H.
Qed.

(** An accumulating loop [v += f i] adds the sum to the initial value. *)
Lemma accumulate (lo hi : Z) f (v0 : Dtype) :
  for_range lo hi (fun i v => v ⊕ f i) v0 = v0 ⊕ Σ lo hi f.
Proof.
  destruct (Z_le_gt_dec lo hi) as [Hle|Hgt].
  - apply (for_range_ind (fun h r => r = v0 ⊕ Σ lo h f)); [exact Hle| |].
    + rewrite dsum_nil by lia. ring.
    + intros i s Hi ->. rewrite dsum_last by lia. ring.
  - rewrite for_range_nil, dsum_nil by lia. ring.
Qed.

Lemma dsum_zero (lo hi : Z) f :
  (forall i, lo <= i < hi -> f i = dzero) -> Σ lo hi f = dzero.
Proof.
  intros H. destruct (Z_le_gt_dec lo hi) as [Hle|Hgt]; [|apply dsum_nil; lia].
  apply (dsum_ind (fun _ r => r = dzero)); [exact Hle|reflexivity|].
  intros h r Hh ->. rewrite H by lia. ring.
Qed.

Lemma dsum_add (lo hi : Z) f g :
  Σ lo hi (fun i => f i ⊕ g i) = Σ lo hi f ⊕ Σ lo hi g.
Proof.
  destruct (Z_le_gt_dec lo hi) as [Hle|Hgt].
  - apply (dsum_ind (fun h r => r = Σ lo h f ⊕ Σ lo h g)); [exact Hle| |].
    + rewrite !dsum_nil by lia. ring.
    + intros h r Hh ->. rewrite !dsum_last by lia. ring.
  - rewrite !dsum_nil by lia. ring.
Qed.

Lemma dsum_mul_r (lo hi : Z) f (k : Dtype) :
  Σ lo hi (fun i => f i ⊗ k) = Σ lo hi f ⊗ k.
Proof.
  destruct (Z_le_gt_dec lo hi) as [Hle|Hgt].
  - apply (dsum_ind (fun h r => r = Σ lo h f ⊗ k)); [exact Hle| |].
    + rewrite !dsum_nil by lia. ring.
    + intros h r Hh ->. rewrite !dsum_last by lia. ring.
  - rewrite !dsum_nil by lia. ring.
Qed.

Lemma dsum_mul_l (lo hi : Z) f (k : Dtype) :
  Σ lo hi (fun i => k ⊗ f i) = k ⊗ Σ lo hi f.
Proof.
  rewrite (dsum_ext lo hi _ (fun i => f i ⊗ k)) by (intros; ring).
  rewrite dsum_mul_r. ring.
Qed.

Lemma dsum_split (lo mid hi : Z) f :
  lo <= mid <= hi -> Σ lo hi f = Σ lo mid f ⊕ Σ mid hi f.
Proof.
  intros [H1 H2]. revert hi H2. apply Z_up_ind.
  - rewrite (dsum_nil mid) by lia. ring.
  - intros h Hh IH. rewrite !dsum_last by lia. rewrite IH. ring.
Qed.

Lemma dsum_first (lo hi : Z) f : lo < hi -> Σ lo hi f = f lo ⊕ Σ (lo + 1) hi f.
Proof.
  intros H. rewrite (dsum_split lo (lo + 1) hi) by lia.
  rewrite dsum_last, dsum_nil by lia. ring.
Qed.

Lemma dsum_swap (lo hi lo' hi' : Z) (f : Z -> Z -> Dtype) :
  Σ lo hi (fun i => Σ lo' hi' (fun j => f i j)) =
  Σ lo' hi' (fun j => Σ lo hi (fun i => f i j)).
Proof.
  destruct (Z_le_gt_dec lo hi) as [Hle|Hgt].
  - revert hi Hle. apply Z_up_ind.
    + rewrite dsum_nil by lia. symmetry. apply dsum_zero.
      intros j _. apply dsum_nil. lia.
    + intros h Hh IH. rewrite dsum_last by lia. rewrite IH.
      rewrite <- dsum_add. apply dsum_ext. intros j _.
      now rewrite dsum_last by lia.
  - rewrite dsum_nil by lia. symmetry. apply dsum_zero.
    intros j _. apply dsum_nil. lia.
Qed.

(** A sum with a single non-zero term. *)
Lemma dsum_pick (lo hi k : Z) f :
  lo <= k < hi ->
  (forall i, lo <= i < hi -> i <> k -> f i = dzero) ->
  Σ lo hi f = f k.
Proof.
  intros Hk Hz.
  rewrite (dsum_split lo k hi) by lia.
  rewrite (dsum_first k hi) by lia.
  rewrite (dsum_zero lo k) by (intros; apply Hz; lia).
  rewrite (dsum_zero (k + 1) hi) by (intros; apply Hz; lia).
  ring.
Qed.

(** Skipping a term is adding zero. *)
Lemma dsum_if_guard (lo hi : Z) (p : Z -> bool) f :
  dsum_if dzero dadd lo hi p f = Σ lo hi (fun i => if p i then f i else dzero).
Proof.
  unfold dsum_if, dsum. apply for_range_ext. intros i s _.
  destruct (p i); [reflexivity|ring].
Qed.

(** The zero-padded sum over all [K] offsets is the sum over the clamped
    range of the smart loop. *)
Lemma dsum_window (L : LayerState) (pos dim : Z) f :
  Σ 0 (kernel_ L) (fun i => if in_bounds L pos dim i then f i else dzero) =
  Σ (Z.max (padding_ L - pos) 0) (Z.min (kernel_ L) (dim + padding_ L - pos)) f.
Proof.
  set (lo := Z.max (padding_ L - pos) 0).
  set (hi := Z.min (kernel_ L) (dim + padding_ L - pos)).
  destruct (Z_lt_ge_dec lo hi) as [Hlt|Hge].
  - rewrite (dsum_split 0 lo (kernel_ L)) by lia.
    rewrite (dsum_split lo hi (kernel_ L)) by lia.
    rewrite (dsum_zero 0 lo).
    2:{ intros i Hi. unfold in_bounds.
        destruct (0 <=? pos - padding_ L + i) eqn:E; [lia|reflexivity]. }
    rewrite (dsum_zero hi (kernel_ L)).
    2:{ intros i Hi. unfold in_bounds.
        destruct (pos - padding_ L + i <? dim) eqn:E; [lia|].
        now rewrite andb_false_r. }
    rewrite (dsum_ext lo hi _ f).
    2:{ intros i Hi. unfold in_bounds.
        destruct (0 <=? pos - padding_ L + i) eqn:E1; [|lia].
        destruct (pos - padding_ L + i <? dim) eqn:E2; [reflexivity|lia]. }
    ring.
  - rewrite (dsum_nil lo hi) by lia. apply dsum_zero.
    intros i Hi. unfold in_bounds.
    destruct (0 <=? pos - padding_ L + i) eqn:E1; [|reflexivity].
    destruct (pos - padding_ L + i <? dim) eqn:E2; [lia|reflexivity].
Qed.
Lemma window_range (L : LayerState) (pos dim i : Z) :
  lo_ L pos <= i < hi_ L pos dim <->
  0 <= i < kernel_ L /\ in_bounds L pos dim i = true.
Proof.
  unfold in_bounds.
  destruct (0 <=? pos - padding_ L + i) eqn:E1;
    destruct (pos - padding_ L + i <? dim) eqn:E2; simpl; split;
    intros H; try lia; try (destruct H as [_ H]; discriminate H).
Qed.

(** ** The loop nest of the forward passes *)

Local Abbreviation ld := (load dzero).

Lemma forward_rows (L : LayerState) pixel (out : list Dtype) (n c : Z) :
  let PI := channels_ L * height_ L * width_ L in
  let PC := height_ L * width_ L in
  0 <= height_ L -> 0 <= width_ L ->
  0 <= n < batch_num_ L -> 0 <= c < channels_ L ->
  batch_num_ L * channels_ L * height_ L * width_ L <= Z.of_nat (length out) ->
  let st :=
    for_range 0 (height_ L) (fun y st =>
      for_range 0 (width_ L) (fun x st =>
        let pix_offset := fst st in
        let v := pixel n (n * PI + c * PC) pix_offset y x in
        (pix_offset + 1, store (snd st) (n * PI + c * PC + pix_offset) v)) st)
      (0, out) in
  stores_into dzero
    (fun j => exists y x, (0 <= y < height_ L /\ 0 <= x < width_ L) /\
                          j = n * PI + c * PC + y * width_ L + x)
    (nest_value L PI PC pixel) out (snd st).
Proof.
  intros PI PC HH HW Hn Hc Hlen st. subst st.
  set (dom := fun (y x : Z) (j : Z) => j = n * PI + c * PC + y * width_ L + x).
  match goal with |- context [for_range 0 (height_ L) ?f ?s] =>
    enough (Hinv :
      fst (for_range 0 (height_ L) f s) = height_ L * width_ L /\
      stores_into dzero
        (fun j => exists y, 0 <= y < height_ L /\
                   exists x, 0 <= x < width_ L /\ dom y x j)
        (nest_value L PI PC pixel) out (snd (for_range 0 (height_ L) f s)))
  end.
  { destruct Hinv as [_ Hst]. eapply stores_into_dom; [|exact Hst].
    intros j. unfold dom. split.
    - intros (y & Hy & x & Hx & E). exists y, x. tauto.
    - intros (y & x & [Hy Hx] & E). exists y. split; [exact Hy|]. exists x. tauto. }
  apply (for_range_ind
           (fun h st => fst st = h * width_ L /\
              stores_into dzero
                (fun j => exists y, 0 <= y < h /\
                           exists x, 0 <= x < width_ L /\ dom y x j)
                (nest_value L PI PC pixel) out (snd st))); [exact HH| |].
  - simpl. split; [reflexivity|].
    apply stores_into_refl. intros j (y & Hy & _). lia.
  - intros y st Hy [Hpix Hst]. cbv zeta.
    match goal with |- context [for_range 0 (width_ L) ?f ?s] =>
      enough (Hrow :
        fst (for_range 0 (width_ L) f s) = y * width_ L + width_ L /\
        stores_into dzero (fun j => exists x, 0 <= x < width_ L /\ dom y x j)
          (nest_value L PI PC pixel) (snd st) (snd (for_range 0 (width_ L) f s)))
    end.
    { destruct Hrow as [Hf Hrow]. split; [rewrite Hf; ring|].
      eapply stores_into_dom; [|eapply stores_into_step; [exact Hst|exact Hrow]].
      intros j. split.
      - intros [(y' & Hy' & Hd)|Hd]; [exists y'|exists y]; (split; [lia|exact Hd]).
      - intros (y' & Hy' & Hd).
        destruct (Z.eq_dec y' y) as [->|Hne]; [now right|].
        left. exists y'. split; [lia|exact Hd]. }
    apply (for_range_ind
             (fun w st' => fst st' = y * width_ L + w /\
                stores_into dzero (fun j => exists x, 0 <= x < w /\ dom y x j)
                  (nest_value L PI PC pixel) (snd st) (snd st'))); [exact HW| |].
    + split; [lia|]. apply stores_into_refl. intros j (x & Hx & _). lia.
    + intros x st' Hx [Hf Hst']. simpl fst. simpl snd. split; [lia|].
      eapply stores_into_dom; [|eapply stores_into_step; [exact Hst'|]].
      2:{ apply (stores_into_store dzero (nest_value L PI PC pixel)).
          - destruct Hst' as [Hl' _]. destruct Hst as [Hl _].
            rewrite Hl', Hl, Hf.
            pose proof (index4_bound (batch_num_ L) (channels_ L) (height_ L)
                          (width_ L) n c y x Hn Hc Hy Hx) as Hb.
            subst PI PC. lia.
          - intros n' c' y' x' (Hn' & Hc' & Hy' & Hx') E. rewrite Hf in E |- *.
            assert (n = n' /\ c = c' /\ y = y' /\ x = x') as (-> & -> & -> & ->).
            { apply (index4_inj (channels_ L) (height_ L) (width_ L));
                lia. }
            reflexivity. }
      intros j. unfold dom. rewrite Hf. split.
      * intros [(x' & Hx' & Hd)|Hd]; [exists x'|exists x]; (split; lia).
      * intros (x' & Hx' & Hd).
        destruct (Z.eq_dec x' x) as [->|Hne]; [right; lia|].
        left. exists x'. split; lia.
Qed.

Lemma forward_nest_stores (L : LayerState) pixel (out : list Dtype) :
  let PI := channels_ L * height_ L * width_ L in
  let PC := height_ L * width_ L in
  0 <= batch_num_ L -> 0 <= channels_ L -> 0 <= height_ L -> 0 <= width_ L ->
  batch_num_ L * channels_ L * height_ L * width_ L <= Z.of_nat (length out) ->
  stores_into dzero
    (fun j => exists n c y x, in_image L n c y x /\
                j = n * PI + c * PC + y * width_ L + x)
    (nest_value L PI PC pixel) out (forward_nest L PI PC pixel out).
Proof.
  intros PI PC HN HC HH HW Hlen. unfold forward_nest.
  eapply stores_into_dom;
    [|apply (stores_into_for_range dzero
               (fun n j => exists c, 0 <= c < channels_ L /\
                  exists y x, (0 <= y < height_ L /\ 0 <= x < width_ L) /\
                    j = n * PI + c * PC + y * width_ L + x))].
  - intros j. unfold in_image. split.
    + intros (n & Hn & c & Hc & y & x & Hyx & E). exists n, c, y, x. tauto.
    + intros (n & c & y & x & (Hn & Hc & Hyx) & E).
      exists n. split; [exact Hn|]. exists c. split; [exact Hc|].
      exists y, x. tauto.
  - intros n b' Hn Hb'.
    apply (stores_into_for_range dzero
             (fun c j => exists y x, (0 <= y < height_ L /\ 0 <= x < width_ L) /\
                j = n * PI + c * PC + y * width_ L + x)).
    intros c b'' Hc Hb''. cbv zeta.
    apply (forward_rows L pixel b'' n c); try assumption. lia.
Qed.

Lemma forward_nest_value (L : LayerState) pixel (out : list Dtype) (n c y x : Z) :
  let PI := channels_ L * height_ L * width_ L in
  let PC := height_ L * width_ L in
  0 <= batch_num_ L -> 0 <= channels_ L -> 0 <= height_ L -> 0 <= width_ L ->
  batch_num_ L * channels_ L * height_ L * width_ L <= Z.of_nat (length out) ->
  in_image L n c y x ->
  ld (forward_nest L PI PC pixel out) (n * PI + c * PC + y * width_ L + x) =
  pixel n (n * PI + c * PC) (y * width_ L + x) y x.
Proof.
  intros PI PC HN HC HH HW Hlen Hin.
  destruct (forward_nest_stores L pixel out HN HC HH HW Hlen) as (_ & Hval & _).
  apply (Hval _ (ex_intro _ n (ex_intro _ c (ex_intro _ y (ex_intro _ x
           (conj Hin eq_refl))))) n c y x Hin eq_refl).
Qed.

(** ** Closed forms of the per-pixel accumulations *)


Lemma CPP_pixel_sum (L : LayerState) (img ker : list Dtype)
    (KB PK n io pix y x : Z) :
  CPP_pixel dzero dadd dmul L img ker KB PK n io pix y x =
  Σ (lo_ L y) (hi_ L y (height_ L)) (fun i =>
    Σ (lo_ L x) (hi_ L x (width_ L)) (fun j =>
      ld img (io + (y - padding_ L + i) * width_ L + (x - padding_ L + j)) ⊗
      ld ker (n * KB + (i * kernel_ L + j) * PK + pix))).
Proof.
  unfold CPP_pixel. rewrite smart_for_range.
  erewrite for_range_ext.
  2:{ intros i v _. rewrite smart_for_range. rewrite accumulate. reflexivity. }
  rewrite accumulate. ring.
Qed.

Lemma SepCPP_pixel_sum (L : LayerState) (img ker : list Dtype)
    (KB PK n io pix y x : Z) :
  SepCPP_pixel dzero dadd dmul L img ker KB PK n io pix y x =
  Σ (lo_ L y) (hi_ L y (height_ L)) (fun i =>
    Σ (lo_ L x) (hi_ L x (width_ L)) (fun j =>
      ld img (io + (y - padding_ L + i) * width_ L + (x - padding_ L + j)) ⊗
      ld ker (n * KB + j * PK + pix)) ⊗
    ld ker (n * KB + (kernel_ L + i) * PK + pix)).
Proof.
  unfold SepCPP_pixel. rewrite smart_for_range.
  erewrite for_range_ext.
  2:{ intros i v _. rewrite smart_for_range. rewrite accumulate.
      rewrite (Radd_0_l Dtype_ring). reflexivity. }
  rewrite accumulate. ring.
Qed.

Lemma dsum_window2 (L : LayerState) (y x : Z) (f : Z -> Z -> Dtype) :
  Σ (lo_ L y) (hi_ L y (height_ L)) (fun i =>
    Σ (lo_ L x) (hi_ L x (width_ L)) (fun j => f i j)) =
  Σ 0 (kernel_ L) (fun i => Σ 0 (kernel_ L) (fun j =>
    if in_bounds L y (height_ L) i && in_bounds L x (width_ L) j
    then f i j else dzero)).
Proof.
  rewrite <- dsum_window. apply dsum_ext. intros i _.
  destruct (in_bounds L y (height_ L) i); simpl.
  - now rewrite <- dsum_window.
  - symmetry. apply dsum_zero. reflexivity.
Qed.

Lemma dsum_if_window2 (L : LayerState) (y x : Z) (f : Z -> Z -> Dtype) :
  dsum_if dzero dadd 0 (kernel_ L) (in_bounds L y (height_ L)) (fun i =>
    dsum_if dzero dadd 0 (kernel_ L) (in_bounds L x (width_ L)) (fun j => f i j)) =
  Σ (lo_ L y) (hi_ L y (height_ L)) (fun i =>
    Σ (lo_ L x) (hi_ L x (width_ L)) (fun j => f i j)).
Proof.
  rewrite dsum_if_guard, <- dsum_window. apply dsum_ext. intros i _.
  destruct (in_bounds L y (height_ L) i); [|reflexivity].
  now rewrite dsum_if_guard, <- dsum_window.
Qed.

(** ** Dense forward pass *)

Lemma CPP_forward_data (L : LayerState) (io : Blobs Dtype) (n c y x : Z) :
  dense_shaped L io -> in_image L n c y x ->
  data_at dzero (top0 (CPPLayer_Forward_cpu dzero dadd dmul L io)) n c y x =
  CPP_pixel dzero dadd dmul L (data_ (bottom0 io)) (data_ (bottom1 io))
    (count (bottom1 io) 1) (count (bottom1 io) 2) n
    (n * count (bottom0 io) 1 + c * count (bottom0 io) 2)
    (y * width_ L + x) y x.
Proof.
  intros [(Hs0 & Hst & HN & HC & HH & HW & _ & _ & _ & _ & Ht) Hs1] Hin.
  rewrite Hs0 in Hst.
  destruct (count_4 (bottom0 io) _ _ _ _ Hs0) as (Hc0 & Hc1 & Hc2).
  destruct (count_4 (top0 io) _ _ _ _ Hst) as (Hct & _).
  unfold data_at, CPPLayer_Forward_cpu. cbn [top0 data_].
  erewrite offset_4 by exact Hst.
  rewrite Hc1, Hc2.
  apply (forward_nest_value L); try assumption.
  destruct Ht as [Ht _]. lia.
Qed.

Lemma CPP_pixel_terms (L : LayerState) (io : Blobs Dtype) (n c y x : Z) :
  dense_shaped L io ->
  CPP_pixel dzero dadd dmul L (data_ (bottom0 io)) (data_ (bottom1 io))
    (count (bottom1 io) 1) (count (bottom1 io) 2) n
    (n * count (bottom0 io) 1 + c * count (bottom0 io) 2)
    (y * width_ L + x) y x =
  Σ (lo_ L y) (hi_ L y (height_ L)) (fun i =>
    Σ (lo_ L x) (hi_ L x (width_ L)) (fun j =>
      data_at dzero (bottom0 io) n c (y - padding_ L + i) (x - padding_ L + j) ⊗
      data_at dzero (bottom1 io) n (i * kernel_ L + j) y x)).
Proof.
  intros [(Hs0 & _) Hs1].
  rewrite CPP_pixel_sum. apply dsum_ext. intros i _. apply dsum_ext. intros j _.
  unfold data_at.
  rewrite (offset_4 _ _ _ _ _ _ _ _ _ Hs0), (offset_4 _ _ _ _ _ _ _ _ _ Hs1).
  destruct (count_4 _ _ _ _ _ Hs0) as (_ & -> & ->).
  destruct (count_4 _ _ _ _ _ Hs1) as (_ & -> & ->).
  f_equal; f_equal; ring.
Qed.

(** C2.  For a well-shaped input of the dense layer and every output
    coordinate (n, c, y, x), the value stored by [CPPLayer::Forward_cpu] is
    the sum of [img[n,c,y-P+i,x-P+j] * ker[n,i*K+j,y,x]] over the offsets
    (i, j) of [0,K) x [0,K) whose image coordinate is in bounds; it is the
    value accumulated by the clamped-start, dual-bound loops; and that value
    equals the full K x K sum in which out-of-bounds terms are zero. *)
Theorem CPP_forward_zero_padding (L : LayerState) (io : Blobs Dtype) (n c y x : Z) :
  dense_shaped L io -> in_image L n c y x ->
  let out := top0 (CPPLayer_Forward_cpu dzero dadd dmul L io) in
  let term := fun i j =>
    data_at dzero (bottom0 io) n c (y - padding_ L + i) (x - padding_ L + j) ⊗
    data_at dzero (bottom1 io) n (i * kernel_ L + j) y x in
  let loops :=
    CPP_pixel dzero dadd dmul L (data_ (bottom0 io)) (data_ (bottom1 io))
      (count (bottom1 io) 1) (count (bottom1 io) 2) n
      (n * count (bottom0 io) 1 + c * count (bottom0 io) 2)
      (y * width_ L + x) y x in
  data_at dzero out n c y x =
    dsum_if dzero dadd 0 (kernel_ L) (in_bounds L y (height_ L)) (fun i =>
      dsum_if dzero dadd 0 (kernel_ L) (in_bounds L x (width_ L)) (fun j =>
        term i j)) /\
  data_at dzero out n c y x = loops /\
  loops =
    Σ 0 (kernel_ L) (fun i => Σ 0 (kernel_ L) (fun j =>
      if in_bounds L y (height_ L) i && in_bounds L x (width_ L) j
      then term i j else dzero)).
Proof.
  intros Hsh Hin out term loops. subst out term loops.
  rewrite CPP_forward_data by assumption.
  rewrite CPP_pixel_terms by assumption.
  split; [|split].
  - now rewrite dsum_if_window2.
  - reflexivity.
  - apply dsum_window2.
Qed.

(** C6.  With K = 1 (hence P = 0) the dense forward pass is a pointwise
    scale, [out[n,c,y,x] = img[n,c,y,x] * ker[n,0,y,x]]; when every kernel
    weight is the constant one, the output equals the image. *)
Theorem CPP_forward_K1_pointwise (L : LayerState) (io : Blobs Dtype) :
  dense_shaped L io -> kernel_ L = 1 ->
  let out := top0 (CPPLayer_Forward_cpu dzero dadd dmul L io) in
  padding_ L = 0 /\
  (forall n c y x, in_image L n c y x ->
     data_at dzero out n c y x =
     data_at dzero (bottom0 io) n c y x ⊗ data_at dzero (bottom1 io) n 0 y x) /\
  ((forall n y x, 0 <= n < batch_num_ L -> 0 <= y < height_ L ->
                  0 <= x < width_ L ->
                  data_at dzero (bottom1 io) n 0 y x = done) ->
   forall n c y x, in_image L n c y x ->
     data_at dzero out n c y x = data_at dzero (bottom0 io) n c y x).
Proof.
  intros Hsh HK out. subst out.
  assert (HP : padding_ L = 0).
  { destruct Hsh as [(_ & _ & _ & _ & _ & _ & _ & HP & _) _].
    rewrite HP, HK. reflexivity. }
  assert (Hpt : forall n c y x, in_image L n c y x ->
     data_at dzero (top0 (CPPLayer_Forward_cpu dzero dadd dmul L io)) n c y x =
     data_at dzero (bottom0 io) n c y x ⊗ data_at dzero (bottom1 io) n 0 y x).
  { intros n c y x Hin.
    rewrite CPP_forward_data by assumption.
    rewrite CPP_pixel_terms by assumption.
    destruct Hin as (_ & _ & Hy & Hx).
    rewrite HP, HK.
    replace (Z.max (0 - y) 0) with 0 by lia.
    replace (Z.max (0 - x) 0) with 0 by lia.
    replace (Z.min 1 (height_ L + 0 - y)) with (0 + 1) by lia.
    replace (Z.min 1 (width_ L + 0 - x)) with (0 + 1) by lia.
    rewrite dsum_last, dsum_nil by lia.
    rewrite dsum_last, dsum_nil by lia.
    replace (y - 0 + 0) with y by lia. replace (x - 0 + 0) with x by lia.
    replace (0 * 1 + 0) with 0 by lia. ring. }
  split; [exact HP|]. split; [exact Hpt|].
  intros Hone n c y x Hin. rewrite Hpt by assumption.
  destruct Hin as (Hn & _ & Hy & Hx). rewrite Hone by assumption. ring.
Qed.

(** ** Separable forward pass *)

Lemma SepCPP_forward_data (L : LayerState) (io : Blobs Dtype) (n c y x : Z) :
  sep_shaped L io -> in_image L n c y x ->
  data_at dzero (top0 (SepCPPLayer_Forward_cpu dzero dadd dmul L io)) n c y x =
  Σ (lo_ L y) (hi_ L y (height_ L)) (fun i =>
    Σ (lo_ L x) (hi_ L x (width_ L)) (fun j =>
      data_at dzero (bottom0 io) n c (y - padding_ L + i) (x - padding_ L + j) ⊗
      data_at dzero (bottom1 io) n j y x) ⊗
    data_at dzero (bottom1 io) n (kernel_ L + i) y x).
Proof.
  intros [(Hs0 & Hst & HN & HC & HH & HW & _ & _ & _ & _ & Ht) Hs1] Hin.
  rewrite Hs0 in Hst.
  destruct (count_4 (bottom0 io) _ _ _ _ Hs0) as (Hc0 & Hc1 & Hc2).
  destruct (count_4 (bottom1 io) _ _ _ _ Hs1) as (_ & Hk1 & Hk2).
  destruct (count_4 (top0 io) _ _ _ _ Hst) as (Hct & _).
  unfold data_at at 1. unfold SepCPPLayer_Forward_cpu. cbn [top0 data_].
  erewrite offset_4 by exact Hst.
  rewrite Hc1, Hc2.
  rewrite (forward_nest_value L); try assumption; [|destruct Ht as [Ht _]; lia].
  rewrite SepCPP_pixel_sum. apply dsum_ext. intros i _.
  unfold data_at.
  rewrite (offset_4 _ _ _ _ _ _ _ _ _ Hs1). rewrite Hk1, Hk2.
  f_equal; [|f_equal; ring].
  apply dsum_ext. intros j _.
  rewrite (offset_4 _ _ _ _ _ _ _ _ _ Hs0), (offset_4 _ _ _ _ _ _ _ _ _ Hs1).
  f_equal; f_equal; ring.
Qed.

(** The outer-product expansion applied to a pixel sum: the row sums weighted
    by the vertical weights are the double sum with the product weights. *)
Lemma outer_product_sum (lo hi lo' hi' : Z) (a d : Z -> Z -> Dtype) (h v : Z -> Dtype) :
  (forall i j, lo <= i < hi -> lo' <= j < hi' -> d i j = h j ⊗ v i) ->
  Σ lo hi (fun i => Σ lo' hi' (fun j => a i j ⊗ h j) ⊗ v i) =
  Σ lo hi (fun i => Σ lo' hi' (fun j => a i j ⊗ d i j)).
Proof.
  intros Hd. apply dsum_ext. intros i Hi. rewrite <- dsum_mul_r.
  apply dsum_ext. intros j Hj. rewrite Hd by assumption. ring.
Qed.

(** C1.  Let a separable kernel blob [N,2K,H,W] and a dense kernel blob
    [N,K*K,H,W] be related by
    [K_dense[n,i*K+j,y,x] = K_horiz[n,j,y,x] * K_vert[n,i,y,x]], where
    K_horiz is channels [0,K) and K_vert channels [K,2K) of the separable
    blob.  Then on the same image [SepCPPLayer::Forward_cpu] and
    [CPPLayer::Forward_cpu] produce the same output, element by element
    (exact arithmetic).  At [Dtype = float] the operations round, and the two
    outputs can differ by more than the tolerance 1e-3 of the forward test. *)
Theorem SepCPP_forward_equals_dense (L : LayerState) (io_sep io_dense : Blobs Dtype) :
  sep_shaped L io_sep -> dense_shaped L io_dense ->
  data_ (bottom0 io_dense) = data_ (bottom0 io_sep) ->
  (forall n i j y x,
     0 <= n < batch_num_ L -> 0 <= i < kernel_ L -> 0 <= j < kernel_ L ->
     0 <= y < height_ L -> 0 <= x < width_ L ->
     data_at dzero (bottom1 io_dense) n (i * kernel_ L + j) y x =
     data_at dzero (bottom1 io_sep) n j y x ⊗
     data_at dzero (bottom1 io_sep) n (kernel_ L + i) y x) ->
  forall n c y x, in_image L n c y x ->
    data_at dzero (top0 (SepCPPLayer_Forward_cpu dzero dadd dmul L io_sep)) n c y x =
    data_at dzero (top0 (CPPLayer_Forward_cpu dzero dadd dmul L io_dense)) n c y x.
Proof.
  intros Hsep Hden Himg Hker n c y x Hin.
  rewrite SepCPP_forward_data by assumption.
  rewrite CPP_forward_data by assumption.
  rewrite CPP_pixel_terms by assumption.
  assert (Hs0 : shape_ (bottom0 io_dense) = shape_ (bottom0 io_sep)).
  { destruct Hsep as [(-> & _) _]. now destruct Hden as [(-> & _) _]. }
  destruct Hin as (Hn & Hc & Hy & Hx).
  rewrite (outer_product_sum _ _ _ _ _
             (fun i j => data_at dzero (bottom1 io_dense) n (i * kernel_ L + j) y x)).
  - apply dsum_ext. intros i _. apply dsum_ext. intros j _.
    unfold data_at, offset. now rewrite Himg, Hs0.
  - intros i j Hi Hj. apply window_range in Hi as [Hi _].
    apply window_range in Hj as [Hj _]. now apply Hker.
Qed.

(** ** Dense backward pass *)


Lemma channel_dot_sum (L : LayerState) (src img : list Dtype)
    (PI PC n y x i_img j_img : Z) :
  channel_dot dzero dadd dmul L src img PI PC n y x i_img j_img =
  Σ 0 (channels_ L) (fun c =>
    ld src (n * PI + c * PC + y * width_ L + x) ⊗
    ld img (n * PI + c * PC + i_img * width_ L + j_img)).
Proof. unfold channel_dot. rewrite accumulate. ring. Qed.

Lemma kernel_index_inj (L : LayerState) (B n ch y x n' ch' y' x' : Z) :
  0 <= ch < B -> 0 <= ch' < B ->
  0 <= y < height_ L -> 0 <= y' < height_ L ->
  0 <= x < width_ L -> 0 <= x' < width_ L ->
  n * (B * height_ L * width_ L) + ch * (height_ L * width_ L) + y * width_ L + x =
  n' * (B * height_ L * width_ L) + ch' * (height_ L * width_ L) + y' * width_ L + x' ->
  n = n' /\ ch = ch' /\ y = y' /\ x = x'.
Proof. intros. eapply index4_inj; eassumption. Qed.

Lemma CPP_backward_stores (L : LayerState) (pd : list bool) (io : Blobs Dtype) :
  dense_shaped L io ->
  stores_into dzero (dense_assigned L)
    (dense_assigns dzero dadd dmul L (diff_ (top0 io)) (data_ (bottom0 io)))
    (diff_ (bottom1 io))
    (diff_ (bottom1 (CPPLayer_Backward_cpu dzero dadd dmul L pd io))).
Proof.
  intros [(Hs0 & Hst & HN & HC & HH & HW & Hodd & HP & _ & Ha1 & _) Hs1].
  destruct (count_4 (bottom0 io) _ _ _ _ Hs0) as (_ & Hc1 & Hc2).
  destruct (count_4 (bottom1 io) _ _ _ _ Hs1) as (Hk0 & Hk1 & _).
  destruct Ha1 as [_ Hlen]. rewrite Hk0 in Hlen.
  unfold CPPLayer_Backward_cpu. cbn [bottom1 diff_].
  rewrite Hc1, Hc2, Hk1.
  unfold dense_assigned.
  apply stores_into_for_range. intros n b1 Hn Hb1.
  apply stores_into_for_range. intros y b2 Hy Hb2.
  apply stores_into_for_range. intros x b3 Hx Hb3.
  rewrite smart_for_range.
  apply stores_into_for_range. intros i b4 Hi Hb4.
  rewrite smart_for_range.
  apply stores_into_for_range. intros j b5 Hj Hb5.
  apply window_range in Hi as [Hi _]. apply window_range in Hj as [Hj _].
  assert (Hch : 0 <= i * kernel_ L + j < kernel_ L * kernel_ L)
    by (apply flat_bound; lia).
  apply (stores_into_store dzero).
  - pose proof (index4_bound (batch_num_ L) (kernel_ L * kernel_ L) (height_ L)
                  (width_ L) n (i * kernel_ L + j) y x Hn Hch Hy Hx) as Hb.
    rewrite Hb5, Hb4, Hb3, Hb2, Hb1. lia.
  - intros n' y' x' i' j' Hn' Hy' Hx' Hi' Hj' E.
    assert (Hch' : 0 <= i' * kernel_ L + j' < kernel_ L * kernel_ L)
      by (apply flat_bound; lia).
    apply (kernel_index_inj L (kernel_ L * kernel_ L)) in E
      as (-> & E & -> & ->); try lia.
    apply flat_inj in E as [-> ->]; [reflexivity|lia|lia].
Qed.

(** ** Perturbing one output pixel column of the pairing *)

Lemma dsum_add2 (lo hi lo' hi' : Z) (f g : Z -> Z -> Dtype) :
  Σ lo hi (fun a => Σ lo' hi' (fun b => f a b ⊕ g a b)) =
  Σ lo hi (fun a => Σ lo' hi' (fun b => f a b)) ⊕
  Σ lo hi (fun a => Σ lo' hi' (fun b => g a b)).
Proof.
  rewrite <- dsum_add. apply dsum_ext. intros a _. apply dsum_add.
Qed.

Lemma dsum_zero2 (lo hi lo' hi' : Z) (f : Z -> Z -> Dtype) :
  (forall a b, lo <= a < hi -> lo' <= b < hi' -> f a b = dzero) ->
  Σ lo hi (fun a => Σ lo' hi' (fun b => f a b)) = dzero.
Proof.
  intros H. apply dsum_zero. intros a Ha. apply dsum_zero. intros b Hb. now apply H.
Qed.

Lemma pairing_perturb (L : LayerState) (src out out' : Blob Dtype)
    (n y x : Z) (G : Z -> Dtype) :
  0 <= n < batch_num_ L -> 0 <= y < height_ L -> 0 <= x < width_ L ->
  (forall n' c y' x', in_image L n' c y' x' ->
     data_at dzero out' n' c y' x' =
     data_at dzero out n' c y' x' ⊕
     (if (n' =? n) && (y' =? y) && (x' =? x) then G c else dzero)) ->
  pairing dzero dadd dmul L src out' =
  pairing dzero dadd dmul L src out ⊕
  Σ 0 (channels_ L) (fun c => diff_at dzero src n c y x ⊗ G c).
Proof.
  intros Hn Hy Hx Hout. unfold pairing.
  set (s := diff_at dzero src).
  set (d := fun n' c y' x' =>
              if (n' =? n) && (y' =? y) && (x' =? x) then G c else dzero).
  transitivity
    (Σ 0 (batch_num_ L) (fun n' => Σ 0 (channels_ L) (fun c =>
       Σ 0 (height_ L) (fun y' => Σ 0 (width_ L) (fun x' =>
         s n' c y' x' ⊗ data_at dzero out n' c y' x' ⊕
         s n' c y' x' ⊗ d n' c y' x'))))).
  { apply dsum_ext. intros n' Hn'. apply dsum_ext. intros c Hc.
    apply dsum_ext. intros y' Hy'. apply dsum_ext. intros x' Hx'.
    rewrite Hout by (unfold in_image; tauto). unfold d. ring. }
  rewrite (dsum_ext 0 (batch_num_ L) _ (fun n' =>
     Σ 0 (channels_ L) (fun c => Σ 0 (height_ L) (fun y' =>
       Σ 0 (width_ L) (fun x' => s n' c y' x' ⊗ data_at dzero out n' c y' x'))) ⊕
     Σ 0 (channels_ L) (fun c => Σ 0 (height_ L) (fun y' =>
       Σ 0 (width_ L) (fun x' => s n' c y' x' ⊗ d n' c y' x'))))).
  2:{ intros n' _. rewrite <- dsum_add. apply dsum_ext. intros c _.
      apply (dsum_add2 0 (height_ L) 0 (width_ L)
               (fun y' x' => s n' c y' x' ⊗ data_at dzero out n' c y' x')
               (fun y' x' => s n' c y' x' ⊗ d n' c y' x')). }
  rewrite dsum_add. f_equal.
  rewrite (dsum_pick 0 (batch_num_ L) n); [|lia|].
  2:{ intros n' _ Hne. apply dsum_zero. intros c _.
      apply dsum_zero2. intros y' x' _ _. unfold d.
      destruct (Z.eqb_spec n' n) as [E|_]; [contradiction|]. simpl. ring. }
  apply dsum_ext. intros c _.
  rewrite (dsum_pick 0 (height_ L) y); [|lia|].
  2:{ intros y' _ Hne. apply dsum_zero. intros x' _. unfold d.
      destruct (Z.eqb_spec y' y) as [E|_]; [contradiction|].
      rewrite andb_false_r. simpl. ring. }
  rewrite (dsum_pick 0 (width_ L) x); [|lia|].
  2:{ intros x' _ Hne. unfold d.
      destruct (Z.eqb_spec x' x) as [E|_]; [contradiction|].
      rewrite andb_false_r. ring. }
  unfold d. rewrite !Z.eqb_refl. reflexivity.
Qed.

Lemma load_store_add (b : list Dtype) (e e' : Z) (t : Dtype) :
  0 <= e < Z.of_nat (length b) ->
  ld (store b e (ld b e ⊕ t)) e' = ld b e' ⊕ (if e' =? e then t else dzero).
Proof.
  intros He. destruct (Z.eqb_spec e' e) as [->|Hne].
  - now rewrite load_store_eq.
  - rewrite load_store_ne by congruence. ring.
Qed.

Lemma with_kernel_data_dense (L : LayerState) (io : Blobs Dtype) (ker : list Dtype) :
  dense_shaped L io -> length ker = length (data_ (bottom1 io)) ->
  dense_shaped L (with_kernel_data io ker).
Proof.
  intros [(Hs0 & Hst & HN & HC & HH & HW & Hodd & HP & Ha0 & Ha1 & Hat) Hs1] Hlen.
  split; [|exact Hs1].
  repeat (split; [assumption|]). split; [|exact Hat].
  destruct Ha1 as [Hd Hg]. split; [|exact Hg].
  unfold with_kernel_data. cbn [bottom1 data_]. rewrite Hlen. exact Hd.
Qed.

Lemma kernel_index_eq (L : LayerState) (n y x i j n' y' x' i' j' : Z) :
  0 <= y < height_ L -> 0 <= x < width_ L ->
  0 <= i < kernel_ L -> 0 <= j < kernel_ L ->
  0 <= y' < height_ L -> 0 <= x' < width_ L ->
  0 <= i' < kernel_ L -> 0 <= j' < kernel_ L ->
  n' * (kernel_ L * kernel_ L * height_ L * width_ L) +
    (i' * kernel_ L + j') * (height_ L * width_ L) + y' * width_ L + x' =
  n * (kernel_ L * kernel_ L * height_ L * width_ L) +
    (i * kernel_ L + j) * (height_ L * width_ L) + y * width_ L + x ->
  n' = n /\ y' = y /\ x' = x /\ i' = i /\ j' = j.
Proof.
  intros Hy Hx Hi Hj Hy' Hx' Hi' Hj' E.
  assert (0 <= i * kernel_ L + j < kernel_ L * kernel_ L) by (apply flat_bound; lia).
  assert (0 <= i' * kernel_ L + j' < kernel_ L * kernel_ L) by (apply flat_bound; lia).
  apply (kernel_index_inj L (kernel_ L * kernel_ L)) in E as (-> & E & -> & ->);
    try lia.
  apply flat_inj in E as [-> ->]; [auto|lia|lia].
Qed.

Lemma CPP_forward_perturb (L : LayerState) (io : Blobs Dtype)
    (n y x i j : Z) (t : Dtype) :
  dense_shaped L io ->
  0 <= n < batch_num_ L -> 0 <= y < height_ L -> 0 <= x < width_ L ->
  lo_ L y <= i < hi_ L y (height_ L) -> lo_ L x <= j < hi_ L x (width_ L) ->
  let e := offset (bottom1 io) n (i * kernel_ L + j) y x in
  let ker' := store (data_ (bottom1 io)) e (ld (data_ (bottom1 io)) e ⊕ t) in
  forall n' c y' x', in_image L n' c y' x' ->
    data_at dzero
      (top0 (CPPLayer_Forward_cpu dzero dadd dmul L (with_kernel_data io ker')))
      n' c y' x' =
    data_at dzero (top0 (CPPLayer_Forward_cpu dzero dadd dmul L io)) n' c y' x' ⊕
    (if (n' =? n) && (y' =? y) && (x' =? x)
     then t ⊗ data_at dzero (bottom0 io) n c (y - padding_ L + i) (x - padding_ L + j)
     else dzero).
Proof.
  intros Hsh Hn Hy Hx Hi Hj e ker' n' c y' x' Hin.
  assert (Hsh' : dense_shaped L (with_kernel_data io ker')).
  { apply with_kernel_data_dense; [exact Hsh|]. apply length_store. }
  rewrite !CPP_forward_data by assumption.
  rewrite !CPP_pixel_terms by assumption.
  destruct Hsh as [(Hs0 & Hst & HN & HC & HH & HW & Hodd & HP & Ha0 & Ha1 & Hat) Hs1].
  destruct (count_4 (bottom1 io) _ _ _ _ Hs1) as (Hk0 & _).
  apply window_range in Hi as [Hi Hbi]. apply window_range in Hj as [Hj Hbj].
  assert (He : e = n * (kernel_ L * kernel_ L * height_ L * width_ L) +
                   (i * kernel_ L + j) * (height_ L * width_ L) + y * width_ L + x).
  { unfold e. apply (offset_4 _ _ _ _ _ _ _ _ _ Hs1). }
  assert (Hrange : 0 <= e < Z.of_nat (length (data_ (bottom1 io)))).
  { destruct Ha1 as [Hd _]. rewrite Hk0 in Hd. rewrite He.
    assert (0 <= i * kernel_ L + j < kernel_ L * kernel_ L)
      by (apply flat_bound; lia).
    pose proof (index4_bound (batch_num_ L) (kernel_ L * kernel_ L) (height_ L)
                  (width_ L) n (i * kernel_ L + j) y x) as Hb. lia. }
  set (a := fun i' j' =>
    data_at dzero (bottom0 io) n' c (y' - padding_ L + i') (x' - padding_ L + j')).
  set (k := fun i' j' => data_at dzero (bottom1 io) n' (i' * kernel_ L + j') y' x').
  set (dl := fun i' j' =>
    if offset (bottom1 io) n' (i' * kernel_ L + j') y' x' =? e then t else dzero).
  rewrite (dsum_ext _ _ _ (fun i' =>
             Σ (lo_ L x') (hi_ L x' (width_ L))
               (fun j' => a i' j' ⊗ k i' j' ⊕ a i' j' ⊗ dl i' j'))).
  2:{ intros i' _. apply dsum_ext. intros j' _.
      unfold data_at at 2. unfold with_kernel_data. cbn [bottom1 data_ bottom0].
      replace (offset _ n' (i' * kernel_ L + j') y' x')
        with (offset (bottom1 io) n' (i' * kernel_ L + j') y' x') by reflexivity.
      unfold ker'. rewrite load_store_add by exact Hrange.
      unfold a, k, dl, data_at. ring. }
  rewrite dsum_add2. f_equal.
  destruct Hin as (Hn' & Hc & Hy' & Hx').
  destruct ((n' =? n) && (y' =? y) && (x' =? x)) eqn:Hpix.
  - apply andb_prop in Hpix as [Hpix Ex]. apply andb_prop in Hpix as [En Ey].
    apply Z.eqb_eq in En, Ey, Ex. subst n' y' x'.
    rewrite (dsum_pick _ _ i); [|apply window_range; tauto|].
    2:{ intros i' Hi' Hne. apply dsum_zero. intros j' Hj'. unfold dl.
        apply window_range in Hi' as [Hi' _]. apply window_range in Hj' as [Hj' _].
        destruct (Z.eqb_spec (offset (bottom1 io) n (i' * kernel_ L + j') y x) e)
          as [E|_]; [|ring].
        rewrite He, (offset_4 _ _ _ _ _ _ _ _ _ Hs1) in E.
        apply kernel_index_eq in E; try lia. }
    rewrite (dsum_pick _ _ j); [|apply window_range; tauto|].
    2:{ intros j' Hj' Hne. unfold dl.
        apply window_range in Hj' as [Hj' _].
        destruct (Z.eqb_spec (offset (bottom1 io) n (i * kernel_ L + j') y x) e)
          as [E|_]; [|ring].
        rewrite He, (offset_4 _ _ _ _ _ _ _ _ _ Hs1) in E.
        apply kernel_index_eq in E; try lia. }
    unfold dl, a. fold e. rewrite Z.eqb_refl. ring.
  - apply dsum_zero2. intros i' j' Hi' Hj'. unfold dl.
    apply window_range in Hi' as [Hi' _]. apply window_range in Hj' as [Hj' _].
    destruct (Z.eqb_spec (offset (bottom1 io) n' (i' * kernel_ L + j') y' x') e)
      as [E|_]; [|ring].
    rewrite He, (offset_4 _ _ _ _ _ _ _ _ _ Hs1) in E.
    apply kernel_index_eq in E as (-> & -> & -> & _); lia.
Qed.

Lemma channel_dot_blobs (L : LayerState) (io : Blobs Dtype) (n y x i_img j_img : Z) :
  shape_ (bottom0 io) = [batch_num_ L; channels_ L; height_ L; width_ L] ->
  shape_ (top0 io) = shape_ (bottom0 io) ->
  channel_dot dzero dadd dmul L (diff_ (top0 io)) (data_ (bottom0 io))
    (channels_ L * height_ L * width_ L) (height_ L * width_ L) n y x i_img j_img =
  Σ 0 (channels_ L) (fun c =>
    diff_at dzero (top0 io) n c y x ⊗ data_at dzero (bottom0 io) n c i_img j_img).
Proof.
  intros Hs0 Hst. rewrite Hs0 in Hst.
  rewrite channel_dot_sum. apply dsum_ext. intros c _.
  unfold diff_at, data_at.
  now rewrite (offset_4 _ _ _ _ _ _ _ _ _ Hs0), (offset_4 _ _ _ _ _ _ _ _ _ Hst).
Qed.

Lemma CPP_backward_diff (L : LayerState) (pd : list bool) (io : Blobs Dtype)
    (n y x i j : Z) :
  dense_shaped L io ->
  0 <= n < batch_num_ L -> 0 <= y < height_ L -> 0 <= x < width_ L ->
  0 <= i < kernel_ L -> 0 <= j < kernel_ L ->
  in_bounds L y (height_ L) i = true -> in_bounds L x (width_ L) j = true ->
  diff_at dzero (bottom1 (CPPLayer_Backward_cpu dzero dadd dmul L pd io))
    n (i * kernel_ L + j) y x =
  Σ 0 (channels_ L) (fun c =>
    diff_at dzero (top0 io) n c y x ⊗
    data_at dzero (bottom0 io) n c (y - padding_ L + i) (x - padding_ L + j)).
Proof.
  intros Hsh Hn Hy Hx Hi Hj Hbi Hbj.
  destruct (CPP_backward_stores L pd io Hsh) as (_ & Hval & _).
  destruct Hsh as [(Hs0 & Hst & _) Hs1].
  unfold diff_at at 1.
  replace (offset _ n (i * kernel_ L + j) y x)
    with (offset (bottom1 io) n (i * kernel_ L + j) y x) by reflexivity.
  rewrite (offset_4 _ _ _ _ _ _ _ _ _ Hs1).
  rewrite (Hval _) with (n := n) (y := y) (x := x) (i := i) (j := j);
    try assumption; try reflexivity.
  - now apply channel_dot_blobs.
  - exists n. split; [exact Hn|]. exists y. split; [exact Hy|].
    exists x. split; [exact Hx|].
    exists i. split; [apply window_range; tauto|].
    exists j. split; [apply window_range; tauto|]. reflexivity.
Qed.

(** C3.  For a well-shaped input, every batch n, pixel (y, x) and kernel
    offset (i, j) whose image neighbour (y-P+i, x-P+j) is in bounds,
    [CPPLayer::Backward_cpu] leaves in [diff[n, i*K+j, y, x]] the channel sum
    of [src[n,c,y,x] * img[n,c,y-P+i,x-P+j]], [src] being the upstream
    gradient; and this value is the exact partial derivative, with respect
    to that kernel element, of the forward output paired with [src]: adding
    any [t] to the element adds [t] times the value to the pairing. *)
Theorem CPP_backward_kernel_gradient (L : LayerState) (pd : list bool)
    (io : Blobs Dtype) (n y x i j : Z) :
  dense_shaped L io ->
  0 <= n < batch_num_ L -> 0 <= y < height_ L -> 0 <= x < width_ L ->
  0 <= i < kernel_ L -> 0 <= j < kernel_ L ->
  in_bounds L y (height_ L) i = true -> in_bounds L x (width_ L) j = true ->
  let g := diff_at dzero (bottom1 (CPPLayer_Backward_cpu dzero dadd dmul L pd io))
             n (i * kernel_ L + j) y x in
  g = Σ 0 (channels_ L) (fun c =>
        diff_at dzero (top0 io) n c y x ⊗
        data_at dzero (bottom0 io) n c (y - padding_ L + i) (x - padding_ L + j)) /\
  forall t : Dtype,
    let e := offset (bottom1 io) n (i * kernel_ L + j) y x in
    let ker' := store (data_ (bottom1 io)) e (ld (data_ (bottom1 io)) e ⊕ t) in
    pairing dzero dadd dmul L (top0 io)
      (top0 (CPPLayer_Forward_cpu dzero dadd dmul L (with_kernel_data io ker'))) =
    pairing dzero dadd dmul L (top0 io)
      (top0 (CPPLayer_Forward_cpu dzero dadd dmul L io)) ⊕ t ⊗ g.
Proof.
  intros Hsh Hn Hy Hx Hi Hj Hbi Hbj g. subst g.
  rewrite CPP_backward_diff by assumption.
  split; [reflexivity|]. intros t e ker'.
  rewrite (pairing_perturb L (top0 io)
             (top0 (CPPLayer_Forward_cpu dzero dadd dmul L io))
             (top0 (CPPLayer_Forward_cpu dzero dadd dmul L (with_kernel_data io ker')))
             n y x
             (fun c => t ⊗ data_at dzero (bottom0 io) n c
                             (y - padding_ L + i) (x - padding_ L + j)));
    try assumption.
  - f_equal. rewrite <- dsum_mul_l. apply dsum_ext. intros c _. ring.
  - intros n' c y' x' Hin.
    apply CPP_forward_perturb; try assumption; apply window_range; tauto.
Qed.

(** ** Separable backward pass *)

Lemma SepCPP_horizontal_value_sum (L : LayerState) (src img ker : list Dtype)
    (PI PC KB PK n y x j_img : Z) :
  SepCPP_horizontal_value dzero dadd dmul L src img ker PI PC KB PK n y x j_img =
  Σ (lo_ L y) (hi_ L y (height_ L)) (fun i =>
    channel_dot dzero dadd dmul L src img PI PC n y x (y - padding_ L + i) j_img ⊗
    ld ker (n * KB + (kernel_ L + i) * PK + y * width_ L + x)).
Proof.
  unfold SepCPP_horizontal_value. rewrite smart_for_range, accumulate. ring.
Qed.

Lemma SepCPP_vertical_value_sum (L : LayerState) (src img ker : list Dtype)
    (PI PC KB PK n y x i_img : Z) :
  SepCPP_vertical_value dzero dadd dmul L src img ker PI PC KB PK n y x i_img =
  Σ (lo_ L x) (hi_ L x (width_ L)) (fun j =>
    channel_dot dzero dadd dmul L src img PI PC n y x i_img (x - padding_ L + j) ⊗
    ld ker (n * KB + j * PK + y * width_ L + x)).
Proof.
  unfold SepCPP_vertical_value. rewrite smart_for_range, accumulate. ring.
Qed.

Lemma kernel_nonneg (L : LayerState) : Z.rem (kernel_ L) 2 = 1 -> 0 < kernel_ L.
Proof.
  intros H. destruct (Z_lt_le_dec 0 (kernel_ L)) as [Hp|Hn]; [exact Hp|].
  pose proof (Z.rem_nonpos (kernel_ L) 2 ltac:(lia) Hn). lia.
Qed.

Lemma SepCPP_backward_stores (L : LayerState) (pd : list bool) (io : Blobs Dtype) :
  sep_shaped L io ->
  stores_into dzero (sep_assigned L)
    (sep_assigns dzero dadd dmul L (diff_ (top0 io)) (data_ (bottom0 io)) (data_ (bottom1 io)))
    (diff_ (bottom1 io))
    (diff_ (bottom1 (SepCPPLayer_Backward_cpu dzero dadd dmul L pd io))).
Proof.
  intros [(Hs0 & Hst & HN & HC & HH & HW & Hodd & HP & _ & Ha1 & _) Hs1].
  destruct (count_4 (bottom0 io) _ _ _ _ Hs0) as (_ & Hc1 & Hc2).
  destruct (count_4 (bottom1 io) _ _ _ _ Hs1) as (Hk0 & Hk1 & _).
  destruct Ha1 as [_ Hlen]. rewrite Hk0 in Hlen.
  pose proof (kernel_nonneg L Hodd) as HK.
  unfold SepCPPLayer_Backward_cpu. cbn [bottom1 diff_].
  rewrite Hc1, Hc2, Hk1.
  unfold sep_assigned.
  apply stores_into_for_range. intros n b1 Hn Hb1.
  apply stores_into_for_range. intros y b2 Hy Hb2.
  apply stores_into_for_range. intros x b3 Hx Hb3. cbv zeta.
  rewrite !smart_for_range.
  match goal with
  | |- stores_into _ _ ?R _ (for_range _ _ _ (for_range ?a ?b ?f b3)) =>
      assert (H1 : stores_into dzero
                (fun e => exists j, lo_ L x <= j < hi_ L x (width_ L) /\
                   e = n * (2 * kernel_ L * height_ L * width_ L) +
                       j * (height_ L * width_ L) + y * width_ L + x)
                R b3 (for_range a b f b3))
  end.
  { apply stores_into_for_range. intros j b4 Hj Hb4.
    apply window_range in Hj as [Hj _].
    apply (stores_into_store dzero).
    + pose proof (index4_bound (batch_num_ L) (2 * kernel_ L) (height_ L)
                    (width_ L) n j y x Hn ltac:(lia) Hy Hx) as Hb.
      rewrite Hb4, Hb3, Hb2, Hb1. lia.
    + split.
      * intros n' y' x' j' Hn' Hy' Hx' Hj' E.
        apply (kernel_index_inj L (2 * kernel_ L)) in E
          as (-> & -> & -> & ->); try lia. reflexivity.
      * intros n' y' x' i' Hn' Hy' Hx' Hi' E.
        apply (kernel_index_inj L (2 * kernel_ L)) in E
          as (_ & E & _ & _); lia. }
  eapply stores_into_step; [exact H1|].
  apply stores_into_for_range. intros i b4 Hi Hb4.
  apply window_range in Hi as [Hi _].
  apply (stores_into_store dzero).
  + pose proof (index4_bound (batch_num_ L) (2 * kernel_ L) (height_ L)
                  (width_ L) n (kernel_ L + i) y x Hn ltac:(lia) Hy Hx) as Hb.
    destruct H1 as [Hl1 _].
    rewrite Hb4, Hl1, Hb3, Hb2, Hb1. lia.
  + split.
    * intros n' y' x' j' Hn' Hy' Hx' Hj' E.
      apply (kernel_index_inj L (2 * kernel_ L)) in E
        as (_ & E & _ & _); lia.
    * intros n' y' x' i' Hn' Hy' Hx' Hi' E.
      apply (kernel_index_inj L (2 * kernel_ L)) in E
        as (-> & E & -> & ->); try lia.
      assert (i = i') as -> by lia. reflexivity.
Qed.

Lemma SepCPP_backward_diff_h (L : LayerState) (pd : list bool) (io : Blobs Dtype)
    (n y x j : Z) :
  sep_shaped L io ->
  0 <= n < batch_num_ L -> 0 <= y < height_ L -> 0 <= x < width_ L ->
  0 <= j < kernel_ L -> in_bounds L x (width_ L) j = true ->
  diff_at dzero (bottom1 (SepCPPLayer_Backward_cpu dzero dadd dmul L pd io)) n j y x =
  Σ (lo_ L y) (hi_ L y (height_ L)) (fun i =>
    Σ 0 (channels_ L) (fun c =>
      diff_at dzero (top0 io) n c y x ⊗
      data_at dzero (bottom0 io) n c (y - padding_ L + i) (x - padding_ L + j)) ⊗
    data_at dzero (bottom1 io) n (kernel_ L + i) y x).
Proof.
  intros Hsh Hn Hy Hx Hj Hbj.
  destruct (SepCPP_backward_stores L pd io Hsh) as (_ & Hval & _).
  destruct Hsh as [(Hs0 & Hst & _) Hs1].
  unfold diff_at at 1.
  replace (offset _ n j y x) with (offset (bottom1 io) n j y x) by reflexivity.
  rewrite (offset_4 _ _ _ _ _ _ _ _ _ Hs1).
  match goal with |- ld _ ?e = _ => assert (Hdom : sep_assigned L e) end.
  { exists n. split; [exact Hn|]. exists y. split; [exact Hy|].
    exists x. split; [exact Hx|]. left.
    exists j. split; [apply window_range; tauto|]. reflexivity. }
  rewrite (proj1 (Hval _ Hdom) n y x j); try assumption; try reflexivity.
  rewrite SepCPP_horizontal_value_sum. apply dsum_ext. intros i _.
  rewrite channel_dot_blobs by assumption.
  unfold data_at at 3. rewrite (offset_4 _ _ _ _ _ _ _ _ _ Hs1). reflexivity.
Qed.

Lemma SepCPP_backward_diff_v (L : LayerState) (pd : list bool) (io : Blobs Dtype)
    (n y x i : Z) :
  sep_shaped L io ->
  0 <= n < batch_num_ L -> 0 <= y < height_ L -> 0 <= x < width_ L ->
  0 <= i < kernel_ L -> in_bounds L y (height_ L) i = true ->
  diff_at dzero (bottom1 (SepCPPLayer_Backward_cpu dzero dadd dmul L pd io))
    n (kernel_ L + i) y x =
  Σ (lo_ L x) (hi_ L x (width_ L)) (fun j =>
    Σ 0 (channels_ L) (fun c =>
      diff_at dzero (top0 io) n c y x ⊗
      data_at dzero (bottom0 io) n c (y - padding_ L + i) (x - padding_ L + j)) ⊗
    data_at dzero (bottom1 io) n j y x).
Proof.
  intros Hsh Hn Hy Hx Hi Hbi.
  destruct (SepCPP_backward_stores L pd io Hsh) as (_ & Hval & _).
  destruct Hsh as [(Hs0 & Hst & _) Hs1].
  unfold diff_at at 1.
  replace (offset _ n (kernel_ L + i) y x)
    with (offset (bottom1 io) n (kernel_ L + i) y x) by reflexivity.
  rewrite (offset_4 _ _ _ _ _ _ _ _ _ Hs1).
  match goal with |- ld _ ?e = _ => assert (Hdom : sep_assigned L e) end.
  { exists n. split; [exact Hn|]. exists y. split; [exact Hy|].
    exists x. split; [exact Hx|]. right.
    exists i. split; [apply window_range; tauto|]. reflexivity. }
  rewrite (proj2 (Hval _ Hdom) n y x i); try assumption; try reflexivity.
  rewrite SepCPP_vertical_value_sum. apply dsum_ext. intros j _.
  rewrite channel_dot_blobs by assumption.
  unfold data_at at 3. rewrite (offset_4 _ _ _ _ _ _ _ _ _ Hs1). reflexivity.
Qed.

Lemma with_kernel_data_sep (L : LayerState) (io : Blobs Dtype) (ker : list Dtype) :
  sep_shaped L io -> length ker = length (data_ (bottom1 io)) ->
  sep_shaped L (with_kernel_data io ker).
Proof.
  intros [(Hs0 & Hst & HN & HC & HH & HW & Hodd & HP & Ha0 & Ha1 & Hat) Hs1] Hlen.
  split; [|exact Hs1].
  repeat (split; [assumption|]). split; [|exact Hat].
  destruct Ha1 as [Hd Hg]. split; [|exact Hg].
  unfold with_kernel_data. cbn [bottom1 data_]. rewrite Hlen. exact Hd.
Qed.

Lemma sep_offset_range (L : LayerState) (io : Blobs Dtype) (n ch y x : Z) :
  sep_shaped L io ->
  0 <= n < batch_num_ L -> 0 <= ch < 2 * kernel_ L ->
  0 <= y < height_ L -> 0 <= x < width_ L ->
  0 <= offset (bottom1 io) n ch y x < Z.of_nat (length (data_ (bottom1 io))).
Proof.
  intros [(_ & _ & _ & _ & _ & _ & _ & _ & _ & Ha1 & _) Hs1] Hn Hch Hy Hx.
  destruct (count_4 (bottom1 io) _ _ _ _ Hs1) as (Hk0 & _).
  destruct Ha1 as [Hd _]. rewrite Hk0 in Hd.
  rewrite (offset_4 _ _ _ _ _ _ _ _ _ Hs1).
  pose proof (index4_bound (batch_num_ L) (2 * kernel_ L) (height_ L)
                (width_ L) n ch y x Hn Hch Hy Hx). lia.
Qed.

Lemma sep_offset_eq (L : LayerState) (io : Blobs Dtype)
    (n ch y x n' ch' y' x' : Z) :
  sep_shaped L io ->
  0 <= ch < 2 * kernel_ L -> 0 <= ch' < 2 * kernel_ L ->
  0 <= y < height_ L -> 0 <= y' < height_ L ->
  0 <= x < width_ L -> 0 <= x' < width_ L ->
  offset (bottom1 io) n' ch' y' x' = offset (bottom1 io) n ch y x ->
  n' = n /\ ch' = ch /\ y' = y /\ x' = x.
Proof.
  intros [_ Hs1] Hch Hch' Hy Hy' Hx Hx' E.
  rewrite !(offset_4 _ _ _ _ _ _ _ _ _ Hs1) in E.
  apply (kernel_index_inj L (2 * kernel_ L)) in E; try lia.
Qed.

(** Reading the kernel blob after one of its elements was increased by [t]. *)
Lemma data_at_perturbed (io : Blobs Dtype) (e : Z) (t : Dtype) (n ch y x : Z) :
  0 <= e < Z.of_nat (length (data_ (bottom1 io))) ->
  data_at dzero
    (bottom1 (with_kernel_data io
       (store (data_ (bottom1 io)) e (ld (data_ (bottom1 io)) e ⊕ t)))) n ch y x =
  data_at dzero (bottom1 io) n ch y x ⊕
  (if offset (bottom1 io) n ch y x =? e then t else dzero).
Proof.
  intros He. unfold data_at at 1. unfold with_kernel_data. cbn [bottom1 data_].
  replace (offset _ n ch y x) with (offset (bottom1 io) n ch y x) by reflexivity.
  now rewrite load_store_add.
Qed.

Lemma SepCPP_forward_perturb_h (L : LayerState) (io : Blobs Dtype)
    (n y x j : Z) (t : Dtype) :
  sep_shaped L io ->
  0 <= n < batch_num_ L -> 0 <= y < height_ L -> 0 <= x < width_ L ->
  lo_ L x <= j < hi_ L x (width_ L) ->
  let e := offset (bottom1 io) n j y x in
  let ker' := store (data_ (bottom1 io)) e (ld (data_ (bottom1 io)) e ⊕ t) in
  forall n' c y' x', in_image L n' c y' x' ->
    data_at dzero
      (top0 (SepCPPLayer_Forward_cpu dzero dadd dmul L (with_kernel_data io ker')))
      n' c y' x' =
    data_at dzero (top0 (SepCPPLayer_Forward_cpu dzero dadd dmul L io)) n' c y' x' ⊕
    (if (n' =? n) && (y' =? y) && (x' =? x)
     then t ⊗ Σ (lo_ L y) (hi_ L y (height_ L)) (fun i =>
                data_at dzero (bottom0 io) n c (y - padding_ L + i) (x - padding_ L + j) ⊗
                data_at dzero (bottom1 io) n (kernel_ L + i) y x)
     else dzero).
Proof.
  intros Hsh Hn Hy Hx Hj e ker' n' c y' x' Hin.
  assert (Hsh' : sep_shaped L (with_kernel_data io ker')).
  { apply with_kernel_data_sep; [exact Hsh|]. apply length_store. }
  rewrite !SepCPP_forward_data by assumption.
  pose proof Hsh as [(_ & _ & _ & _ & _ & _ & Hodd & _) _].
  pose proof (kernel_nonneg L Hodd) as HK.
  apply window_range in Hj as [Hj Hbj].
  destruct Hin as (Hn' & Hc & Hy' & Hx').
  assert (Hrange : 0 <= e < Z.of_nat (length (data_ (bottom1 io))))
    by (apply (sep_offset_range L); try assumption; lia).
  set (a := fun i' j' =>
    data_at dzero (bottom0 io) n' c (y' - padding_ L + i') (x' - padding_ L + j')).
  set (kh := fun j' => data_at dzero (bottom1 io) n' j' y' x').
  set (kv := fun i' => data_at dzero (bottom1 io) n' (kernel_ L + i') y' x').
  set (dl := fun j' => if offset (bottom1 io) n' j' y' x' =? e then t else dzero).
  rewrite (dsum_ext _ _ _ (fun i' =>
     Σ (lo_ L x') (hi_ L x' (width_ L)) (fun j' => a i' j' ⊗ kh j') ⊗ kv i' ⊕
     Σ (lo_ L x') (hi_ L x' (width_ L)) (fun j' => a i' j' ⊗ dl j') ⊗ kv i')).
  2:{ intros i' Hi'. apply window_range in Hi' as [Hi' _].
      unfold ker'. rewrite data_at_perturbed by exact Hrange. fold e.
      destruct (Z.eqb_spec (offset (bottom1 io) n' (kernel_ L + i') y' x') e)
        as [E|_].
      { apply (sep_offset_eq L) in E; try assumption; lia. }
      rewrite (dsum_ext _ _ _ (fun j' => a i' j' ⊗ kh j' ⊕ a i' j' ⊗ dl j')).
      2:{ intros j' _. rewrite data_at_perturbed by exact Hrange.
          unfold a, kh, dl. cbn [bottom0 with_kernel_data]. fold e. ring. }
      rewrite dsum_add. unfold kv. ring. }
  rewrite dsum_add. f_equal.
  destruct ((n' =? n) && (y' =? y) && (x' =? x)) eqn:Hpix.
  - apply andb_prop in Hpix as [Hpix Ex]. apply andb_prop in Hpix as [En Ey].
    apply Z.eqb_eq in En, Ey, Ex. subst n' y' x'.
    rewrite <- dsum_mul_l. apply dsum_ext. intros i' _.
    rewrite (dsum_pick _ _ j); [|apply window_range; tauto|].
    2:{ intros j' Hj' Hne. unfold dl. apply window_range in Hj' as [Hj' _].
        destruct (Z.eqb_spec (offset (bottom1 io) n j' y x) e) as [E|_]; [|ring].
        apply (sep_offset_eq L) in E; try assumption; lia. }
    unfold dl, a, kv. fold e. rewrite Z.eqb_refl. ring.
  - apply dsum_zero. intros i' _.
    rewrite (dsum_zero _ _ (fun j' => a i' j' ⊗ dl j')); [ring|].
    intros j' Hj'. unfold dl. apply window_range in Hj' as [Hj' _].
    destruct (Z.eqb_spec (offset (bottom1 io) n' j' y' x') e) as [E|_]; [|ring].
    apply (sep_offset_eq L) in E as (-> & _ & -> & ->); try assumption; lia.
Qed.

Lemma SepCPP_forward_perturb_v (L : LayerState) (io : Blobs Dtype)
    (n y x i : Z) (t : Dtype) :
  sep_shaped L io ->
  0 <= n < batch_num_ L -> 0 <= y < height_ L -> 0 <= x < width_ L ->
  lo_ L y <= i < hi_ L y (height_ L) ->
  let e := offset (bottom1 io) n (kernel_ L + i) y x in
  let ker' := store (data_ (bottom1 io)) e (ld (data_ (bottom1 io)) e ⊕ t) in
  forall n' c y' x', in_image L n' c y' x' ->
    data_at dzero
      (top0 (SepCPPLayer_Forward_cpu dzero dadd dmul L (with_kernel_data io ker')))
      n' c y' x' =
    data_at dzero (top0 (SepCPPLayer_Forward_cpu dzero dadd dmul L io)) n' c y' x' ⊕
    (if (n' =? n) && (y' =? y) && (x' =? x)
     then t ⊗ Σ (lo_ L x) (hi_ L x (width_ L)) (fun j =>
                data_at dzero (bottom0 io) n c (y - padding_ L + i) (x - padding_ L + j) ⊗
                data_at dzero (bottom1 io) n j y x)
     else dzero).
Proof.
  intros Hsh Hn Hy Hx Hi e ker' n' c y' x' Hin.
  assert (Hsh' : sep_shaped L (with_kernel_data io ker')).
  { apply with_kernel_data_sep; [exact Hsh|]. apply length_store. }
  rewrite !SepCPP_forward_data by assumption.
  pose proof Hsh as [(_ & _ & _ & _ & _ & _ & Hodd & _) _].
  pose proof (kernel_nonneg L Hodd) as HK.
  apply window_range in Hi as [Hi Hbi].
  destruct Hin as (Hn' & Hc & Hy' & Hx').
  assert (Hrange : 0 <= e < Z.of_nat (length (data_ (bottom1 io))))
    by (apply (sep_offset_range L); try assumption; lia).
  set (S' := fun i' =>
    Σ (lo_ L x') (hi_ L x' (width_ L)) (fun j' =>
      data_at dzero (bottom0 io) n' c (y' - padding_ L + i') (x' - padding_ L + j') ⊗
      data_at dzero (bottom1 io) n' j' y' x')).
  set (kv := fun i' => data_at dzero (bottom1 io) n' (kernel_ L + i') y' x').
  set (dl := fun i' =>
    if offset (bottom1 io) n' (kernel_ L + i') y' x' =? e then t else dzero).
  rewrite (dsum_ext _ _ _ (fun i' => S' i' ⊗ kv i' ⊕ S' i' ⊗ dl i')).
  2:{ intros i' Hi'. apply window_range in Hi' as [Hi' _].
      unfold ker'. rewrite data_at_perturbed by exact Hrange. fold e.
      rewrite (dsum_ext _ _ _ (fun j' =>
        data_at dzero (bottom0 io) n' c (y' - padding_ L + i') (x' - padding_ L + j') ⊗
        data_at dzero (bottom1 io) n' j' y' x')).
      2:{ intros j' Hj'. apply window_range in Hj' as [Hj' _].
          rewrite data_at_perturbed by exact Hrange. fold e.
          destruct (Z.eqb_spec (offset (bottom1 io) n' j' y' x') e) as [E|_].
          { apply (sep_offset_eq L) in E; try assumption; lia. }
          cbn [bottom0 with_kernel_data]. ring. }
      unfold S', kv, dl. ring. }
  rewrite dsum_add. f_equal.
  destruct ((n' =? n) && (y' =? y) && (x' =? x)) eqn:Hpix.
  - apply andb_prop in Hpix as [Hpix Ex]. apply andb_prop in Hpix as [En Ey].
    apply Z.eqb_eq in En, Ey, Ex. subst n' y' x'.
    rewrite (dsum_pick _ _ i); [|apply window_range; tauto|].
    2:{ intros i' Hi' Hne. unfold dl. apply window_range in Hi' as [Hi' _].
        destruct (Z.eqb_spec (offset (bottom1 io) n (kernel_ L + i') y x) e)
          as [E|_]; [|ring].
        apply (sep_offset_eq L) in E; try assumption; lia. }
    unfold dl, S'. fold e. rewrite Z.eqb_refl. ring.
  - apply dsum_zero. intros i' Hi'. unfold dl.
    apply window_range in Hi' as [Hi' _].
    destruct (Z.eqb_spec (offset (bottom1 io) n' (kernel_ L + i') y' x') e)
      as [E|_]; [|ring].
    apply (sep_offset_eq L) in E as (-> & _ & -> & ->); try assumption; lia.
Qed.

Lemma dsum_if_window (L : LayerState) (pos dim : Z) f :
  dsum_if dzero dadd 0 (kernel_ L) (in_bounds L pos dim) f =
  Σ (lo_ L pos) (hi_ L pos dim) f.
Proof. now rewrite dsum_if_guard, dsum_window. Qed.

(** C4.  For a well-shaped input and every pixel (n, y, x),
    [SepCPPLayer::Backward_cpu] leaves in the horizontal half
    [diff[n, j, y, x]], for every in-bounds horizontal offset j, the sum over
    the in-bounds vertical offsets i of
    [(sum_c src[n,c,y,x] * img[n,c,y-P+i,x-P+j]) * ker[n,K+i,y,x]], and in
    the vertical half [diff[n, K+i, y, x]], for every in-bounds vertical
    offset i, the sum over the in-bounds horizontal offsets j of the same
    channel sum times [ker[n,j,y,x]].  Each value is the exact partial
    derivative, with respect to that kernel element, of the separable
    forward output paired with the upstream gradient [src]. *)
Theorem SepCPP_backward_kernel_gradient (L : LayerState) (pd : list bool)
    (io : Blobs Dtype) (n y x : Z) :
  sep_shaped L io ->
  0 <= n < batch_num_ L -> 0 <= y < height_ L -> 0 <= x < width_ L ->
  let io' := SepCPPLayer_Backward_cpu dzero dadd dmul L pd io in
  let dot := fun i j =>
    Σ 0 (channels_ L) (fun c =>
      diff_at dzero (top0 io) n c y x ⊗
      data_at dzero (bottom0 io) n c (y - padding_ L + i) (x - padding_ L + j)) in
  let J := fun ker =>
    pairing dzero dadd dmul L (top0 io)
      (top0 (SepCPPLayer_Forward_cpu dzero dadd dmul L (with_kernel_data io ker))) in
  let bump := fun e (t : Dtype) =>
    store (data_ (bottom1 io)) e (ld (data_ (bottom1 io)) e ⊕ t) in
  (forall j, 0 <= j < kernel_ L -> in_bounds L x (width_ L) j = true ->
     let g := diff_at dzero (bottom1 io') n j y x in
     g = dsum_if dzero dadd 0 (kernel_ L) (in_bounds L y (height_ L)) (fun i =>
           dot i j ⊗ data_at dzero (bottom1 io) n (kernel_ L + i) y x) /\
     forall t, J (bump (offset (bottom1 io) n j y x) t) =
               J (data_ (bottom1 io)) ⊕ t ⊗ g) /\
  (forall i, 0 <= i < kernel_ L -> in_bounds L y (height_ L) i = true ->
     let g := diff_at dzero (bottom1 io') n (kernel_ L + i) y x in
     g = dsum_if dzero dadd 0 (kernel_ L) (in_bounds L x (width_ L)) (fun j =>
           dot i j ⊗ data_at dzero (bottom1 io) n j y x) /\
     forall t, J (bump (offset (bottom1 io) n (kernel_ L + i) y x) t) =
               J (data_ (bottom1 io)) ⊕ t ⊗ g).
Proof.
  intros Hsh Hn Hy Hx io' dot J bump. subst io' dot J bump. cbv beta.
  assert (Hid : with_kernel_data io (data_ (bottom1 io)) = io)
    by (destruct io as [b0 [s1 d1 g1] t0]; reflexivity).
  rewrite Hid.
  split.
  - intros j Hj Hbj g. subst g.
    rewrite SepCPP_backward_diff_h by assumption.
    split; [now rewrite dsum_if_window|]. intros t.
    rewrite (pairing_perturb L (top0 io)
      (top0 (SepCPPLayer_Forward_cpu dzero dadd dmul L io))
      (top0 (SepCPPLayer_Forward_cpu dzero dadd dmul L
         (with_kernel_data io
            (store (data_ (bottom1 io)) (offset (bottom1 io) n j y x)
               (ld (data_ (bottom1 io)) (offset (bottom1 io) n j y x) ⊕ t)))))
      n y x
      (fun c => t ⊗ Σ (lo_ L y) (hi_ L y (height_ L)) (fun i =>
         data_at dzero (bottom0 io) n c (y - padding_ L + i) (x - padding_ L + j) ⊗
         data_at dzero (bottom1 io) n (kernel_ L + i) y x)));
      try assumption.
    + f_equal.
      rewrite (dsum_ext _ _ _ (fun c => t ⊗
        Σ (lo_ L y) (hi_ L y (height_ L)) (fun i =>
          diff_at dzero (top0 io) n c y x ⊗
          data_at dzero (bottom0 io) n c (y - padding_ L + i) (x - padding_ L + j) ⊗
          data_at dzero (bottom1 io) n (kernel_ L + i) y x))).
      2:{ intros c _.
          match goal with |- ?a ⊗ (?b ⊗ ?S) = _ =>
            transitivity (b ⊗ (a ⊗ S)); [ring|] end.
          f_equal. rewrite <- dsum_mul_l. apply dsum_ext. intros; ring. }
      rewrite dsum_mul_l. f_equal. rewrite dsum_swap.
      apply dsum_ext. intros i _. now rewrite dsum_mul_r.
    + intros n' c y' x' Hin.
      apply SepCPP_forward_perturb_h; try assumption. apply window_range; tauto.
  - intros i Hi Hbi g. subst g.
    rewrite SepCPP_backward_diff_v by assumption.
    split; [now rewrite dsum_if_window|]. intros t.
    rewrite (pairing_perturb L (top0 io)
      (top0 (SepCPPLayer_Forward_cpu dzero dadd dmul L io))
      (top0 (SepCPPLayer_Forward_cpu dzero dadd dmul L
         (with_kernel_data io
            (store (data_ (bottom1 io)) (offset (bottom1 io) n (kernel_ L + i) y x)
               (ld (data_ (bottom1 io)) (offset (bottom1 io) n (kernel_ L + i) y x) ⊕ t)))))
      n y x
      (fun c => t ⊗ Σ (lo_ L x) (hi_ L x (width_ L)) (fun j =>
         data_at dzero (bottom0 io) n c (y - padding_ L + i) (x - padding_ L + j) ⊗
         data_at dzero (bottom1 io) n j y x)));
      try assumption.
    + f_equal.
      rewrite (dsum_ext _ _ _ (fun c => t ⊗
        Σ (lo_ L x) (hi_ L x (width_ L)) (fun j =>
          diff_at dzero (top0 io) n c y x ⊗
          data_at dzero (bottom0 io) n c (y - padding_ L + i) (x - padding_ L + j) ⊗
          data_at dzero (bottom1 io) n j y x))).
      2:{ intros c _.
          match goal with |- ?a ⊗ (?b ⊗ ?S) = _ =>
            transitivity (b ⊗ (a ⊗ S)); [ring|] end.
          f_equal. rewrite <- dsum_mul_l. apply dsum_ext. intros; ring. }
      rewrite dsum_mul_l. f_equal. rewrite dsum_swap.
      apply dsum_ext. intros j _. now rewrite dsum_mul_r.
    + intros n' c y' x' Hin.
      apply SepCPP_forward_perturb_v; try assumption. apply window_range; tauto.
Qed.

(** ** Frame of the backward passes *)

(** C8.  Whatever the layer members, the blobs and the [propagate_down]
    flags, both backward passes return the image blob (its data and its
    gradient slot) and the output blob (with the upstream gradient)
    unchanged, and leave the shape and the data of the kernel blob
    unchanged: only the kernel blob's gradient buffer can differ, and the
    result does not depend on [propagate_down]. *)
Theorem backward_writes_kernel_diff_only (L : LayerState) (pd pd' : list bool)
    (io : Blobs Dtype) :
  let dense := CPPLayer_Backward_cpu dzero dadd dmul L pd io in
  let sep := SepCPPLayer_Backward_cpu dzero dadd dmul L pd io in
  (bottom0 dense = bottom0 io /\ top0 dense = top0 io /\
   shape_ (bottom1 dense) = shape_ (bottom1 io) /\
   data_ (bottom1 dense) = data_ (bottom1 io) /\
   dense = CPPLayer_Backward_cpu dzero dadd dmul L pd' io) /\
  (bottom0 sep = bottom0 io /\ top0 sep = top0 io /\
   shape_ (bottom1 sep) = shape_ (bottom1 io) /\
   data_ (bottom1 sep) = data_ (bottom1 io) /\
   sep = SepCPPLayer_Backward_cpu dzero dadd dmul L pd' io).
Proof. cbv zeta. repeat split. Qed.

Lemma CPP_backward_retains (L : LayerState) (pd : list bool) (io : Blobs Dtype)
    (n y x i j : Z) :
  dense_shaped L io ->
  0 <= n < batch_num_ L -> 0 <= y < height_ L -> 0 <= x < width_ L ->
  0 <= i < kernel_ L -> 0 <= j < kernel_ L ->
  in_bounds L y (height_ L) i && in_bounds L x (width_ L) j = false ->
  diff_at dzero (bottom1 (CPPLayer_Backward_cpu dzero dadd dmul L pd io))
    n (i * kernel_ L + j) y x =
  diff_at dzero (bottom1 io) n (i * kernel_ L + j) y x.
Proof.
  intros Hsh Hn Hy Hx Hi Hj Hout.
  destruct (CPP_backward_stores L pd io Hsh) as (_ & _ & Hfr).
  destruct Hsh as [_ Hs1].
  unfold diff_at.
  replace (offset (bottom1 (CPPLayer_Backward_cpu dzero dadd dmul L pd io))
             n (i * kernel_ L + j) y x)
    with (offset (bottom1 io) n (i * kernel_ L + j) y x) by reflexivity.
  destruct (Hfr (offset (bottom1 io) n (i * kernel_ L + j) y x))
    as [E|[(n' & Hn' & y' & Hy' & x' & Hx' & i' & Hi' & j' & Hj' & E) _]];
    [exact E|exfalso].
  apply window_range in Hi' as [Hi' Hbi]. apply window_range in Hj' as [Hj' Hbj].
  rewrite (offset_4 _ _ _ _ _ _ _ _ _ Hs1) in E.
  symmetry in E. apply kernel_index_eq in E as (-> & -> & -> & -> & ->);
    try assumption.
  rewrite Hbi, Hbj in Hout. discriminate Hout.
Qed.

Lemma SepCPP_backward_retains (L : LayerState) (pd : list bool) (io : Blobs Dtype)
    (n y x ch : Z) :
  sep_shaped L io ->
  0 <= n < batch_num_ L -> 0 <= y < height_ L -> 0 <= x < width_ L ->
  (0 <= ch < kernel_ L /\ in_bounds L x (width_ L) ch = false) \/
  (kernel_ L <= ch < 2 * kernel_ L /\
   in_bounds L y (height_ L) (ch - kernel_ L) = false) ->
  diff_at dzero (bottom1 (SepCPPLayer_Backward_cpu dzero dadd dmul L pd io)) n ch y x =
  diff_at dzero (bottom1 io) n ch y x.
Proof.
  intros Hsh Hn Hy Hx Hch.
  destruct (SepCPP_backward_stores L pd io Hsh) as (_ & _ & Hfr).
  pose proof Hsh as [(_ & _ & _ & _ & _ & _ & Hodd & _) Hs1].
  pose proof (kernel_nonneg L Hodd) as HK.
  unfold diff_at.
  replace (offset (bottom1 (SepCPPLayer_Backward_cpu dzero dadd dmul L pd io)) n ch y x)
    with (offset (bottom1 io) n ch y x) by reflexivity.
  destruct (Hfr (offset (bottom1 io) n ch y x))
    as [E|[(n' & Hn' & y' & Hy' & x' & Hx' & Hw) _]]; [exact E|exfalso].
  rewrite (offset_4 _ _ _ _ _ _ _ _ _ Hs1) in Hw.
  destruct Hw as [(j' & Hj' & E)|(i' & Hi' & E)].
  - apply window_range in Hj' as [Hj' Hbj].
    apply (kernel_index_inj L (2 * kernel_ L)) in E as (-> & -> & -> & ->);
      try lia.
    destruct Hch as [[_ Hf]|[Hr _]]; [congruence|lia].
  - apply window_range in Hi' as [Hi' Hbi].
    apply (kernel_index_inj L (2 * kernel_ L)) in E as (-> & -> & -> & ->);
      try lia.
    destruct Hch as [[Hr _]|[_ Hf]]; [lia|].
    replace (kernel_ L + i' - kernel_ L) with i' in Hf by lia. congruence.
Qed.

(** C10.  In the dense backward pass, for a pixel (y, x) and a kernel
    offset (i, j) of [0,K) x [0,K) whose image neighbour is out of bounds,
    [diff[n, i*K+j, y, x]] after the call is what the gradient buffer held
    before the call.  In the separable backward pass the same holds for
    [diff[n, j, y, x]] when the horizontal offset j is out of bounds and for
    [diff[n, K+i, y, x]] when the vertical offset i is out of bounds.  The
    entries are not assigned, in particular not set to zero. *)
Theorem backward_out_of_bounds_retained (L : LayerState) (pd : list bool)
    (io : Blobs Dtype) (n y x : Z) :
  0 <= n < batch_num_ L -> 0 <= y < height_ L -> 0 <= x < width_ L ->
  (dense_shaped L io ->
   forall i j, 0 <= i < kernel_ L -> 0 <= j < kernel_ L ->
     in_bounds L y (height_ L) i && in_bounds L x (width_ L) j = false ->
     diff_at dzero (bottom1 (CPPLayer_Backward_cpu dzero dadd dmul L pd io))
       n (i * kernel_ L + j) y x =
     diff_at dzero (bottom1 io) n (i * kernel_ L + j) y x) /\
  (sep_shaped L io ->
   (forall j, 0 <= j < kernel_ L -> in_bounds L x (width_ L) j = false ->
      diff_at dzero (bottom1 (SepCPPLayer_Backward_cpu dzero dadd dmul L pd io))
        n j y x =
      diff_at dzero (bottom1 io) n j y x) /\
   (forall i, 0 <= i < kernel_ L -> in_bounds L y (height_ L) i = false ->
      diff_at dzero (bottom1 (SepCPPLayer_Backward_cpu dzero dadd dmul L pd io))
        n (kernel_ L + i) y x =
      diff_at dzero (bottom1 io) n (kernel_ L + i) y x)).
Proof.
  intros Hn Hy Hx. split.
  - intros Hsh i j Hi Hj Hout. now apply CPP_backward_retains.
  - intros Hsh. split.
    + intros j Hj Hout. apply SepCPP_backward_retains; try assumption.
      left. tauto.
    + intros i Hi Hout. apply SepCPP_backward_retains; try assumption.
      right. split; [lia|]. now replace (kernel_ L + i - kernel_ L) with i by lia.
Qed.
End Exact.

(** * Binary32: the kernel size derived from the channel count *)

Lemma digits2_pos_log2 (p : positive) :
  Zpos (digits2_pos p) = Z.log2 (Zpos p) + 1.
Proof.
  assert (H : forall q, digits2_pos q = Pos.size q).
  { induction q; simpl; congruence. }
  rewrite H. destruct p; simpl; lia.
Qed.

Lemma digits2_pos_range (p : positive) (d : Z) :
  0 < d -> 2 ^ (d - 1) <= Zpos p < 2 ^ d -> Zpos (digits2_pos p) = d.
Proof.
  intros Hd Hp. rewrite digits2_pos_log2.
  rewrite (Z.log2_unique (Zpos p) (d - 1)); [lia|lia|].
  replace (Z.succ (d - 1)) with d by lia. exact Hp.
Qed.

Lemma digits2_pos_24 (p : positive) :
  2 ^ 23 <= Zpos p < 2 ^ 24 -> digits2_pos p = 24%positive.
Proof.
  intros Hp. assert (Zpos (digits2_pos p) = 24); [|congruence].
  apply digits2_pos_range; [lia|exact Hp].
Qed.

Lemma shr_fexp_24 (q : positive) (e' : Z) (l : location) :
  2 ^ 23 <= Zpos q < 2 ^ 24 -> -149 <= e' ->
  shr_fexp 24 128 (Zpos q) e' l = (shr_record_of_loc (Zpos q) l, e').
Proof.
  intros Hq He. unfold shr_fexp, Zdigits2. rewrite (digits2_pos_24 q Hq).
  unfold fexp, emin.
  replace (Z.max (24 + e' - 24) (3 - 128 - 24) - e') with 0 by lia.
  reflexivity.
Qed.

Lemma shr_fexp_2p24 (e' : Z) :
  -149 <= e' ->
  shr_fexp 24 128 (2 ^ 24) e' loc_Exact =
  ({| shr_m := 2 ^ 23; shr_r := false; shr_s := false |}, e' + 1).
Proof.
  intros He. unfold shr_fexp.
  replace (Zdigits2 (2 ^ 24)) with 25 by reflexivity.
  unfold fexp, emin.
  replace (Z.max (25 + e' - 24) (3 - 128 - 24) - e') with 1 by lia.
  reflexivity.
Qed.


(** The last step of [binary_round_aux]: renormalising a rounded mantissa. *)
Lemma round_finish (m2 : Z) (e' : Z) :
  2 ^ 23 <= m2 <= 2 ^ 24 -> -149 <= e' <= 103 ->
  exists m3 e3,
    (let '(mrs, e'') := shr_fexp 24 128 m2 e' loc_Exact in
     match shr_m mrs with
     | Z0 => S754_zero false
     | Zpos m => if e'' <=? 128 - 24 then S754_finite false m e''
                 else S754_infinity false
     | Zneg _ => S754_nan
     end) = S754_finite false m3 e3 /\
    2 ^ 23 <= Zpos m3 < 2 ^ 24 /\ e' <= e3 <= e' + 1 /\
    Zpos m3 * 2 ^ (e3 - e') = m2.
Proof.
  intros Hm He.
  destruct (Z.eq_dec m2 (2 ^ 24)) as [->|Hne].
  - rewrite shr_fexp_2p24 by lia. cbn [shr_m].
    change (2 ^ 23) with 8388608.
    destruct (e' + 1 <=? 128 - 24) eqn:E; [|lia].
    exists 8388608%positive, (e' + 1). split; [reflexivity|].
    replace (e' + 1 - e') with 1 by lia. lia.
  - destruct m2 as [|q|q]; try lia.
    rewrite shr_fexp_24 by lia. cbn [shr_m shr_record_of_loc].
    destruct (e' <=? 128 - 24) eqn:E; [|lia].
    exists q, e'. split; [reflexivity|].
    replace (e' - e') with 0 by lia. rewrite Z.pow_0_r. lia.
Qed.

(** Rounding a 24-digit mantissa with a location. *)
Lemma binary_round_aux_24 (q : positive) (e' : Z) (l : location) :
  2 ^ 23 <= Zpos q < 2 ^ 24 -> -149 <= e' <= 103 ->
  exists m2 e2,
    binary_round_aux 24 128 false (Zpos q) e' l = S754_finite false m2 e2 /\
    2 ^ 23 <= Zpos m2 < 2 ^ 24 /\ e' <= e2 <= e' + 1 /\
    Zpos m2 * 2 ^ (e2 - e') = round_nearest_even (Zpos q) l /\
    Zpos q <= Zpos m2 * 2 ^ (e2 - e') <= Zpos q + 1.
Proof.
  intros Hq He.
  unfold binary_round_aux.
  rewrite shr_fexp_24 by lia.
  assert (Hm : shr_m (shr_record_of_loc (Zpos q) l) = Zpos q)
    by (destruct l as [|[]]; reflexivity).
  assert (Hl : loc_of_shr_record (shr_record_of_loc (Zpos q) l) = l)
    by (destruct l as [|[]]; reflexivity).
  rewrite Hm, Hl.
  assert (Hr : Zpos q <= round_nearest_even (Zpos q) l <= Zpos q + 1).
  { destruct l as [|[]]; simpl; try lia. destruct q; simpl; lia. }
  destruct (round_finish (round_nearest_even (Zpos q) l) e' ltac:(lia) He)
    as (m3 & e3 & -> & H3 & He3 & Hv).
  exists m3, e3. split; [reflexivity|]. lia.
Qed.

Lemma shr_1_m (mrs : shr_record) :
  0 <= shr_m mrs -> shr_m (shr_1 mrs) = shr_m mrs / 2.
Proof.
  destruct mrs as [m r s]. simpl. intros Hm.
  destruct m as [|[p|p|]|p]; try lia; cbn [shr_m].
  - reflexivity.
  - apply Z.div_unique with 1; lia.
  - apply Z.div_unique with 0; lia.
  - reflexivity.
Qed.

Lemma iter_shr_1_m (n : positive) (mrs : shr_record) :
  0 <= shr_m mrs ->
  shr_m (SpecFloat.iter_pos shr_1 n mrs) = shr_m mrs / 2 ^ Zpos n.
Proof.
  revert mrs. induction n as [n IH|n IH|]; intros mrs Hm; cbn [SpecFloat.iter_pos].
  - assert (H1 : 0 <= shr_m (shr_1 mrs))
      by (rewrite shr_1_m by lia; apply Z.div_pos; lia).
    assert (H2 : 0 <= shr_m (SpecFloat.iter_pos shr_1 n (shr_1 mrs)))
      by (rewrite IH by lia; apply Z.div_pos; lia).
    rewrite IH, IH, shr_1_m by lia.
    rewrite !Z.div_div by lia. f_equal.
    rewrite Pos2Z.inj_xI, Z.pow_add_r, Z.pow_mul_r by lia.
    change (2 ^ 2) with 4. change (2 ^ 1) with 2.
    rewrite <- Z.pow_2_r. rewrite <- Z.pow_mul_r by lia.
    replace (Zpos n * 2) with (2 * Zpos n) by lia.
    rewrite Z.pow_mul_r by lia. change (2 ^ 2) with 4. lia.
  - assert (H2 : 0 <= shr_m (SpecFloat.iter_pos shr_1 n mrs))
      by (rewrite IH by lia; apply Z.div_pos; lia).
    rewrite IH, IH by lia.
    rewrite !Z.div_div by lia. f_equal.
    rewrite Pos2Z.inj_xO. rewrite <- Z.pow_add_r by lia. f_equal. lia.
  - apply shr_1_m. exact Hm.
Qed.

Lemma iter_xO (s p : positive) : Zpos (Pos.iter xO p s) = Zpos p * 2 ^ Zpos s.
Proof.
  revert p. induction s as [|s IH] using Pos.peano_ind; intros p.
  - simpl. lia.
  - rewrite Pos.iter_succ. rewrite Pos2Z.inj_xO, IH.
    rewrite Pos2Z.inj_succ, Z.pow_succ_r by lia. lia.
Qed.

Lemma digits2_pos_bounds (p : positive) :
  2 ^ (Zpos (digits2_pos p) - 1) <= Zpos p < 2 ^ Zpos (digits2_pos p).
Proof.
  rewrite digits2_pos_log2.
  pose proof (Z.log2_spec (Zpos p) ltac:(lia)) as H.
  replace (Z.log2 (Zpos p) + 1 - 1) with (Z.log2 (Zpos p)) by lia.
  replace (Z.log2 (Zpos p) + 1) with (Z.succ (Z.log2 (Zpos p))) by lia.
  exact H.
Qed.

(** [static_cast<float>] of a positive [int] is a normal binary32 number not
    above 2^31. *)
Lemma float_of_int_shape (B : Z) :
  1 <= B < 2 ^ 31 ->
  exists m e,
    float_of_int B = S754_finite false m e /\
    2 ^ 23 <= Zpos m < 2 ^ 24 /\ -23 <= e <= 8 /\
    Zpos m * 2 ^ (e + 23) <= 2 ^ 54.
Proof.
  intros HB. destruct B as [|p|p]; try lia.
  unfold float_of_int, binary_normalize, binary_round.
  pose proof (digits2_pos_bounds p) as Hd.
  set (d := Zpos (digits2_pos p)) in *.
  assert (Hdr : 1 <= d <= 31).
  { split; [unfold d; lia|].
    destruct (Z_le_gt_dec d 31) as [H|H]; [exact H|exfalso].
    assert (2 ^ 31 <= 2 ^ (d - 1)) by (apply Z.pow_le_mono_r; lia). lia. }
  unfold fexp, emin.
  replace (Z.max (d + 0 - 24) (3 - 128 - 24)) with (d - 24) by lia.
  unfold shl_align.
  destruct (Z_lt_le_dec d 24) as [Hlt|Hge].
  - (* exact: the mantissa is shifted left *)
    destruct (d - 24 - 0) as [|s|s] eqn:Es; try lia.
    assert (Hs : Zpos s = 24 - d) by lia.
    assert (Hmz : 2 ^ 23 <= Zpos (Pos.iter xO p s) < 2 ^ 24).
    { rewrite iter_xO, Hs.
      replace (2 ^ 23) with (2 ^ (d - 1) * 2 ^ (24 - d))
        by (rewrite <- Z.pow_add_r by lia; f_equal; lia).
      replace (2 ^ 24) with (2 ^ d * 2 ^ (24 - d))
        by (rewrite <- Z.pow_add_r by lia; f_equal; lia).
      assert (0 < 2 ^ (24 - d)) by (apply Z.pow_pos_nonneg; lia). nia. }
    destruct (binary_round_aux_24 (Pos.iter xO p s) (d - 24) loc_Exact Hmz
                ltac:(lia)) as (m2 & e2 & -> & Hm2 & He2 & Hv).
    exists m2, e2. split; [reflexivity|]. split; [exact Hm2|]. split; [lia|].
    assert (2 ^ (e2 + 23) <= 2 ^ 30) by (apply Z.pow_le_mono_r; lia).
    change (2 ^ 54) with (2 ^ 24 * 2 ^ 30). nia.
  - (* rounded: the mantissa is shifted right by d - 24 *)
    replace (d - 24 - 0) with (d - 24) by lia.
    destruct (Z.eq_dec d 24) as [E24|N24].
    + rewrite E24. change (24 - 24) with 0.
      assert (Hp : 2 ^ 23 <= Zpos p < 2 ^ 24) by (rewrite E24 in Hd; exact Hd).
      destruct (binary_round_aux_24 p 0 loc_Exact Hp ltac:(lia))
        as (m2 & e2 & -> & Hm2 & He2 & Hv).
      exists m2, e2. split; [reflexivity|]. split; [exact Hm2|]. split; [lia|].
      assert (2 ^ (e2 + 23) <= 2 ^ 30) by (apply Z.pow_le_mono_r; lia).
      change (2 ^ 54) with (2 ^ 24 * 2 ^ 30). nia.
    + destruct (d - 24) as [|n|n] eqn:En; try lia.
      unfold binary_round_aux, shr_fexp at 1.
      unfold Zdigits2. fold d. unfold fexp, emin.
      replace (Z.max (d + 0 - 24) (3 - 128 - 24) - 0) with (Zpos n) by lia.
      unfold shr at 1.
      set (mrs := SpecFloat.iter_pos shr_1 n (shr_record_of_loc (Zpos p) loc_Exact)).
      assert (Hm1 : shr_m mrs = Zpos p / 2 ^ Zpos n).
      { unfold mrs. rewrite iter_shr_1_m; simpl; [reflexivity|lia]. }
      assert (Hpn : 0 < 2 ^ Zpos n) by (apply Z.pow_pos_nonneg; lia).
      assert (Hq : 2 ^ 23 <= shr_m mrs < 2 ^ 24).
      { rewrite Hm1. split.
        - apply Z.div_le_lower_bound; [lia|].
          replace (2 ^ Zpos n * 2 ^ 23) with (2 ^ (d - 1))
            by (rewrite <- Z.pow_add_r by lia; f_equal; lia). lia.
        - apply Z.div_lt_upper_bound; [lia|].
          replace (2 ^ Zpos n * 2 ^ 24) with (2 ^ d)
            by (rewrite <- Z.pow_add_r by lia; f_equal; lia). lia. }
      assert (Hr : shr_m mrs <=
                   round_nearest_even (shr_m mrs) (loc_of_shr_record mrs) <=
                   shr_m mrs + 1).
      { destruct (loc_of_shr_record mrs) as [|[]]; simpl; try lia.
        destruct (Z.even (shr_m mrs)); lia. }
      destruct (round_finish
                  (round_nearest_even (shr_m mrs) (loc_of_shr_record mrs))
                  (0 + Zpos n) ltac:(lia) ltac:(lia))
        as (m3 & e3 & -> & H3 & He3 & Hv).
      exists m3, e3. split; [reflexivity|]. split; [exact H3|]. split; [lia|].
      (* value is at most 2^24 * 2^n <= 2^31 *)
      assert (He3' : e3 = Zpos n \/ e3 = Zpos n + 1) by lia.
      assert (Hn7 : Zpos n <= 7) by lia.
      assert (Hb : Zpos m3 * 2 ^ (e3 - (0 + Zpos n)) <= 2 ^ 24) by lia.
      replace (e3 + 23) with ((e3 - (0 + Zpos n)) + (Zpos n + 23)) by lia.
      rewrite Z.pow_add_r by lia.
      assert (2 ^ (Zpos n + 23) <= 2 ^ 30) by (apply Z.pow_le_mono_r; lia).
      assert (0 < 2 ^ (Zpos n + 23)) by (apply Z.pow_pos_nonneg; lia).
      change (2 ^ 54) with (2 ^ 24 * 2 ^ 30). nia.
Qed.

Lemma sqrtf_trunc_bound (m : positive) (e : Z) :
  2 ^ 23 <= Zpos m < 2 ^ 24 -> -23 <= e <= 8 ->
  Zpos m * 2 ^ (e + 23) <= 2 ^ 54 ->
  0 <= int_of_float (sqrtf (S754_finite false m e)) < 2 ^ 16.
Proof.
  intros Hm He Hv.
  unfold sqrtf, SFsqrt, SFsqrt_core_binary.
  unfold Zdigits2. rewrite (digits2_pos_24 m Hm).
  unfold fexp, emin. rewrite !Z.div2_div.
  set (e' := Z.min (Z.max ((24 + e + 1) / 2 - 24) (3 - 128 - 24)) (e / 2)).
  assert (He' : e' = (25 + e) / 2 - 24).
  { unfold e'. replace (24 + e + 1) with (25 + e) by lia.
    pose proof (Z.div_mod (25 + e) 2 ltac:(lia)).
    pose proof (Z.mod_pos_bound (25 + e) 2 ltac:(lia)).
    pose proof (Z.div_mod e 2 ltac:(lia)).
    pose proof (Z.mod_pos_bound e 2 ltac:(lia)). lia. }
  assert (Hs : e - 2 * e' = 23 \/ e - 2 * e' = 24).
  { rewrite He'.
    pose proof (Z.div_mod (25 + e) 2 ltac:(lia)).
    pose proof (Z.mod_pos_bound (25 + e) 2 ltac:(lia)). lia. }
  assert (He'r : -23 <= e' <= -8).
  { rewrite He'.
    pose proof (Z.div_mod (25 + e) 2 ltac:(lia)).
    pose proof (Z.mod_pos_bound (25 + e) 2 ltac:(lia)). lia. }
  set (s := e - 2 * e') in *.
  assert (Hm' : match s with
                | Zpos _ => Z.shiftl (Zpos m) s
                | Z0 => Zpos m
                | Zneg _ => 0
                end = Zpos m * 2 ^ s).
  { destruct Hs as [-> | ->]; rewrite Z.shiftl_mul_pow2; lia. }
  rewrite Hm'.
  pose proof (Z.sqrtrem_spec (Zpos m * 2 ^ s) ltac:(destruct Hs as [-> | ->]; lia))
    as Hsq.
  destruct (Z.sqrtrem (Zpos m * 2 ^ s)) as [q r].
  destruct Hsq as [Hq Hr].
  (* the mantissa of the root has 24 digits, and q + 1 < 2^24 when e' = -8 *)
  assert (Hqr : 2 ^ 23 <= q < 2 ^ 24 /\ (e' = -8 -> q + 1 < 2 ^ 24)).
  { change (2 ^ 23) with 8388608 in *. change (2 ^ 24) with 16777216 in *.
    change (2 ^ 54) with 18014398509481984 in Hv.
    destruct Hs as [Es | Es]; rewrite Es in Hq.
    - change (2 ^ 23) with 8388608 in Hq. split; [nia|]. intros _. nia.
    - change (2 ^ 24) with 16777216 in Hq. split; [nia|]. intros E8.
      assert (e = 8) by lia. subst e.
      change (2 ^ (8 + 23)) with 2147483648 in Hv. nia. }
  destruct Hqr as [Hq24 Hq8].
  destruct q as [|qp|qp]; try lia.
  destruct (binary_round_aux_24 qp e'
              (if r =? 0 then loc_Exact
               else loc_Inexact (if r <=? Zpos qp then Lt else Gt))
              Hq24 ltac:(lia)) as (m2 & e2 & -> & Hm2 & He2 & Hv2).
  unfold int_of_float.
  destruct e2 as [|pe|pe]; try lia.
  rewrite Z.shiftr_div_pow2 by lia.
  assert (Hdiv : 0 <= Zpos m2 / 2 ^ Zpos pe < 2 ^ 16).
  { assert (Hpe : Zpos pe = - e' \/ Zpos pe = - e' - 1) by lia.
    assert (0 < 2 ^ Zpos pe) by (apply Z.pow_pos_nonneg; lia).
    split; [apply Z.div_pos; lia|].
    apply Z.div_lt_upper_bound; [lia|].
    rewrite <- Z.pow_add_r by lia.
    destruct (Z.eq_dec e' (-8)) as [E8|N8].
    - specialize (Hq8 E8). subst e'. rewrite E8 in *.
      destruct Hpe as [Hpe|Hpe]; rewrite Hpe in *.
      + change (Z.neg pe - -8) with (Zneg pe + 8) in Hv2.
        replace (Z.neg pe + 8) with 0 in Hv2 by lia.
        change (2 ^ 0) with 1 in Hv2. change (2 ^ (- -8 + 16)) with (2 ^ 24). lia.
      + replace (Z.neg pe - -8) with 1 in Hv2 by lia.
        change (2 ^ 1) with 2 in Hv2.
        change (2 ^ (- -8 - 1 + 16)) with (2 ^ 23). lia.
    - assert (2 ^ 24 <= 2 ^ (Zpos pe + 16)) by (apply Z.pow_le_mono_r; lia).
      lia. }
  change INT_MIN with (- 2 ^ 31). change INT_MAX with (2 ^ 31 - 1).
  assert (2 ^ 16 < 2 ^ 31) by (apply Z.pow_lt_mono_r; lia).
  destruct (- 2 ^ 31 <=? Zpos m2 / 2 ^ Zpos pe) eqn:E1; [|lia].
  destruct (Zpos m2 / 2 ^ Zpos pe <=? 2 ^ 31 - 1) eqn:E2; [|lia].
  simpl. exact Hdiv.
Qed.

(** ** Round to nearest: the exact error of the right shift *)

Lemma shr_1_rs (mrs : shr_record) :
  0 <= shr_m mrs ->
  shr_r (shr_1 mrs) = Z.odd (shr_m mrs) /\
  shr_s (shr_1 mrs) = shr_r mrs || shr_s mrs.
Proof.
  destruct mrs as [m r s]. cbn [shr_m shr_r shr_s]. intros Hm.
  destruct m as [|[q|q|]|q]; try lia; split; reflexivity.
Qed.

Lemma shr_1_inv (p k : Z) (mrs : shr_record) :
  0 <= k -> shr_inv p k mrs -> shr_inv p (k + 1) (shr_1 mrs).
Proof.
  intros Hk (Hm & u & Hu & Hv & Hs).
  assert (Hpk : 0 < 2 ^ k) by (apply Z.pow_pos_nonneg; lia).
  destruct (shr_1_rs mrs Hm) as [Er Es].
  unfold shr_inv. rewrite Er, Es, shr_1_m by exact Hm.
  rewrite Z.pow_add_r by lia. change (2 ^ 1) with 2.
  pose proof (Zdiv2_odd_eqn (shr_m mrs)) as E. rewrite Z.div2_div in E.
  set (m' := shr_m mrs / 2) in *. set (X := 2 ^ k) in *.
  split; [unfold m'; apply Z.div_pos; lia|].
  exists (2 * (p - shr_m mrs * X)).
  rewrite E at 2.
  assert (Hs' : shr_s mrs = false -> u = 0).
  { intros E0. destruct (Z.eq_dec u 0); [assumption|].
    assert (shr_s mrs = true) by (apply Hs; lia). congruence. }
  assert (Hs'' : shr_s mrs = true -> 0 < u) by apply Hs.
  destruct (Z.odd (shr_m mrs)), (shr_r mrs), (shr_s mrs); cbn [orb];
    try specialize (Hs' eq_refl); try specialize (Hs'' eq_refl);
    (split; [lia|]); (split; [lia|]); (split; [intros; lia|intros; try reflexivity; lia]).
Qed.

Lemma iter_shr_1_inv (p : Z) (n : positive) (k : Z) (mrs : shr_record) :
  0 <= k -> shr_inv p k mrs ->
  shr_inv p (k + Zpos n) (SpecFloat.iter_pos shr_1 n mrs).
Proof.
  revert k mrs. induction n as [n IH|n IH|]; intros k mrs Hk H;
    cbn [SpecFloat.iter_pos].
  - replace (k + Zpos n~1) with (k + 1 + Zpos n + Zpos n) by lia.
    apply IH; [lia|]. apply IH; [lia|]. now apply shr_1_inv.
  - replace (k + Zpos n~0) with (k + Zpos n + Zpos n) by lia.
    apply IH; [lia|]. now apply IH.
  - now apply shr_1_inv.
Qed.

(** Shifting right by n and rounding to nearest even is off by at most half
    a unit of the last place. *)
Lemma shr_round_error (p : positive) (n : positive) :
  let mrs := SpecFloat.iter_pos shr_1 n (shr_record_of_loc (Zpos p) loc_Exact) in
  2 * Z.abs (round_nearest_even (shr_m mrs) (loc_of_shr_record mrs) * 2 ^ Zpos n
             - Zpos p) <= 2 ^ Zpos n.
Proof.
  intros mrs.
  assert (H : shr_inv (Zpos p) (0 + Zpos n) mrs).
  { apply iter_shr_1_inv; [lia|]. split; [simpl; lia|].
    exists 0. cbn [shr_record_of_loc shr_m shr_r shr_s]. change (2 ^ 0) with 1.
    split; [lia|]. split; [lia|]. split; [congruence|lia]. }
  destruct H as (Hm & u & Hu & Hv & Hs). rewrite Z.add_0_l in Hu, Hv.
  set (X := 2 ^ Zpos n) in *.
  unfold loc_of_shr_record.
  destruct mrs as [m r s]. cbn [shr_m shr_r shr_s] in *.
  destruct r, s; cbn [round_nearest_even].
  - assert (0 < u) by (apply Hs; reflexivity). lia.
  - assert (u = 0).
    { destruct (Z.eq_dec u 0); [assumption|].
      assert (false = true) by (apply Hs; lia). congruence. }
    destruct (Z.even m); lia.
  - lia.
  - lia.
Qed.

(** [static_cast<float>] of a positive [int], with its rounding error: exact
    up to 24 bits, within half a unit of the last place above. *)
Lemma float_of_int_round (B : Z) :
  1 <= B < 2 ^ 31 ->
  exists m e,
    float_of_int B = S754_finite false m e /\
    2 ^ 23 <= Zpos m < 2 ^ 24 /\ -23 <= e <= 8 /\
    ((e <= 0 /\ Zpos m = B * 2 ^ (- e)) \/
     (exists n, 1 <= n <= 7 /\ 2 ^ (n + 23) <= B < 2 ^ (n + 24) /\
        n <= e <= n + 1 /\ 2 * Z.abs (Zpos m * 2 ^ e - B) <= 2 ^ n)).
Proof.
  intros HB. destruct B as [|p|p]; try lia.
  unfold float_of_int, binary_normalize, binary_round.
  pose proof (digits2_pos_bounds p) as Hd.
  set (d := Zpos (digits2_pos p)) in *.
  assert (Hdr : 1 <= d <= 31).
  { split; [unfold d; lia|].
    destruct (Z_le_gt_dec d 31) as [H|H]; [exact H|exfalso].
    assert (2 ^ 31 <= 2 ^ (d - 1)) by (apply Z.pow_le_mono_r; lia). lia. }
  unfold fexp, emin.
  replace (Z.max (d + 0 - 24) (3 - 128 - 24)) with (d - 24) by lia.
  unfold shl_align.
  assert (Hexact : forall mz : positive, 2 ^ 23 <= Zpos mz < 2 ^ 24 ->
            Zpos mz = Zpos p * 2 ^ (24 - d) -> d <= 24 ->
            exists m e,
              binary_round_aux 24 128 false (Zpos mz) (d - 24) loc_Exact =
              S754_finite false m e /\
              2 ^ 23 <= Zpos m < 2 ^ 24 /\ -23 <= e <= 8 /\
              ((e <= 0 /\ Zpos m = Zpos p * 2 ^ (- e)) \/
               (exists n, 1 <= n <= 7 /\ 2 ^ (n + 23) <= Zpos p < 2 ^ (n + 24) /\
                  n <= e <= n + 1 /\
                  2 * Z.abs (Zpos m * 2 ^ e - Zpos p) <= 2 ^ n))).
  { intros mz Hmz Emz Hd24.
    destruct (binary_round_aux_24 mz (d - 24) loc_Exact Hmz ltac:(lia))
      as (m2 & e2 & -> & Hm2 & He2 & Hv & _).
    cbn [round_nearest_even] in Hv.
    assert (e2 = d - 24).
    { destruct (Z.eq_dec e2 (d - 24)) as [|N]; [assumption|exfalso].
      replace (e2 - (d - 24)) with 1 in Hv by lia. change (2 ^ 1) with 2 in Hv.
      lia. }
    subst e2. replace (d - 24 - (d - 24)) with 0 in Hv by lia.
    change (2 ^ 0) with 1 in Hv.
    exists m2, (d - 24). split; [reflexivity|]. split; [exact Hm2|].
    split; [lia|]. left. split; [lia|].
    replace (- (d - 24)) with (24 - d) by lia. lia. }
  destruct (Z_lt_le_dec d 24) as [Hlt|Hge].
  - destruct (d - 24 - 0) as [|s|s] eqn:Es; try lia.
    assert (Hs : Zpos s = 24 - d) by lia.
    assert (Hmz : 2 ^ 23 <= Zpos (Pos.iter xO p s) < 2 ^ 24).
    { rewrite iter_xO, Hs.
      replace (2 ^ 23) with (2 ^ (d - 1) * 2 ^ (24 - d))
        by (rewrite <- Z.pow_add_r by lia; f_equal; lia).
      replace (2 ^ 24) with (2 ^ d * 2 ^ (24 - d))
        by (rewrite <- Z.pow_add_r by lia; f_equal; lia).
      assert (0 < 2 ^ (24 - d)) by (apply Z.pow_pos_nonneg; lia). nia. }
    apply Hexact; [exact Hmz| |lia]. now rewrite iter_xO, Hs.
  - replace (d - 24 - 0) with (d - 24) by lia.
    destruct (Z.eq_dec d 24) as [E24|N24].
    + assert (Hp : 2 ^ 23 <= Zpos p < 2 ^ 24) by (rewrite E24 in Hd; exact Hd).
      specialize (Hexact p Hp). rewrite E24 in Hexact |- *.
      apply Hexact; [|lia]. change (2 ^ (24 - 24)) with 1. lia.
    + clear Hexact. destruct (d - 24) as [|n|n] eqn:En; try lia.
      unfold binary_round_aux, shr_fexp at 1.
      unfold Zdigits2. fold d. unfold fexp, emin.
      replace (Z.max (d + 0 - 24) (3 - 128 - 24) - 0) with (Zpos n) by lia.
      unfold shr at 1.
      pose proof (shr_round_error p n) as Herr. cbv zeta in Herr.
      set (mrs := SpecFloat.iter_pos shr_1 n (shr_record_of_loc (Zpos p) loc_Exact))
        in *.
      assert (Hm1 : shr_m mrs = Zpos p / 2 ^ Zpos n).
      { unfold mrs. rewrite iter_shr_1_m; simpl; [reflexivity|lia]. }
      assert (Hpn : 0 < 2 ^ Zpos n) by (apply Z.pow_pos_nonneg; lia).
      assert (Hq : 2 ^ 23 <= shr_m mrs < 2 ^ 24).
      { rewrite Hm1. split.
        - apply Z.div_le_lower_bound; [lia|].
          replace (2 ^ Zpos n * 2 ^ 23) with (2 ^ (d - 1))
            by (rewrite <- Z.pow_add_r by lia; f_equal; lia). lia.
        - apply Z.div_lt_upper_bound; [lia|].
          replace (2 ^ Zpos n * 2 ^ 24) with (2 ^ d)
            by (rewrite <- Z.pow_add_r by lia; f_equal; lia). lia. }
      assert (Hr : shr_m mrs <=
                   round_nearest_even (shr_m mrs) (loc_of_shr_record mrs) <=
                   shr_m mrs + 1).
      { destruct (loc_of_shr_record mrs) as [|[]]; simpl; try lia.
        destruct (Z.even (shr_m mrs)); lia. }
      destruct (round_finish
                  (round_nearest_even (shr_m mrs) (loc_of_shr_record mrs))
                  (0 + Zpos n) ltac:(lia) ltac:(lia))
        as (m3 & e3 & -> & H3 & He3 & Hv).
      exists m3, e3. split; [reflexivity|]. split; [exact H3|]. split; [lia|].
      right. exists (Zpos n). split; [lia|]. split.
      { replace (Zpos n + 23) with (d - 1) by lia.
        replace (Zpos n + 24) with d by lia. exact Hd. }
      split; [lia|].
      replace (Zpos m3 * 2 ^ e3)
        with (round_nearest_even (shr_m mrs) (loc_of_shr_record mrs) * 2 ^ Zpos n);
        [exact Herr|].
      rewrite <- Hv. rewrite <- Z.mul_assoc, <- Z.pow_add_r by lia.
      do 2 f_equal. lia.
Qed.

(** [sqrtf] rounds to nearest: when the scaled radicand lies within half a
    unit of the square of the scaled k, the root is exactly k. *)
Lemma sqrtf_trunc_exact (m : positive) (e k : Z) :
  2 ^ 23 <= Zpos m < 2 ^ 24 -> -23 <= e <= 8 -> 1 <= k < 2 ^ 16 ->
  (let e' := (25 + e) / 2 - 24 in
   let K := k * 2 ^ (- e') in
   K * K - K < Zpos m * 2 ^ (e - 2 * e') <= K * K + K) ->
  int_of_float (sqrtf (S754_finite false m e)) = k.
Proof.
  intros Hm He Hk HK.
  unfold sqrtf, SFsqrt, SFsqrt_core_binary.
  unfold Zdigits2. rewrite (digits2_pos_24 m Hm).
  unfold fexp, emin. rewrite !Z.div2_div.
  set (e' := Z.min (Z.max ((24 + e + 1) / 2 - 24) (3 - 128 - 24)) (e / 2)).
  assert (He' : e' = (25 + e) / 2 - 24).
  { unfold e'. replace (24 + e + 1) with (25 + e) by lia.
    pose proof (Z.div_mod (25 + e) 2 ltac:(lia)).
    pose proof (Z.mod_pos_bound (25 + e) 2 ltac:(lia)).
    pose proof (Z.div_mod e 2 ltac:(lia)).
    pose proof (Z.mod_pos_bound e 2 ltac:(lia)). lia. }
  cbv zeta in HK. rewrite <- He' in HK. clearbody e'.
  assert (Hs : e - 2 * e' = 23 \/ e - 2 * e' = 24).
  { rewrite He'.
    pose proof (Z.div_mod (25 + e) 2 ltac:(lia)).
    pose proof (Z.mod_pos_bound (25 + e) 2 ltac:(lia)). lia. }
  assert (He'r : -23 <= e' <= -8).
  { rewrite He'.
    pose proof (Z.div_mod (25 + e) 2 ltac:(lia)).
    pose proof (Z.mod_pos_bound (25 + e) 2 ltac:(lia)). lia. }
  set (s := e - 2 * e') in *.
  assert (Hm' : match s with
                | Zpos _ => Z.shiftl (Zpos m) s
                | Z0 => Zpos m
                | Zneg _ => 0
                end = Zpos m * 2 ^ s).
  { destruct Hs as [-> | ->]; rewrite Z.shiftl_mul_pow2; lia. }
  rewrite Hm'.
  pose proof (Z.sqrtrem_spec (Zpos m * 2 ^ s) ltac:(destruct Hs as [-> | ->]; lia))
    as Hsq.
  destruct (Z.sqrtrem (Zpos m * 2 ^ s)) as [q r].
  destruct Hsq as [Hq Hr].
  assert (HP : 0 < 2 ^ (- e')) by (apply Z.pow_pos_nonneg; lia).
  set (K := k * 2 ^ (- e')) in *.
  assert (HK1 : 1 <= K) by (unfold K; nia).
  assert (Hq24 : 2 ^ 23 <= q < 2 ^ 24).
  { change (2 ^ 23) with 8388608 in *. change (2 ^ 24) with 16777216 in *.
    destruct Hs as [Es | Es]; rewrite Es in Hq.
    - change (2 ^ 23) with 8388608 in Hq. nia.
    - change (2 ^ 24) with 16777216 in Hq. nia. }
  assert (HqK : (q = K /\ r <= q) \/ (q = K - 1 /\ q < r)).
  { rewrite Hq in HK. nia. }
  destruct q as [|qp|qp]; try lia.
  destruct (binary_round_aux_24 qp e'
              (if r =? 0 then loc_Exact
               else loc_Inexact (if r <=? Zpos qp then Lt else Gt))
              Hq24 ltac:(lia)) as (m2 & e2 & -> & Hm2 & He2 & Hv2 & _).
  assert (Hround : Zpos m2 * 2 ^ (e2 - e') = K).
  { rewrite Hv2. destruct HqK as [[E1 E2] | [E1 E2]].
    - destruct (r =? 0); [simpl; lia|].
      destruct (r <=? Zpos qp) eqn:E; [simpl; lia|lia].
    - destruct (r =? 0) eqn:E0; [lia|].
      destruct (r <=? Zpos qp) eqn:E; [lia|].
      cbn [round_nearest_even]. lia. }
  unfold int_of_float.
  destruct e2 as [|pe|pe]; try lia.
  rewrite Z.shiftr_div_pow2 by lia.
  assert (Hdiv : Zpos m2 / 2 ^ Zpos pe = k).
  { assert (0 < 2 ^ Zpos pe) by (apply Z.pow_pos_nonneg; lia).
    assert (E : 2 ^ (- e') = 2 ^ (Z.neg pe - e') * 2 ^ Zpos pe).
    { rewrite <- Z.pow_add_r by lia. f_equal. lia. }
    assert (0 < 2 ^ (Z.neg pe - e')) by (apply Z.pow_pos_nonneg; lia).
    unfold K in Hround. rewrite E in Hround.
    assert (Zpos m2 = k * 2 ^ Zpos pe) by nia.
    replace (Zpos m2) with (k * 2 ^ Zpos pe) by lia.
    apply Z.div_mul. lia. }
  rewrite Hdiv.
  change INT_MIN with (- 2 ^ 31). change INT_MAX with (2 ^ 31 - 1).
  assert (2 ^ 16 < 2 ^ 31) by (apply Z.pow_lt_mono_r; lia).
  destruct (- 2 ^ 31 <=? k) eqn:E1; [|lia].
  destruct (k <=? 2 ^ 31 - 1) eqn:E2; [|lia].
  reflexivity.
Qed.

Lemma square_window (k P c F : Z) :
  0 < P -> 0 < k -> Z.abs (F - k * k) <= c -> c * P < k ->
  (k * P) * (k * P) - k * P < F * (P * P) <= (k * P) * (k * P) + k * P.
Proof.
  intros HP Hk HF Hc.
  assert (H1 : - c <= F - k * k <= c) by lia.
  assert (H2 : F * (P * P) - (k * P) * (k * P) = (F - k * k) * P * P) by ring.
  assert (H3 : - (c * P) * P <= (F - k * k) * P * P <= (c * P) * P) by nia.
  assert (H4 : (c * P) * P < k * P) by nia.
  lia.
Qed.

(** The binary32 pipeline recovers k from k*k for every k whose square is
    an [int]. *)
Lemma CPP_kernel_size_square (k : Z) :
  1 <= k -> k * k < 2 ^ 31 -> CPP_kernel_size (k * k) = k.
Proof.
  intros Hk Hsq. unfold CPP_kernel_size.
  assert (Hk16 : k < 2 ^ 16).
  { change (2 ^ 16) with 65536. change (2 ^ 31) with 2147483648 in Hsq. nia. }
  destruct (float_of_int_round (k * k) ltac:(nia))
    as (m & e & Hf & Hm & He & Hcase).
  rewrite Hf. apply sqrtf_trunc_exact; [exact Hm|exact He|lia|]. cbv zeta.
  pose proof (Z.div_mod (25 + e) 2 ltac:(lia)) as Hdm.
  pose proof (Z.mod_pos_bound (25 + e) 2 ltac:(lia)) as Hmb.
  set (e' := (25 + e) / 2 - 24) in *.
  assert (He' : -23 <= e' <= -8) by lia.
  assert (HP : 0 < 2 ^ (- e')) by (apply Z.pow_pos_nonneg; lia).
  assert (Hs : 23 <= e - 2 * e' <= 24) by lia.
  clearbody e'. clear Hdm Hmb.
  destruct Hcase as [[He0 Em] | (n & Hn & HB & Hen & Herr)].
  - replace (Zpos m * 2 ^ (e - 2 * e'))
      with ((k * 2 ^ (- e')) * (k * 2 ^ (- e'))); [nia|].
    rewrite Em.
    replace (k * k * 2 ^ (- e) * 2 ^ (e - 2 * e'))
      with (k * k * (2 ^ (- e) * 2 ^ (e - 2 * e'))) by ring.
    rewrite <- Z.pow_add_r by lia.
    replace (- e + (e - 2 * e')) with (- e' + - e') by lia.
    rewrite Z.pow_add_r by lia. ring.
  - replace (Zpos m * 2 ^ (e - 2 * e'))
      with ((Zpos m * 2 ^ e) * (2 ^ (- e') * 2 ^ (- e'))).
    2:{ rewrite <- Z.mul_assoc. f_equal.
        rewrite <- !Z.pow_add_r by lia. f_equal. lia. }
    apply (square_window k (2 ^ (- e')) (2 ^ (n - 1))); [exact HP|lia| |].
    + replace (2 ^ n) with (2 * 2 ^ (n - 1)) in Herr; [lia|].
      rewrite <- Z.pow_succ_r by lia. f_equal. lia.
    + rewrite <- Z.pow_add_r by lia.
      set (t := n - 1 + - e').
      assert (Ht : 0 <= t /\ t + t <= n + 22) by (unfold t; lia).
      assert (H1 : 2 ^ t * 2 ^ t <= 2 ^ (n + 22)).
      { rewrite <- Z.pow_add_r by lia. apply Z.pow_le_mono_r; lia. }
      assert (H2 : 2 ^ (n + 22) < 2 ^ (n + 23)) by (apply Z.pow_lt_mono_r; lia).
      assert (H3 : 0 < 2 ^ t) by (apply Z.pow_pos_nonneg; lia).
      nia.
Qed.

Lemma CPP_kernel_size_bound (B : Z) :
  0 <= B < 2 ^ 31 -> 0 <= CPP_kernel_size B < 2 ^ 16.
Proof.
  intros HB. destruct (Z.eq_dec B 0) as [->|Hne]; [vm_compute; split; congruence|].
  destruct (float_of_int_shape B ltac:(lia)) as (m & e & Hf & Hm & He & Hv).
  unfold CPP_kernel_size. rewrite Hf. now apply sqrtf_trunc_bound.
Qed.

Lemma int_wrap_kernel_square (k B : Z) :
  0 <= k < 2 ^ 16 -> 0 <= B -> int_wrap (k * k) = B -> k * k = B.
Proof.
  intros Hk HB Hw. unfold int_wrap in Hw.
  change (2 ^ 16) with 65536 in Hk.
  change (2 ^ 31) with 2147483648 in Hw. change (2 ^ 32) with 4294967296 in Hw.
  assert (0 <= k * k < 4294967296) by nia.
  destruct (Z_lt_le_dec (k * k) 2147483648) as [Hlo|Hhi].
  - rewrite Z.mod_small in Hw by lia. lia.
  - replace (k * k + 2147483648) with (k * k - 2147483648 + 1 * 4294967296) in Hw
      by lia.
    rewrite Z.mod_add, Z.mod_small in Hw by lia. lia.
Qed.

Lemma int_wrap_in_range (z : Z) : 0 <= z < 2 ^ 31 -> int_wrap z = z.
Proof.
  intros Hz. unfold int_wrap.
  change (2 ^ 31) with 2147483648 in *. change (2 ^ 32) with 4294967296.
  rewrite Z.mod_small by lia. lia.
Qed.

Lemma rem2_odd (k : Z) : 0 <= k -> Z.rem k 2 = 1 <-> Z.odd k = true.
Proof.
  intros Hk. rewrite Z.rem_mod_nonneg by lia. rewrite Zmod_odd.
  destruct (Z.odd k); split; congruence.
Qed.

Lemma odd_abs (k : Z) : Z.odd k = true -> Z.odd (Z.abs k) = true /\ 1 <= Z.abs k.
Proof. destruct k as [|[p|p|]|[p|p|]]; simpl; intros H; split; (congruence || lia). Qed.

Lemma CPP_kernel_accepted_square (B : Z) :
  0 <= B <= INT_MAX -> CPP_kernel_accepted B = true ->
  0 < CPP_kernel_size B /\ Z.odd (CPP_kernel_size B) = true /\
  CPP_kernel_size B * CPP_kernel_size B = B.
Proof.
  intros HB Hacc. unfold INT_MAX in HB. unfold CPP_kernel_accepted in Hacc.
  cbv zeta in Hacc. apply andb_prop in Hacc as [Hsq Hodd].
  apply Z.eqb_eq in Hsq, Hodd.
  pose proof (CPP_kernel_size_bound B ltac:(lia)) as Hk.
  apply int_wrap_kernel_square in Hsq; [|exact Hk|lia].
  apply rem2_odd in Hodd; [|lia].
  repeat split; try assumption.
  destruct (Z.eq_dec (CPP_kernel_size B) 0) as [E|]; [|lia].
  rewrite E in Hodd. discriminate Hodd.
Qed.

Lemma CPP_odd_square_accepted (B : Z) :
  0 <= B <= INT_MAX -> pac_channel_rule B -> CPP_kernel_accepted B = true.
Proof.
  intros HB (k & Hodd & ->). unfold INT_MAX in HB.
  destruct (odd_abs k Hodd) as [Ha H1].
  assert (Hsq : Z.abs k * Z.abs k = k * k) by lia.
  rewrite <- Hsq in *.
  unfold CPP_kernel_accepted. cbv zeta.
  rewrite CPP_kernel_size_square by lia.
  rewrite int_wrap_in_range by lia. rewrite Z.eqb_refl.
  apply Z.eqb_eq. apply rem2_odd; [lia|exact Ha].
Qed.

Lemma SepCPP_kernel_accepted_iff (B : Z) :
  0 <= B -> SepCPP_kernel_accepted B = true <-> sep_channel_rule B.
Proof.
  intros HB. unfold SepCPP_kernel_accepted, sep_channel_rule.
  rewrite andb_true_iff, !Z.eqb_eq.
  rewrite Z.quot_div_nonneg by lia.
  assert (0 <= B / 2) by (apply Z.div_pos; lia).
  rewrite (rem2_odd (B / 2)) by lia.
  rewrite Z.rem_mod_nonneg by lia. rewrite Zmod_even.
  destruct (Z.even B); split; intros [H1 H2]; split; congruence.
Qed.

Lemma SepCPP_kernel_accepted_half (B : Z) :
  0 <= B -> SepCPP_kernel_accepted B = true ->
  0 < Z.quot B 2 /\ Z.odd (Z.quot B 2) = true /\ 2 * Z.quot B 2 = B.
Proof.
  intros HB Hacc. unfold SepCPP_kernel_accepted in Hacc.
  apply andb_prop in Hacc as [Hev Hodd]. apply Z.eqb_eq in Hev, Hodd.
  rewrite Z.quot_div_nonneg in * by lia.
  assert (0 <= B / 2) by (apply Z.div_pos; lia).
  apply rem2_odd in Hodd; [|lia].
  rewrite Z.rem_mod_nonneg in Hev by lia.
  pose proof (Z.div_mod B 2 ltac:(lia)).
  repeat split; try assumption; [|lia].
  destruct (Z.eq_dec (B / 2) 0) as [E|]; [|lia].
  rewrite E in Hodd. discriminate Hodd.
Qed.

(** C7.  For every positive channel count B of type [int], the derivation
    K = (int) sqrtf((float) B) followed by the checks K*K == B and
    K % 2 == 1 accepts B if and only if B is the square of an odd integer. *)
Theorem CPP_kernel_rule_exact (B : Z) :
  1 <= B <= INT_MAX ->
  CPP_kernel_accepted B = true <-> pac_channel_rule B.
Proof.
  intros HB. split.
  - intros Hacc.
    destruct (CPP_kernel_accepted_square B ltac:(lia) Hacc) as (_ & Hodd & Hsq).
    exists (CPP_kernel_size B). split; [exact Hodd|now symmetry].
  - intros Hrule. apply CPP_odd_square_accepted; [lia|exact Hrule].
Qed.

(** * Shape validation *)

Section Validation.
Context {Dtype : Type}.
Implicit Types b : Blob Dtype.

Lemma CHECK_EQ_cases (a b : Z) (msg : string) :
  (a = b /\ CHECK_EQ a b msg = Ok tt) \/
  (a <> b /\ CHECK_EQ a b msg = Fatal (CheckFailed msg)).
Proof.
  unfold CHECK_EQ. destruct (Z.eqb_spec a b); [left|right]; tauto.
Qed.

Lemma shape_4 b (N C H W : Z) :
  shape_ b = [N; C; H; W] ->
  num_axes b = 4 /\ shape b 0 = Ok N /\ shape b 1 = Ok C /\
  shape b (-2) = Ok H /\ shape b (-1) = Ok W.
Proof.
  intros E. unfold shape, CanonicalAxisIndex, num_axes. rewrite E. cbn. tauto.
Qed.

Lemma num_axes_4 b :
  num_axes b = 4 -> exists N C H W, shape_ b = [N; C; H; W].
Proof.
  unfold num_axes. destruct (shape_ b) as [|N [|C [|H [|W [|X l]]]]];
    cbn [length]; intros E; try lia.
  now exists N, C, H, W.
Qed.

(** A result of the dense validator is either the members derived from two
    agreeing 4-axis shapes whose channel count passes both checks, or a
    failed check. *)
Lemma CPPLayer_Reshape_members_cases b0 b1 :
  (exists N C H W B,
     shape_ b0 = [N; C; H; W] /\ shape_ b1 = [N; B; H; W] /\
     CPP_kernel_accepted B = true /\
     CPPLayer_Reshape_members b0 b1 =
     Ok {| kernel_ := CPP_kernel_size B;
           padding_ := Z.quot (CPP_kernel_size B - 1) 2;
           height_ := H; width_ := W; batch_num_ := N; channels_ := C |}) \/
  ((exists msg, CPPLayer_Reshape_members b0 b1 = Fatal (CheckFailed msg)) /\
   ~ (exists N C H W B,
        shape_ b0 = [N; C; H; W] /\ shape_ b1 = [N; B; H; W] /\
        CPP_kernel_accepted B = true)).
Proof.
  unfold CPPLayer_Reshape_members.
  destruct (CHECK_EQ_cases (num_axes b0) 4 "inputs must have exactly 4 axes.")
    as [[E0 ->]|[E0 ->]].
  2:{ right. split; [eexists; reflexivity|].
      intros (N & C & H & W & B & Hs0 & _). apply E0.
      now destruct (shape_4 b0 _ _ _ _ Hs0). }
  destruct (CHECK_EQ_cases (num_axes b0) (num_axes b1)
              "both input blobs must have the same number of axes.")
    as [[E1 ->]|[E1 ->]].
  2:{ right. split; [eexists; reflexivity|].
      intros (N & C & H & W & B & Hs0 & Hs1 & _). apply E1.
      destruct (shape_4 b0 _ _ _ _ Hs0) as [-> _].
      now destruct (shape_4 b1 _ _ _ _ Hs1) as [-> _]. }
  rewrite E0 in E1. symmetry in E1.
  destruct (num_axes_4 b0 E0) as (N & C & H & W & Hs0).
  destruct (num_axes_4 b1 E1) as (N1 & B & H1 & W1 & Hs1).
  destruct (shape_4 b0 _ _ _ _ Hs0) as (_ & -> & -> & -> & ->).
  destruct (shape_4 b1 _ _ _ _ Hs1) as (_ & -> & -> & -> & ->).
  cbn [mbind outcome_bind].
  destruct (CHECK_EQ_cases N N1
              "both input blobs must have the same batch dimension length.")
    as [[E2 ->]|[E2 ->]].
  2:{ right. split; [eexists; reflexivity|].
      intros (N' & C' & H' & W' & B' & Hs0' & Hs1' & _). congruence. }
  cbn [mbind outcome_bind].
  destruct (CHECK_EQ_cases (int_wrap (CPP_kernel_size B * CPP_kernel_size B)) B
              "input channel dimension must be a square of an integer.")
    as [[E3 ->]|[E3 ->]].
  2:{ right. split; [eexists; reflexivity|].
      intros (N' & C' & H' & W' & B' & Hs0' & Hs1' & Hacc).
      assert (B' = B) as -> by congruence.
      unfold CPP_kernel_accepted in Hacc. cbv zeta in Hacc.
      apply andb_prop in Hacc as [Hacc _]. apply Z.eqb_eq in Hacc. contradiction. }
  cbn [mbind outcome_bind].
  destruct (CHECK_EQ_cases (Z.rem (CPP_kernel_size B) 2) 1
              "input kernel size must be an odd integer.")
    as [[E4 ->]|[E4 ->]].
  2:{ right. split; [eexists; reflexivity|].
      intros (N' & C' & H' & W' & B' & Hs0' & Hs1' & Hacc).
      assert (B' = B) as -> by congruence.
      unfold CPP_kernel_accepted in Hacc. cbv zeta in Hacc.
      apply andb_prop in Hacc as [_ Hacc]. apply Z.eqb_eq in Hacc. contradiction. }
  cbn [mbind outcome_bind].
  destruct (CHECK_EQ_cases W W1 "inputs must have the same height.")
    as [[E5 ->]|[E5 ->]].
  2:{ right. split; [eexists; reflexivity|].
      intros (N' & C' & H' & W' & B' & Hs0' & Hs1' & _). congruence. }
  cbn [mbind outcome_bind].
  destruct (CHECK_EQ_cases H H1 "inputs must have the same width.")
    as [[E6 ->]|[E6 ->]].
  2:{ right. split; [eexists; reflexivity|].
      intros (N' & C' & H' & W' & B' & Hs0' & Hs1' & _). congruence. }
  cbn [mbind outcome_bind].
  left. exists N, C, H, W, B. subst N1 H1 W1.
  repeat split; try assumption.
  unfold CPP_kernel_accepted. cbv zeta.
  now rewrite E3, E4, !Z.eqb_refl.
Qed.

Lemma SepCPPLayer_Reshape_members_cases b0 b1 :
  (exists N C H W B,
     shape_ b0 = [N; C; H; W] /\ shape_ b1 = [N; B; H; W] /\
     SepCPP_kernel_accepted B = true /\
     SepCPPLayer_Reshape_members b0 b1 =
     Ok {| kernel_ := Z.quot B 2;
           padding_ := Z.quot (Z.quot B 2 - 1) 2;
           height_ := H; width_ := W; batch_num_ := N; channels_ := C |}) \/
  ((exists msg, SepCPPLayer_Reshape_members b0 b1 = Fatal (CheckFailed msg)) /\
   ~ (exists N C H W B,
        shape_ b0 = [N; C; H; W] /\ shape_ b1 = [N; B; H; W] /\
        SepCPP_kernel_accepted B = true)).
Proof.
  unfold SepCPPLayer_Reshape_members.
  destruct (CHECK_EQ_cases (num_axes b0) 4 "inputs must have exactly 4 axes.")
    as [[E0 ->]|[E0 ->]].
  2:{ right. split; [eexists; reflexivity|].
      intros (N & C & H & W & B & Hs0 & _). apply E0.
      now destruct (shape_4 b0 _ _ _ _ Hs0). }
  destruct (CHECK_EQ_cases (num_axes b0) (num_axes b1)
              "both input blobs must have the same number of axes.")
    as [[E1 ->]|[E1 ->]].
  2:{ right. split; [eexists; reflexivity|].
      intros (N & C & H & W & B & Hs0 & Hs1 & _). apply E1.
      destruct (shape_4 b0 _ _ _ _ Hs0) as [-> _].
      now destruct (shape_4 b1 _ _ _ _ Hs1) as [-> _]. }
  rewrite E0 in E1. symmetry in E1.
  destruct (num_axes_4 b0 E0) as (N & C & H & W & Hs0).
  destruct (num_axes_4 b1 E1) as (N1 & B & H1 & W1 & Hs1).
  destruct (shape_4 b0 _ _ _ _ Hs0) as (_ & -> & -> & -> & ->).
  destruct (shape_4 b1 _ _ _ _ Hs1) as (_ & -> & -> & -> & ->).
  cbn [mbind outcome_bind].
  destruct (CHECK_EQ_cases N N1
              "both input blobs must have the same batch dimension length.")
    as [[E2 ->]|[E2 ->]].
  2:{ right. split; [eexists; reflexivity|].
      intros (N' & C' & H' & W' & B' & Hs0' & Hs1' & _). congruence. }
  cbn [mbind outcome_bind].
  destruct (CHECK_EQ_cases (Z.rem B 2) 0
              "kernel blob channel dimension must be an even integer.")
    as [[E3 ->]|[E3 ->]].
  2:{ right. split; [eexists; reflexivity|].
      intros (N' & C' & H' & W' & B' & Hs0' & Hs1' & Hacc).
      assert (B' = B) as -> by congruence.
      unfold SepCPP_kernel_accepted in Hacc.
      apply andb_prop in Hacc as [Hacc _]. apply Z.eqb_eq in Hacc. contradiction. }
  cbn [mbind outcome_bind].
  destruct (CHECK_EQ_cases (Z.rem (Z.quot B 2) 2) 1
              "input kernel size must be an odd integer.")
    as [[E4 ->]|[E4 ->]].
  2:{ right. split; [eexists; reflexivity|].
      intros (N' & C' & H' & W' & B' & Hs0' & Hs1' & Hacc).
      assert (B' = B) as -> by congruence.
      unfold SepCPP_kernel_accepted in Hacc.
      apply andb_prop in Hacc as [_ Hacc]. apply Z.eqb_eq in Hacc. contradiction. }
  cbn [mbind outcome_bind].
  destruct (CHECK_EQ_cases W W1 "inputs must have the same height.")
    as [[E5 ->]|[E5 ->]].
  2:{ right. split; [eexists; reflexivity|].
      intros (N' & C' & H' & W' & B' & Hs0' & Hs1' & _). congruence. }
  cbn [mbind outcome_bind].
  destruct (CHECK_EQ_cases H H1 "inputs must have the same width.")
    as [[E6 ->]|[E6 ->]].
  2:{ right. split; [eexists; reflexivity|].
      intros (N' & C' & H' & W' & B' & Hs0' & Hs1' & _). congruence. }
  cbn [mbind outcome_bind].
  left. exists N, C, H, W, B. subst N1 H1 W1.
  repeat split; try assumption.
  unfold SepCPP_kernel_accepted. now rewrite E3, E4, !Z.eqb_refl.
Qed.

Lemma inputs_agree_shapes (rule : Z -> Prop) b0 b1 :
  inputs_agree rule b0 b1 <->
  exists N C H W B,
    shape_ b0 = [N; C; H; W] /\ shape_ b1 = [N; B; H; W] /\ rule B.
Proof.
  unfold inputs_agree. split.
  - intros (A0 & A1 & EN & EH & EW & HR).
    destruct (num_axes_4 b0 A0) as (N & C & H & W & Hs0).
    destruct (num_axes_4 b1 A1) as (N1 & B & H1 & W1 & Hs1).
    rewrite Hs0, Hs1 in *. cbn in EN, EH, EW, HR. subst N1 H1 W1.
    now exists N, C, H, W, B.
  - intros (N & C & H & W & B & Hs0 & Hs1 & HR).
    destruct (shape_4 b0 _ _ _ _ Hs0) as (A0 & _).
    destruct (shape_4 b1 _ _ _ _ Hs1) as (A1 & _).
    rewrite Hs0, Hs1. cbn. tauto.
Qed.

Lemma dims_valid_channels b (N B H W : Z) :
  dims_valid b -> shape_ b = [N; B; H; W] -> 0 <= B <= INT_MAX.
Proof.
  unfold dims_valid. intros Hv E. rewrite E in Hv.
  inversion Hv as [|? ? _ Hv']. inversion Hv' as [|? ? HB _]. exact HB.
Qed.

Variable dzero : Dtype.

Lemma ReshapeLike_shape b other :
  shape_ (ReshapeLike dzero b other) = shape_ other.
Proof.
  unfold ReshapeLike.
  destruct (count other 0 <=? Z.of_nat (length (data_ b))); reflexivity.
Qed.

Lemma quot_half (K : Z) : 0 < K -> Z.quot (K - 1) 2 = (K - 1) / 2.
Proof. intros HK. apply Z.quot_div_nonneg; lia. Qed.

Lemma ReshapeLike_allocated b other :
  length (data_ b) = length (diff_ b) ->
  blob_allocated (ReshapeLike dzero b other).
Proof.
  intros Hcap. unfold blob_allocated, ReshapeLike, count.
  destruct (Z.leb_spec (fold_right Z.mul 1 (drop (Z.to_nat 0) (shape_ other)))
              (Z.of_nat (length (data_ b)))) as [Hle|Hgt];
    cbn [shape_ data_ diff_].
  - rewrite <- Hcap. split; exact Hle.
  - rewrite length_replicate. lia.
Qed.

Lemma dims_valid_4 b (N C H W : Z) :
  dims_valid b -> shape_ b = [N; C; H; W] ->
  0 <= N /\ 0 <= C /\ 0 <= H /\ 0 <= W.
Proof.
  unfold dims_valid. intros Hv E. rewrite E in Hv.
  inversion Hv as [|? ? HN Hv1]. inversion Hv1 as [|? ? HC Hv2].
  inversion Hv2 as [|? ? HH Hv3]. inversion Hv3 as [|? ? HW _]. lia.
Qed.

(** Validated blobs with allocated buffers are well-shaped inputs of the
    forward and backward passes. *)
Lemma CPPLayer_Reshape_dense_shaped (io : Blobs Dtype) L io' :
  dims_valid (bottom0 io) -> dims_valid (bottom1 io) ->
  blob_allocated (bottom0 io) -> blob_allocated (bottom1 io) ->
  length (data_ (top0 io)) = length (diff_ (top0 io)) ->
  CPPLayer_Reshape dzero io = Ok (L, io') -> dense_shaped L io'.
Proof.
  intros Hv0 Hv1 Ha0 Ha1 Hcap. unfold CPPLayer_Reshape.
  destruct (CPPLayer_Reshape_members_cases (bottom0 io) (bottom1 io))
    as [(N & C & H & W & B & Hs0 & Hs1 & Hacc & ->)|[[msg ->] _]];
    cbn [mbind outcome_bind]; intros E; [|discriminate E].
  inversion E; subst L io'; clear E.
  pose proof (dims_valid_channels _ _ _ _ _ Hv1 Hs1) as HB.
  destruct (CPP_kernel_accepted_square B HB Hacc) as (HK & Hodd & Hsq).
  destruct (dims_valid_4 _ _ _ _ _ Hv0 Hs0) as (HN & HC & HH & HW).
  unfold dense_shaped, common_shaped.
  cbn [top0 bottom0 bottom1 kernel_ padding_ height_ width_ batch_num_ channels_].
  rewrite ReshapeLike_shape, Hsq.
  repeat split; try assumption; try apply Ha0; try apply Ha1;
    try (apply rem2_odd; [lia|assumption]);
    apply ReshapeLike_allocated; assumption.
Qed.

Lemma SepCPPLayer_Reshape_sep_shaped (io : Blobs Dtype) L io' :
  dims_valid (bottom0 io) -> dims_valid (bottom1 io) ->
  blob_allocated (bottom0 io) -> blob_allocated (bottom1 io) ->
  length (data_ (top0 io)) = length (diff_ (top0 io)) ->
  SepCPPLayer_Reshape dzero io = Ok (L, io') -> sep_shaped L io'.
Proof.
  intros Hv0 Hv1 Ha0 Ha1 Hcap. unfold SepCPPLayer_Reshape.
  destruct (SepCPPLayer_Reshape_members_cases (bottom0 io) (bottom1 io))
    as [(N & C & H & W & B & Hs0 & Hs1 & Hacc & ->)|[[msg ->] _]];
    cbn [mbind outcome_bind]; intros E; [|discriminate E].
  inversion E; subst L io'; clear E.
  pose proof (dims_valid_channels _ _ _ _ _ Hv1 Hs1) as HB.
  destruct (SepCPP_kernel_accepted_half B ltac:(lia) Hacc) as (HK & Hodd & Hsq).
  destruct (dims_valid_4 _ _ _ _ _ Hv0 Hs0) as (HN & HC & HH & HW).
  unfold sep_shaped, common_shaped.
  cbn [top0 bottom0 bottom1 kernel_ padding_ height_ width_ batch_num_ channels_].
  rewrite ReshapeLike_shape, Hsq.
  repeat split; try assumption; try apply Ha0; try apply Ha1;
    try (apply rem2_odd; [lia|assumption]);
    apply ReshapeLike_allocated; assumption.
Qed.

(** C5.  For blobs with valid extents, each validator succeeds if and only
    if both inputs have exactly 4 axes, agree on the batch count and on
    both spatial extents, and the channel count of the kernel blob
    satisfies the rule of the layer (dense: the square of an odd integer;
    separable: even with an odd half).  On success the output blob has the
    shape of the image blob and the members K, P = (K-1)/2, N, C, H, W are
    set; on any violation the call is fatal with a failed check. *)
Theorem Reshape_validates (io : Blobs Dtype) :
  dims_valid (bottom0 io) -> dims_valid (bottom1 io) ->
  ((inputs_agree pac_channel_rule (bottom0 io) (bottom1 io) <->
    exists L io', CPPLayer_Reshape dzero io = Ok (L, io')) /\
   (~ inputs_agree pac_channel_rule (bottom0 io) (bottom1 io) ->
    exists msg, CPPLayer_Reshape dzero io = Fatal (CheckFailed msg)) /\
   (forall L io', CPPLayer_Reshape dzero io = Ok (L, io') ->
    validated (fun K => K * K) io L io')) /\
  ((inputs_agree sep_channel_rule (bottom0 io) (bottom1 io) <->
    exists L io', SepCPPLayer_Reshape dzero io = Ok (L, io')) /\
   (~ inputs_agree sep_channel_rule (bottom0 io) (bottom1 io) ->
    exists msg, SepCPPLayer_Reshape dzero io = Fatal (CheckFailed msg)) /\
   (forall L io', SepCPPLayer_Reshape dzero io = Ok (L, io') ->
    validated (fun K => 2 * K) io L io')).
Proof.
  intros Hv0 Hv1. split.
  - unfold CPPLayer_Reshape. rewrite inputs_agree_shapes.
    destruct (CPPLayer_Reshape_members_cases (bottom0 io) (bottom1 io))
      as [(N & C & H & W & B & Hs0 & Hs1 & Hacc & ->)|[[msg ->] Hno]];
      cbn [mbind outcome_bind].
    + pose proof (dims_valid_channels _ _ _ _ _ Hv1 Hs1) as HB.
      destruct (CPP_kernel_accepted_square B HB Hacc) as (HK & Hodd & Hsq).
      split; [|split].
      * split; [intros _; eexists _, _; reflexivity|].
        intros _. exists N, C, H, W, B. repeat split; try assumption.
        exists (CPP_kernel_size B). split; [exact Hodd|now symmetry].
      * intros Hnot. exfalso. apply Hnot.
        exists N, C, H, W, B. repeat split; try assumption.
        exists (CPP_kernel_size B). split; [exact Hodd|now symmetry].
      * intros L io' E. inversion E; subst L io'; clear E.
        unfold validated. cbn [top0 bottom0 bottom1 kernel_ padding_ height_
                               width_ batch_num_ channels_].
        rewrite ReshapeLike_shape, Hs1. cbn [nth].
        repeat split; try assumption; [now symmetry|now apply quot_half].
    + assert (Hno' : ~ exists N C H W B,
                shape_ (bottom0 io) = [N; C; H; W] /\
                shape_ (bottom1 io) = [N; B; H; W] /\ pac_channel_rule B).
      { intros (N & C & H & W & B & Hs0 & Hs1 & HR). apply Hno.
        exists N, C, H, W, B. repeat split; try assumption.
        apply CPP_odd_square_accepted; [|exact HR].
        exact (dims_valid_channels _ _ _ _ _ Hv1 Hs1). }
      split; [|split].
      * split; [intros HA; contradiction|intros (L & io' & E); discriminate E].
      * intros _. now exists msg.
      * intros L io' E. discriminate E.
  - unfold SepCPPLayer_Reshape. rewrite inputs_agree_shapes.
    destruct (SepCPPLayer_Reshape_members_cases (bottom0 io) (bottom1 io))
      as [(N & C & H & W & B & Hs0 & Hs1 & Hacc & ->)|[[msg ->] Hno]];
      cbn [mbind outcome_bind].
    + pose proof (dims_valid_channels _ _ _ _ _ Hv1 Hs1) as HB.
      destruct (SepCPP_kernel_accepted_half B ltac:(lia) Hacc) as (HK & Hodd & Hsq).
      split; [|split].
      * split; [intros _; eexists _, _; reflexivity|].
        intros _. exists N, C, H, W, B. repeat split; try assumption;
          apply SepCPP_kernel_accepted_iff; (assumption || lia).
      * intros Hnot. exfalso. apply Hnot.
        exists N, C, H, W, B. repeat split; try assumption;
          apply SepCPP_kernel_accepted_iff; (assumption || lia).
      * intros L io' E. inversion E; subst L io'; clear E.
        unfold validated. cbn [top0 bottom0 bottom1 kernel_ padding_ height_
                               width_ batch_num_ channels_].
        rewrite ReshapeLike_shape, Hs1. cbn [nth].
        repeat split; try assumption; [now symmetry|now apply quot_half].
    + assert (Hno' : ~ exists N C H W B,
                shape_ (bottom0 io) = [N; C; H; W] /\
                shape_ (bottom1 io) = [N; B; H; W] /\ sep_channel_rule B).
      { intros (N & C & H & W & B & Hs0 & Hs1 & HR). apply Hno.
        exists N, C, H, W, B. repeat split; try assumption.
        apply SepCPP_kernel_accepted_iff; [|exact HR].
        pose proof (dims_valid_channels _ _ _ _ _ Hv1 Hs1). lia. }
      split; [|split].
      * split; [intros HA; contradiction|intros (L & io' & E); discriminate E].
      * intros _. now exists msg.
      * intros L io' E. discriminate E.
Qed.

(** C9.  The accelerated forward and backward entry points of the dense
    layer are fatal with the not-implemented error for every layer state,
    every flag vector and every input; no blob is produced. *)
Theorem CPPLayer_gpu_not_implemented (L : LayerState) (pd : list bool)
    (io : Blobs Dtype) :
  CPPLayer_Forward_gpu L io = Fatal NotImplementedYet /\
  CPPLayer_Backward_gpu L pd io = Fatal NotImplementedYet.
Proof. split; reflexivity. Qed.
End Validation.

(** * The theorems at concrete inputs *)

Ltac shaped :=
  unfold dense_shaped, sep_shaped, common_shaped, blob_allocated, in_image;
  repeat split; try reflexivity; vm_compute; congruence.

Lemma dense_io3_shaped : dense_shaped L3 dense_io3.
Proof. shaped. Qed.

Lemma sep_io3_shaped : sep_shaped L3 sep_io3.
Proof. shaped. Qed.

Lemma identity_io_shaped : dense_shaped L1 identity_io.
Proof. shaped. Qed.

Lemma range3 (i : Z) : 0 <= i < 3 -> i = 0 \/ i = 1 \/ i = 2.
Proof. lia. Qed.

(** At the corner pixel (0,0) four of the nine offsets are in bounds: with
    weights 2 the output is 2 * (1 + 2 + 4 + 5) = 24. *)
Lemma CPP_forward_zero_padding_witness :
  dense_shaped L3 dense_io3 /\ in_image L3 0 0 0 0 /\
  data_at 0 (top0 (CPPLayer_Forward_cpu 0 Z.add Z.mul L3 dense_io3)) 0 0 0 0 = 24.
Proof.
  assert (Hs : dense_shaped L3 dense_io3) by shaped.
  assert (Hi : in_image L3 0 0 0 0) by shaped.
  split; [exact Hs|]. split; [exact Hi|].
  destruct (CPP_forward_zero_padding 0 1 Z.add Z.mul Z.sub Z.opp Zth
              L3 dense_io3 0 0 0 0 Hs Hi) as (H1 & _ & _).
  rewrite H1. vm_compute. reflexivity.
Defined.

(** The separable kernels of [sep_io3] expand to the dense kernels of
    [dense_io3] (1 * 2 = 2); the two layers agree at the centre pixel. *)
Lemma SepCPP_forward_equals_dense_witness :
  sep_shaped L3 sep_io3 /\ dense_shaped L3 dense_io3 /\
  data_at 0 (top0 (SepCPPLayer_Forward_cpu 0 Z.add Z.mul L3 sep_io3)) 0 0 1 1 =
  data_at 0 (top0 (CPPLayer_Forward_cpu 0 Z.add Z.mul L3 dense_io3)) 0 0 1 1.
Proof.
  assert (Hs : sep_shaped L3 sep_io3) by shaped.
  assert (Hd : dense_shaped L3 dense_io3) by shaped.
  split; [exact Hs|]. split; [exact Hd|].
  apply (SepCPP_forward_equals_dense 0 1 Z.add Z.mul Z.sub Z.opp Zth
           L3 sep_io3 dense_io3 Hs Hd eq_refl).
  - intros n i j y x Hn Hi Hj Hy Hx.
    assert (n = 0) as -> by (cbn in Hn; lia).
    destruct (range3 i Hi) as [-> | [-> | ->]];
      destruct (range3 j Hj) as [-> | [-> | ->]];
      destruct (range3 y Hy) as [-> | [-> | ->]];
      destruct (range3 x Hx) as [-> | [-> | ->]]; reflexivity.
  - shaped.
Defined.

(** C1, at [Dtype = float].  On the 1x1x1x3 image holding 2^24, 1, 1 with
    K = 3, horizontal weights 1 and vertical weights 3, both inputs are well
    shaped and every dense weight is the binary32 product of its two
    separable weights.  At the middle pixel the separable layer rounds the
    row sum 2^24 + 1 + 1 to 2^24 and stores 3 * 2^24 = 50331648; the dense
    layer adds 3 * 2^24 + 3 + 3 and stores 50331656.  The two outputs differ
    by 8, not by at most 1e-3. *)
Lemma SepCPP_forward_float_tolerance_fails :
  sep_shaped L_row f32_sep_io /\ dense_shaped L_row f32_dense_io /\
  data_ (bottom0 f32_dense_io) = data_ (bottom0 f32_sep_io) /\
  (forall n i j y x,
     0 <= n < batch_num_ L_row -> 0 <= i < kernel_ L_row -> 0 <= j < kernel_ L_row ->
     0 <= y < height_ L_row -> 0 <= x < width_ L_row ->
     data_at f32_zero (bottom1 f32_dense_io) n (i * kernel_ L_row + j) y x =
     f32_mul (data_at f32_zero (bottom1 f32_sep_io) n j y x)
             (data_at f32_zero (bottom1 f32_sep_io) n (kernel_ L_row + i) y x)) /\
  in_image L_row 0 0 0 1 /\
  data_at f32_zero
    (top0 (SepCPPLayer_Forward_cpu f32_zero f32_add f32_mul L_row f32_sep_io))
    0 0 0 1 = float_of_int 50331648 /\
  data_at f32_zero
    (top0 (CPPLayer_Forward_cpu f32_zero f32_add f32_mul L_row f32_dense_io))
    0 0 0 1 = float_of_int 50331656 /\
  within_1e3
    (data_at f32_zero
       (top0 (SepCPPLayer_Forward_cpu f32_zero f32_add f32_mul L_row f32_sep_io))
       0 0 0 1)
    (data_at f32_zero
       (top0 (CPPLayer_Forward_cpu f32_zero f32_add f32_mul L_row f32_dense_io))
       0 0 0 1) = false.
Proof.
  split; [shaped|]. split; [shaped|]. split; [reflexivity|].
  split; [|split; [shaped|]; repeat split; vm_compute; reflexivity].
  intros n i j y x Hn Hi Hj Hy Hx.
  assert (n = 0) as -> by (cbn in Hn; lia).
  assert (y = 0) as -> by (cbn in Hy; lia).
  destruct (range3 i Hi) as [-> | [-> | ->]];
    destruct (range3 j Hj) as [-> | [-> | ->]];
    destruct (range3 x Hx) as [-> | [-> | ->]]; vm_compute; reflexivity.
Qed.

(** K = 1 with unit weights: the output at (1, 2, 3, 3) is the image value 96. *)
Lemma CPP_forward_K1_pointwise_witness :
  dense_shaped L1 identity_io /\ kernel_ L1 = 1 /\
  data_at 0 (top0 (CPPLayer_Forward_cpu 0 Z.add Z.mul L1 identity_io)) 1 2 3 3 = 96.
Proof.
  assert (Hs : dense_shaped L1 identity_io) by shaped.
  split; [exact Hs|]. split; [reflexivity|].
  destruct (CPP_forward_K1_pointwise 0 1 Z.add Z.mul Z.sub Z.opp Zth
              L1 identity_io Hs eq_refl) as (_ & _ & Hid).
  rewrite Hid.
  - reflexivity.
  - intros n y x Hn Hy Hx.
    assert (Hn' : n = 0 \/ n = 1) by (cbn in Hn; lia).
    assert (Hy' : y = 0 \/ y = 1 \/ y = 2 \/ y = 3) by (cbn in Hy; lia).
    assert (Hx' : x = 0 \/ x = 1 \/ x = 2 \/ x = 3) by (cbn in Hx; lia).
    destruct Hn' as [-> | ->];
      destruct Hy' as [-> | [-> | [-> | ->]]];
      destruct Hx' as [-> | [-> | [-> | ->]]]; reflexivity.
  - shaped.
Defined.

(** Corner pixel (0,0), centre offset (1,1): the gradient is
    src * img[0,0] = 1, and increasing that weight by 5 increases the
    pairing by 5. *)
Lemma CPP_backward_kernel_gradient_witness :
  dense_shaped L3 dense_io3 /\ in_bounds L3 0 3 1 = true /\
  diff_at 0 (bottom1 (CPPLayer_Backward_cpu 0 Z.add Z.mul L3 [true; true] dense_io3))
    0 4 0 0 = 1 /\
  pairing 0 Z.add Z.mul L3 top3
    (top0 (CPPLayer_Forward_cpu 0 Z.add Z.mul L3
             (with_kernel_data dense_io3
                (store (data_ dense_kernels3) 36
                   (load 0 (data_ dense_kernels3) 36 + 5))))) =
  pairing 0 Z.add Z.mul L3 top3
    (top0 (CPPLayer_Forward_cpu 0 Z.add Z.mul L3 dense_io3)) + 5 * 1.
Proof.
  assert (Hs : dense_shaped L3 dense_io3) by shaped.
  split; [exact Hs|]. split; [reflexivity|].
  destruct (CPP_backward_kernel_gradient 0 1 Z.add Z.mul Z.sub Z.opp Zth
              L3 [true; true] dense_io3 0 0 0 1 1 Hs)
    as [Hg Hd]; try (cbn; lia); try reflexivity.
  split.
  - etransitivity; [exact Hg|reflexivity].
  - exact (Hd 5).
Defined.

(** Corner pixel (0,0): the horizontal gradient at j = 1 is
    (img[0,0] + img[1,0]) * 2 = 10, the vertical gradient at i = 1 is
    (img[0,0] + img[0,1]) * 1 = 3. *)
Lemma SepCPP_backward_kernel_gradient_witness :
  sep_shaped L3 sep_io3 /\
  diff_at 0 (bottom1 (SepCPPLayer_Backward_cpu 0 Z.add Z.mul L3 [true; true] sep_io3))
    0 1 0 0 = 10 /\
  diff_at 0 (bottom1 (SepCPPLayer_Backward_cpu 0 Z.add Z.mul L3 [true; true] sep_io3))
    0 (3 + 1) 0 0 = 3.
Proof.
  assert (Hs : sep_shaped L3 sep_io3) by shaped.
  split; [exact Hs|].
  destruct (SepCPP_backward_kernel_gradient 0 1 Z.add Z.mul Z.sub Z.opp Zth
              L3 [true; true] sep_io3 0 0 0 Hs)
    as [Hh Hv]; try (cbn; lia).
  split.
  - destruct (Hh 1) as [Hg _]; [cbn; lia|reflexivity|].
    etransitivity; [exact Hg|reflexivity].
  - destruct (Hv 1) as [Hg _]; [cbn; lia|reflexivity|].
    etransitivity; [exact Hg|reflexivity].
Defined.

(** Corner pixel (0,0): the offsets pointing above or left of the image are
    out of bounds, and the stale sevens of the gradient buffers survive both
    backward passes. *)
Lemma backward_out_of_bounds_retained_witness :
  dense_shaped L3 dense_io3 /\ sep_shaped L3 sep_io3 /\
  diff_at 0 (bottom1 (CPPLayer_Backward_cpu 0 Z.add Z.mul L3 [true; true] dense_io3))
    0 (0 * 3 + 0) 0 0 = 7 /\
  diff_at 0 (bottom1 (SepCPPLayer_Backward_cpu 0 Z.add Z.mul L3 [true; true] sep_io3))
    0 0 0 0 = 7 /\
  diff_at 0 (bottom1 (SepCPPLayer_Backward_cpu 0 Z.add Z.mul L3 [true; true] sep_io3))
    0 (3 + 0) 0 0 = 7.
Proof.
  assert (Hd : dense_shaped L3 dense_io3) by shaped.
  assert (Hs : sep_shaped L3 sep_io3) by shaped.
  split; [exact Hd|]. split; [exact Hs|].
  destruct (backward_out_of_bounds_retained 0 Z.add Z.mul L3 [true; true]
              dense_io3 0 0 0) as [Hdense _]; try (cbn; lia).
  destruct (backward_out_of_bounds_retained 0 Z.add Z.mul L3 [true; true]
              sep_io3 0 0 0) as [_ Hsep]; try (cbn; lia).
  destruct (Hsep Hs) as [Hh Hv].
  split; [|split].
  - etransitivity; [apply (Hdense Hd 0 0); [cbn; lia|cbn; lia|reflexivity]|].
    reflexivity.
  - etransitivity; [apply (Hh 0); [cbn; lia|reflexivity]|]. reflexivity.
  - etransitivity; [apply (Hv 0); [cbn; lia|reflexivity]|]. reflexivity.
Defined.

(** Nine channels: K = 3 is derived and accepted. *)
Lemma CPP_kernel_rule_exact_witness :
  1 <= 9 <= INT_MAX /\ (CPP_kernel_accepted 9 = true <-> pac_channel_rule 9).
Proof.
  assert (H : 1 <= 9 <= INT_MAX) by (vm_compute; split; congruence).
  split; [exact H|]. exact (CPP_kernel_rule_exact 9 H).
Defined.

(** The shapes of [dense_io3] pass the dense validator, those of [sep_io3] the
    separable one. *)
Lemma Reshape_validates_witness :
  dims_valid (bottom0 dense_io3) /\ dims_valid (bottom1 dense_io3) /\
  (exists L io', CPPLayer_Reshape 0 dense_io3 = Ok (L, io')) /\
  (exists msg, SepCPPLayer_Reshape 0 dense_io3 = Fatal (CheckFailed msg)).
Proof.
  assert (H0 : dims_valid (bottom0 dense_io3))
    by (repeat constructor; vm_compute; congruence).
  assert (H1 : dims_valid (bottom1 dense_io3))
    by (repeat constructor; vm_compute; congruence).
  split; [exact H0|]. split; [exact H1|].
  destruct (Reshape_validates 0 dense_io3 H0 H1) as [[Hiff _] [_ [Hfail _]]].
  split.
  - apply Hiff. unfold inputs_agree. repeat split.
    exists 3. split; reflexivity.
  - apply Hfail. intros (_ & _ & _ & _ & _ & Hev & _). discriminate Hev.
Defined.

(** * The expansion oracle agrees with the separable layer *)

(** The derivation of the kernel size depends on the root being taken in
    single precision: in double precision the square of 4097 is rounded to
    4097 * 4097 - 1 by the conversion to [float], its root falls below 4097,
    and the truncation yields 4096. *)
Remark sqrt_double_misses_4097 :
  CPP_kernel_size (4097 * 4097) = 4097 /\
  int_of_float (sqrt_double (double_of_float (float_of_int (4097 * 4097)))) = 4096.
Proof. split; vm_compute; reflexivity. Qed.

(** The element count of a four-axis shape with positive extents that fits
    an [int]. *)
Lemma Reshape_count_4 (N C H W : Z) :
  0 < N -> 0 < C -> 0 < H -> 0 < W -> N * C * H * W <= INT_MAX ->
  Reshape_count [N; C; H; W] 1 = Ok (N * C * H * W).
Proof.
  intros HN HC HH HW Hle.
  assert (step : forall c d, 0 < c -> 0 < d -> c * d <= INT_MAX ->
            (d <? 0) = false /\ (negb (c =? 0) && (Z.quot INT_MAX c <? d)) = false).
  { intros c d Hc Hd Hcd. split; [lia|].
    apply andb_false_iff. right. apply Z.ltb_ge.
    rewrite Z.quot_div_nonneg by (unfold INT_MAX; lia).
    apply Z.div_le_lower_bound; lia. }
  assert (H3 : 0 < N * C * H) by (repeat apply Z.mul_pos_pos; assumption).
  assert (H2 : 0 < N * C) by (apply Z.mul_pos_pos; assumption).
  assert (L3 : N * C * H <= N * C * H * W) by nia.
  assert (L2 : N * C <= N * C * H) by nia.
  assert (L1 : N <= N * C) by nia.
  cbn [Reshape_count]. rewrite !Z.mul_1_l.
  destruct (step 1 N) as [-> ->]; [lia|lia|lia|].
  destruct (step N C) as [-> ->]; [lia|lia|lia|].
  destruct (step (N * C) H) as [-> ->]; [lia|lia|lia|].
  destruct (step (N * C * H) W) as [-> ->]; [lia|lia|lia|].
  reflexivity.
Qed.

Section Oracle.
Context {Dtype : Type}.
Variables (dzero done : Dtype) (dadd dmul dsub : Dtype -> Dtype -> Dtype)
          (dopp : Dtype -> Dtype).
Hypothesis Dtype_ring : ring_theory dzero done dadd dmul dsub dopp eq.

Local Infix "⊗" := dmul (at level 40, left associativity).

Lemma shape_4_pos (b : Blob Dtype) (N C H W : Z) :
  shape_ b = [N; C; H; W] -> shape b 2 = Ok H /\ shape b 3 = Ok W.
Proof.
  intros E. unfold shape, CanonicalAxisIndex, num_axes. rewrite E. cbn. tauto.
Qed.

Lemma expand_filters_stores (L : LayerState) (kernels_ expanded : Blob Dtype) :
  shape_ expanded = [batch_num_ L; kernel_ L * kernel_ L; height_ L; width_ L] ->
  0 <= kernel_ L ->
  batch_num_ L * (kernel_ L * kernel_ L) * height_ L * width_ L <=
    Z.of_nat (length (data_ expanded)) ->
  stores_into dzero
    (fun e => exists n, 0 <= n < batch_num_ L /\
              exists y, 0 <= y < height_ L /\
              exists x, 0 <= x < width_ L /\
              exists j, 0 <= j < kernel_ L /\
              exists i, 0 <= i < kernel_ L /\
                e = offset expanded n (j * kernel_ L + i) y x)
    (fun e v => forall n y x j i,
       0 <= n < batch_num_ L -> 0 <= y < height_ L -> 0 <= x < width_ L ->
       0 <= j < kernel_ L -> 0 <= i < kernel_ L ->
       e = offset expanded n (j * kernel_ L + i) y x ->
       v = data_at dzero kernels_ n (j + kernel_ L) y x ⊗
           data_at dzero kernels_ n i y x)
    (data_ expanded)
    (expand_filters dzero dmul kernels_ expanded (kernel_ L)
       (batch_num_ L) (height_ L) (width_ L)).
Proof.
  intros Hs HK Hlen. unfold expand_filters.
  apply stores_into_for_range. intros n b1 Hn Hb1.
  apply stores_into_for_range. intros y b2 Hy Hb2.
  apply stores_into_for_range. intros x b3 Hx Hb3.
  apply stores_into_for_range. intros j b4 Hj Hb4.
  apply stores_into_for_range. intros i b5 Hi Hb5.
  assert (Hch : 0 <= j * kernel_ L + i < kernel_ L * kernel_ L)
    by (apply flat_bound; lia).
  apply (stores_into_store dzero).
  - rewrite (offset_4 _ _ _ _ _ _ _ _ _ Hs).
    pose proof (index4_bound (batch_num_ L) (kernel_ L * kernel_ L) (height_ L)
                  (width_ L) n (j * kernel_ L + i) y x Hn Hch Hy Hx) as Hb.
    rewrite Hb5, Hb4, Hb3, Hb2, Hb1. lia.
  - intros n' y' x' j' i' Hn' Hy' Hx' Hj' Hi' E.
    rewrite !(offset_4 _ _ _ _ _ _ _ _ _ Hs) in E. symmetry in E.
    apply kernel_index_eq in E as (-> & -> & -> & -> & ->); try assumption.
    reflexivity.
Qed.

Lemma ReshapeLike_again (b other : Blob Dtype) :
  ReshapeLike dzero (ReshapeLike dzero b other) other = ReshapeLike dzero b other.
Proof.
  unfold ReshapeLike.
  destruct (Z.leb_spec (count other 0) (Z.of_nat (length (data_ b)))) as [Hle|Hgt];
    cbn [data_ diff_ shape_].
  - apply Z.leb_le in Hle. rewrite Hle. reflexivity.
  - rewrite length_replicate.
    replace (count other 0 <=? Z.of_nat (Z.to_nat (count other 0))) with true
      by (symmetry; apply Z.leb_le; lia).
    reflexivity.
Qed.

Lemma Blob_Reshape_fresh_4 (N C H W : Z) :
  0 < N -> 0 < C -> 0 < H -> 0 < W -> N * C * H * W <= INT_MAX ->
  Blob_Reshape dzero {| shape_ := []; data_ := []; diff_ := [] |} [N; C; H; W] =
  Ok {| shape_ := [N; C; H; W];
        data_ := replicate (Z.to_nat (N * C * H * W)) dzero;
        diff_ := replicate (Z.to_nat (N * C * H * W)) dzero |}.
Proof.
  intros HN HC HH HW Hle. unfold Blob_Reshape.
  rewrite Reshape_count_4 by assumption.
  assert (0 < N * C * H * W) by (repeat apply Z.mul_pos_pos; assumption).
  cbn [length mbind outcome_bind data_].
  replace (kMaxBlobAxes <? Z.of_nat 4) with false by reflexivity.
  cbn [mbind outcome_bind].
  replace (N * C * H * W <=? Z.of_nat 0) with false
    by (symmetry; apply Z.leb_gt; lia).
  reflexivity.
Qed.

(** X23.  On a well-shaped separable input with positive extents whose
    expanded kernel blob [N, K*K, H, W] has at most [INT_MAX] elements, and
    with Caffe computing on the CPU, [reference_cpp] returns, and its output
    equals the output of [SepCPPLayer::Forward_cpu] element by element: in
    exact arithmetic the forward test of the separable layer compares equal
    values. *)
Lemma reference_cpp_agrees (L : LayerState) (io : Blobs Dtype) (output_ : Blob Dtype) :
  sep_shaped L io ->
  0 < batch_num_ L -> 0 < channels_ L -> 0 < height_ L -> 0 < width_ L ->
  batch_num_ L * (kernel_ L * kernel_ L) * height_ L * width_ L <= INT_MAX ->
  length (data_ output_) = length (diff_ output_) ->
  exists io_ref,
    reference_cpp dzero dadd dmul CPU (bottom0 io) (bottom1 io) output_ = Ok io_ref /\
    forall n c y x, in_image L n c y x ->
      data_at dzero (top0 (SepCPPLayer_Forward_cpu dzero dadd dmul L io)) n c y x =
      data_at dzero (top0 io_ref) n c y x.
Proof.
  intros Hsep HN1 HC1 HH1 HW1 Hsize Hcap.
  pose proof Hsep as [(Hs0 & Hst & HN & HC & HH & HW & Hodd & HP & Ha0 & Ha1 & Hat) Hs1].
  pose proof (kernel_nonneg L Hodd) as HK.
  assert (HKK1 : 0 < kernel_ L * kernel_ L) by (apply Z.mul_pos_pos; lia).
  assert (HKK : kernel_ L * kernel_ L <= INT_MAX).
  { assert (0 < batch_num_ L * (kernel_ L * kernel_ L)) by (apply Z.mul_pos_pos; lia).
    assert (0 < batch_num_ L * (kernel_ L * kernel_ L) * height_ L)
      by (apply Z.mul_pos_pos; lia).
    assert (kernel_ L * kernel_ L <= batch_num_ L * (kernel_ L * kernel_ L)) by nia.
    assert (batch_num_ L * (kernel_ L * kernel_ L) <=
            batch_num_ L * (kernel_ L * kernel_ L) * height_ L) by nia.
    assert (batch_num_ L * (kernel_ L * kernel_ L) * height_ L <=
            batch_num_ L * (kernel_ L * kernel_ L) * height_ L * width_ L) by nia.
    lia. }
  unfold reference_cpp.
  destruct (shape_4 (bottom1 io) _ _ _ _ Hs1) as (_ & -> & -> & _ & _).
  destruct (shape_4_pos (bottom1 io) _ _ _ _ Hs1) as (-> & ->).
  cbn [mbind outcome_bind].
  replace (Z.quot (2 * kernel_ L) 2) with (kernel_ L)
    by (rewrite Z.mul_comm, Z.quot_mul; lia).
  replace (int_wrap (kernel_ L * kernel_ L)) with (kernel_ L * kernel_ L).
  2:{ unfold int_wrap. unfold INT_MAX in HKK.
      rewrite Z.mod_small by lia. lia. }
  rewrite Blob_Reshape_fresh_4 by assumption.
  cbn [mbind outcome_bind shape_].
  set (ref_shape := [batch_num_ L; kernel_ L * kernel_ L; height_ L; width_ L]).
  set (cnt := batch_num_ L * (kernel_ L * kernel_ L) * height_ L * width_ L) in *.
  assert (Hcnt : 0 < cnt).
  { unfold cnt. repeat apply Z.mul_pos_pos; lia. }
  set (fresh := {| shape_ := ref_shape; data_ := replicate (Z.to_nat cnt) dzero;
                   diff_ := replicate (Z.to_nat cnt) dzero |}).
  set (expanded := {| shape_ := ref_shape;
                      data_ := expand_filters dzero dmul (bottom1 io) fresh
                                 (kernel_ L) (batch_num_ L) (height_ L) (width_ L);
                      diff_ := diff_ fresh |}).
  assert (Hfresh : shape_ fresh = ref_shape) by reflexivity.
  destruct (expand_filters_stores L (bottom1 io) fresh Hfresh ltac:(lia))
    as (Hlen & Hval & _).
  { cbn [fresh data_]. rewrite length_replicate. fold cnt. lia. }
  (* the dense validator accepts the expanded blob and derives the same members *)
  assert (HB : 0 <= kernel_ L * kernel_ L <= INT_MAX) by lia.
  assert (Hrule : pac_channel_rule (kernel_ L * kernel_ L)).
  { exists (kernel_ L). split; [|reflexivity]. apply rem2_odd; [lia|exact Hodd]. }
  pose proof (CPP_odd_square_accepted _ HB Hrule) as Hacc.
  assert (Hsize' : CPP_kernel_size (kernel_ L * kernel_ L) = kernel_ L).
  { apply CPP_kernel_size_square; [lia|]. unfold INT_MAX in HB. lia. }
  assert (HL : {| kernel_ := kernel_ L; padding_ := padding_ L;
                  height_ := height_ L; width_ := width_ L;
                  batch_num_ := batch_num_ L; channels_ := channels_ L |} = L)
    by (destruct L; reflexivity).
  assert (HRe : forall t,
            CPPLayer_Reshape dzero {| bottom0 := bottom0 io; bottom1 := expanded;
                                      top0 := t |} =
            Ok (L, {| bottom0 := bottom0 io; bottom1 := expanded;
                      top0 := ReshapeLike dzero t (bottom0 io) |})).
  { intros t. unfold CPPLayer_Reshape. cbn [bottom0 bottom1 top0].
    destruct (CPPLayer_Reshape_members_cases (bottom0 io) expanded)
      as [(N & C & H & W & B & Hs0' & Hs1' & _ & ->)|[_ Hno]].
    2:{ exfalso. apply Hno.
        exists (batch_num_ L), (channels_ L), (height_ L), (width_ L),
               (kernel_ L * kernel_ L). repeat split; assumption. }
    rewrite Hs0 in Hs0'. injection Hs0' as <- <- <- <-.
    cbn [expanded shape_] in Hs1'. unfold ref_shape in Hs1'. injection Hs1' as <-.
    cbn [mbind outcome_bind]. rewrite Hsize', <- HP, HL. reflexivity. }
  rewrite HRe. cbn [mbind outcome_bind snd].
  unfold CPPLayer_Forward. rewrite HRe. cbn [mbind outcome_bind fst snd].
  rewrite ReshapeLike_again.
  set (io_ref := {| bottom0 := bottom0 io; bottom1 := expanded;
                    top0 := ReshapeLike dzero output_ (bottom0 io) |}).
  assert (Hden : dense_shaped L io_ref).
  { assert (Hae : blob_allocated expanded).
    { destruct (count_4 expanded (batch_num_ L) (kernel_ L * kernel_ L)
                  (height_ L) (width_ L) eq_refl) as (Hc & _).
      unfold blob_allocated. rewrite Hc. cbn [expanded data_ diff_ fresh].
      rewrite Hlen. cbn [fresh data_]. rewrite length_replicate. fold cnt. lia. }
    split; [|reflexivity]. unfold common_shaped.
    cbn [io_ref bottom0 bottom1 top0]. rewrite ReshapeLike_shape.
    repeat (split; [assumption || reflexivity|]).
    now apply ReshapeLike_allocated. }
  exists (CPPLayer_Forward_cpu dzero dadd dmul L io_ref).
  split; [reflexivity|].
  intros n c y x Hin.
  rewrite (SepCPP_forward_data dzero done dadd dmul dsub dopp Dtype_ring)
    by assumption.
  rewrite (CPP_forward_data dzero dadd dmul) by assumption.
  rewrite (CPP_pixel_terms dzero done dadd dmul dsub dopp Dtype_ring)
    by assumption.
  destruct Hin as (Hn & Hc & Hy & Hx).
  apply (outer_product_sum dzero done dadd dmul dsub dopp Dtype_ring).
  intros i j Hi Hj.
  apply (window_range L) in Hi as [Hi _]. apply (window_range L) in Hj as [Hj _].
  unfold data_at at 1. cbn [io_ref bottom1 expanded data_].
  change (offset _ n (i * kernel_ L + j) y x)
    with (offset fresh n (i * kernel_ L + j) y x).
  assert (Hdom : exists n0, 0 <= n0 < batch_num_ L /\
            exists y0, 0 <= y0 < height_ L /\
            exists x0, 0 <= x0 < width_ L /\
            exists j0, 0 <= j0 < kernel_ L /\
            exists i0, 0 <= i0 < kernel_ L /\
              offset fresh n (i * kernel_ L + j) y x =
              offset fresh n0 (j0 * kernel_ L + i0) y0 x0).
  { exists n. split; [exact Hn|]. exists y. split; [exact Hy|].
    exists x. split; [exact Hx|]. exists i. split; [exact Hi|].
    exists j. split; [exact Hj|]. reflexivity. }
  rewrite (Hval _ Hdom n y x i j Hn Hy Hx Hi Hj eq_refl).
  rewrite (Z.add_comm i (kernel_ L)).
  apply (Rmul_comm Dtype_ring).
Qed.
End Oracle.


(** * Further loop laws *)

Section MoreLoopLaws.
Context {S : Type}.
Implicit Types (body : Z -> S -> S) (s : S).

Lemma for_range_split body s (lo mid hi : Z) :
  lo <= mid <= hi ->
  for_range lo hi body s = for_range mid hi body (for_range lo mid body s).
Proof.
  intros [H1 H2]. revert hi H2. apply Z_up_ind.
  - now rewrite (for_range_nil _ _ mid mid) by lia.
  - intros h Hh IH. rewrite !for_range_last by lia. now rewrite IH.
Qed.

Lemma for_range_id body s (lo hi : Z) :
  (forall i s', lo <= i < hi -> body i s' = s') -> for_range lo hi body s = s.
Proof.
  intros Hid. destruct (Z_le_gt_dec lo hi) as [Hle|Hgt].
  - apply (for_range_ind (fun _ r => r = s)); [exact Hle|reflexivity|].
    intros i s' Hi ->. now apply Hid.
  - apply for_range_nil. lia.
Qed.

(** X1.  The clamped-start, dual-bound loop of the four passes runs its
    body on exactly the kernel offsets i of [0, kernel_) whose image
    coordinate pos - padding_ + i lies in [0, dim), in increasing order: it
    equals the loop over all of [0, kernel_) that tests the bounds at every
    step.  This holds for every position, extent, padding and kernel size. *)
Theorem smart_for_guarded (L : LayerState) (pos dim : Z)
    (body2 : Z -> Z -> S -> S) s :
  smart_for L pos dim body2 s =
  for_range 0 (kernel_ L)
    (fun i s' => if in_bounds L pos dim i
                 then body2 i (pos - padding_ L + i) s' else s') s.
Proof.
  rewrite smart_for_range.
  set (lo := Z.max (padding_ L - pos) 0).
  set (hi := Z.min (kernel_ L) (dim + padding_ L - pos)).
  set (g := fun i s' => if in_bounds L pos dim i
                        then body2 i (pos - padding_ L + i) s' else s').
  assert (Hout : forall i s', i < lo \/ hi <= i -> 0 <= i < kernel_ L -> g i s' = s').
  { intros i s' Hi HiK. unfold g, in_bounds.
    destruct (0 <=? pos - padding_ L + i) eqn:E1;
      destruct (pos - padding_ L + i <? dim) eqn:E2; simpl; try reflexivity.
    lia. }
  assert (Hin : forall i s', lo <= i < hi -> g i s' = body2 i (pos - padding_ L + i) s').
  { intros i s' Hi. unfold g, in_bounds.
    destruct (0 <=? pos - padding_ L + i) eqn:E1; [|lia].
    destruct (pos - padding_ L + i <? dim) eqn:E2; [reflexivity|lia]. }
  destruct (Z_lt_ge_dec lo hi) as [Hlt|Hge].
  - rewrite (for_range_split g s 0 lo (kernel_ L)) by lia.
    rewrite (for_range_split g _ lo hi (kernel_ L)) by lia.
    rewrite (for_range_id g s 0 lo) by (intros; apply Hout; lia).
    rewrite (for_range_id g _ hi (kernel_ L)) by (intros; apply Hout; lia).
    apply for_range_ext. intros i s' Hi. symmetry. now apply Hin.
  - rewrite for_range_nil by lia. symmetry. apply for_range_id.
    intros i s' Hi. apply Hout; lia.
Qed.

(** Two counted loops over the same range preserve a relation between
    their states that both bodies preserve. *)
Lemma for_range_rel {T : Type} (R : S -> T -> Prop) body (body' : Z -> T -> T)
    s (t : T) (lo hi : Z) :
  R s t ->
  (forall i s' t', lo <= i < hi -> R s' t' -> R (body i s') (body' i t')) ->
  R (for_range lo hi body s) (for_range lo hi body' t).
Proof.
  intros H0 Hstep. destruct (Z_le_gt_dec lo hi) as [Hle|Hgt].
  - revert hi Hle Hstep. apply (Z_up_ind (fun hi =>
      (forall i s' t', lo <= i < hi -> R s' t' -> R (body i s') (body' i t')) ->
      R (for_range lo hi body s) (for_range lo hi body' t))).
    + intros _. now rewrite !for_range_nil by lia.
    + intros h Hh IH Hstep. rewrite !for_range_last by lia.
      apply Hstep; [lia|]. apply IH. intros; apply Hstep; [lia|assumption].
  - now rewrite !for_range_nil by lia.
Qed.
End MoreLoopLaws.

(** * No access leaves its buffer *)

Section Checked.
Context {Dtype : Type}.
Variables (dzero : Dtype) (dadd dmul : Dtype -> Dtype -> Dtype).

Lemma load_checked_Some (buf : list Dtype) (i : Z) :
  0 <= i < Z.of_nat (length buf) ->
  load_checked buf i = Some (load dzero buf i).
Proof.
  intros Hi. unfold load_checked, load.
  destruct (i <? 0) eqn:E; [lia|].
  destruct (lookup_lt_is_Some_2 buf (Z.to_nat i) ltac:(lia)) as [v ->].
  reflexivity.
Qed.

Lemma store_checked_Some (buf : list Dtype) (i : Z) (v : Dtype) :
  0 <= i < Z.of_nat (length buf) ->
  store_checked buf i v = Some (store buf i v).
Proof.
  intros Hi. unfold store_checked, store.
  destruct (0 <=? i) eqn:E1; [|lia].
  destruct (i <? Z.of_nat (length buf)) eqn:E2; [|lia].
  destruct (i <? 0) eqn:E3; [lia|]. reflexivity.
Qed.

(** Two counted loops over the same range, related by a relation that may
    depend on the iteration reached. *)
Lemma for_range_rel_ix {S T : Type} (R : Z -> S -> T -> Prop)
    (body : Z -> S -> S) (body' : Z -> T -> T) (s : S) (t : T) (lo hi : Z) :
  lo <= hi -> R lo s t ->
  (forall i s' t', lo <= i < hi -> R i s' t' -> R (i + 1) (body i s') (body' i t')) ->
  R hi (for_range lo hi body s) (for_range lo hi body' t).
Proof.
  intros Hle H0. revert hi Hle. apply (Z_up_ind (fun hi =>
    (forall i s' t', lo <= i < hi -> R i s' t' -> R (i + 1) (body i s') (body' i t')) ->
    R hi (for_range lo hi body s) (for_range lo hi body' t))).
  - intros _. now rewrite !for_range_nil by lia.
  - intros h Hh IH Hstep. rewrite !for_range_last by lia.
    apply Hstep; [lia|]. apply IH. intros; apply Hstep; [lia|assumption].
Qed.

Lemma image_index_bound (L : LayerState) (len n c y x : Z) :
  in_image L n c y x ->
  batch_num_ L * channels_ L * height_ L * width_ L <= len ->
  0 <= n * (channels_ L * height_ L * width_ L) + c * (height_ L * width_ L) +
       y * width_ L + x < len.
Proof.
  intros (Hn & Hc & Hy & Hx) Hlen.
  pose proof (index4_bound (batch_num_ L) (channels_ L) (height_ L) (width_ L)
                n c y x Hn Hc Hy Hx). lia.
Qed.

Lemma kernel_index_bound (L : LayerState) (B len n ch y x : Z) :
  0 <= n < batch_num_ L -> 0 <= ch < B -> 0 <= y < height_ L -> 0 <= x < width_ L ->
  batch_num_ L * B * height_ L * width_ L <= len ->
  0 <= n * (B * height_ L * width_ L) + ch * (height_ L * width_ L) +
       y * width_ L + x < len.
Proof.
  intros Hn Hc Hy Hx Hlen.
  pose proof (index4_bound (batch_num_ L) B (height_ L) (width_ L)
                n ch y x Hn Hc Hy Hx). lia.
Qed.

Lemma CPP_pixel_checked_Some (L : LayerState) (img ker : list Dtype) (n c y x : Z) :
  0 <= kernel_ L -> in_image L n c y x ->
  batch_num_ L * channels_ L * height_ L * width_ L <= Z.of_nat (length img) ->
  batch_num_ L * (kernel_ L * kernel_ L) * height_ L * width_ L <=
    Z.of_nat (length ker) ->
  let KB := kernel_ L * kernel_ L * height_ L * width_ L in
  let PK := height_ L * width_ L in
  let off := n * (channels_ L * height_ L * width_ L) + c * (height_ L * width_ L) in
  CPP_pixel_checked dzero dadd dmul L img ker KB PK n off (y * width_ L + x) y x =
  Some (CPP_pixel dzero dadd dmul L img ker KB PK n off (y * width_ L + x) y x).
Proof.
  intros HK Hin Himg Hker KB PK off.
  unfold CPP_pixel_checked, CPP_pixel. rewrite !smart_for_range.
  apply (for_range_rel (fun ov v => ov = Some v)); [reflexivity|].
  intros i ov v Hi ->. rewrite !smart_for_range.
  apply (for_range_rel (fun ov v => ov = Some v)); [reflexivity|].
  intros j ov v' Hj ->. cbn [mbind option_bind].
  assert (Hin' : in_image L n c (y - padding_ L + i) (x - padding_ L + j))
    by (unfold in_image in *; lia).
  rewrite (load_checked_Some img).
  2:{ pose proof (image_index_bound L _ n c _ _ Hin' Himg). subst off. lia. }
  rewrite (load_checked_Some ker).
  2:{ destruct Hin as (Hn & _ & Hy & Hx).
      assert (Hch : 0 <= i * kernel_ L + j < kernel_ L * kernel_ L)
        by (apply flat_bound; lia).
      pose proof (kernel_index_bound L _ _ n _ y x Hn Hch Hy Hx Hker).
      subst KB PK. lia. }
  reflexivity.
Qed.

Lemma SepCPP_pixel_checked_Some (L : LayerState) (img ker : list Dtype) (n c y x : Z) :
  0 <= kernel_ L -> in_image L n c y x ->
  batch_num_ L * channels_ L * height_ L * width_ L <= Z.of_nat (length img) ->
  batch_num_ L * (2 * kernel_ L) * height_ L * width_ L <= Z.of_nat (length ker) ->
  let KB := 2 * kernel_ L * height_ L * width_ L in
  let PK := height_ L * width_ L in
  let off := n * (channels_ L * height_ L * width_ L) + c * (height_ L * width_ L) in
  SepCPP_pixel_checked dzero dadd dmul L img ker KB PK n off (y * width_ L + x) y x =
  Some (SepCPP_pixel dzero dadd dmul L img ker KB PK n off (y * width_ L + x) y x).
Proof.
  intros HK Hin Himg Hker KB PK off.
  pose proof Hin as (Hn & _ & Hy & Hx).
  unfold SepCPP_pixel_checked, SepCPP_pixel. rewrite !smart_for_range.
  apply (for_range_rel (fun ov v => ov = Some v)); [reflexivity|].
  intros i ov v Hi ->. cbn [mbind option_bind]. rewrite !smart_for_range.
  assert (Hrow :
    for_range (lo_ L x) (hi_ L x (width_ L))
      (fun j temp =>
         temp ← temp;
         a ← load_checked img (off + (y - padding_ L + i) * width_ L +
                               (x - padding_ L + j));
         b ← load_checked ker (n * KB + j * PK + (y * width_ L + x));
         Some (dadd temp (dmul a b))) (Some dzero) =
    Some (for_range (lo_ L x) (hi_ L x (width_ L))
            (fun j temp =>
               dadd temp (dmul (load dzero img (off + (y - padding_ L + i) * width_ L +
                                                (x - padding_ L + j)))
                               (load dzero ker (n * KB + j * PK + (y * width_ L + x)))))
            dzero)).
  { apply (for_range_rel (fun ov v => ov = Some v)); [reflexivity|].
    intros j ov v' Hj ->. cbn [mbind option_bind].
    assert (Hin' : in_image L n c (y - padding_ L + i) (x - padding_ L + j))
      by (unfold in_image in *; lia).
    rewrite (load_checked_Some img).
    2:{ pose proof (image_index_bound L _ n c _ _ Hin' Himg). subst off. lia. }
    rewrite (load_checked_Some ker).
    2:{ pose proof (kernel_index_bound L (2 * kernel_ L) _ n j y x Hn
                      ltac:(lia) Hy Hx Hker). subst KB PK. lia. }
    reflexivity. }
  rewrite Hrow. cbn [mbind option_bind].
  rewrite (load_checked_Some ker).
  2:{ pose proof (kernel_index_bound L (2 * kernel_ L) _ n (kernel_ L + i) y x Hn
                    ltac:(lia) Hy Hx Hker). subst KB PK. lia. }
  reflexivity.
Qed.

Lemma forward_nest_checked_Some (L : LayerState)
    (pixel_checked : Z -> Z -> Z -> Z -> Z -> option Dtype)
    (pixel : Z -> Z -> Z -> Z -> Z -> Dtype) (out : list Dtype) :
  let PI := channels_ L * height_ L * width_ L in
  let PC := height_ L * width_ L in
  0 <= height_ L -> 0 <= width_ L ->
  batch_num_ L * channels_ L * height_ L * width_ L <= Z.of_nat (length out) ->
  (forall n c y x, in_image L n c y x ->
     pixel_checked n (n * PI + c * PC) (y * width_ L + x) y x =
     Some (pixel n (n * PI + c * PC) (y * width_ L + x) y x)) ->
  forward_nest_checked L PI PC pixel_checked out =
  Some (forward_nest L PI PC pixel out).
Proof.
  intros PI PC HH HW Hlen Hpix.
  unfold forward_nest_checked, forward_nest.
  match goal with
  | |- ?X = Some ?Y =>
      enough (Hrel : X = Some Y /\ length Y = length out) by exact (proj1 Hrel)
  end.
  apply (for_range_rel (fun o b => o = Some b /\ length b = length out));
    [split; reflexivity|].
  intros n o1 b1 Hn [-> Hl1].
  apply (for_range_rel (fun o b => o = Some b /\ length b = length out));
    [split; [reflexivity|exact Hl1]|].
  intros c o2 b2 Hc [-> Hl2]. cbv zeta. cbn [fmap option_fmap option_map].
  match goal with
  | |- snd <$> ?X = Some (snd ?Y) /\ _ =>
      enough (Hst : X = Some Y /\ fst Y = height_ L * width_ L /\
                    length (snd Y) = length out)
  end.
  { destruct Hst as (-> & _ & Hl). split; [reflexivity|exact Hl]. }
  apply (for_range_rel_ix
           (fun (h : Z) (o : option (Z * list Dtype)) st =>
              o = Some st /\ fst st = h * width_ L /\
              length (snd st) = length out));
    [exact HH|split; [reflexivity|split; [cbn; lia|exact Hl2]]|].
  intros y o3 st3 Hy (-> & Hf3 & Hl3).
  match goal with
  | |- ?X = Some ?Y /\ _ =>
      enough (Hst : X = Some Y /\ fst Y = y * width_ L + width_ L /\
                    length (snd Y) = length out)
  end.
  { destruct Hst as (-> & Hf & Hl). split; [reflexivity|]. split; [lia|exact Hl]. }
  apply (for_range_rel_ix
           (fun (w : Z) (o : option (Z * list Dtype)) st =>
              o = Some st /\ fst st = y * width_ L + w /\
              length (snd st) = length out));
    [exact HW|split; [reflexivity|split; [lia|exact Hl3]]|].
  intros x o4 st4 Hx (-> & Hf4 & Hl4). cbn [mbind option_bind].
  rewrite Hf4. rewrite Hpix by (unfold in_image; tauto). cbn [mbind option_bind].
  rewrite store_checked_Some.
  2:{ rewrite Hl4.
      pose proof (image_index_bound L _ n c y x ltac:(unfold in_image; tauto) Hlen).
      subst PI PC. lia. }
  cbn [mbind option_bind fst snd]. split; [reflexivity|].
  split; [lia|]. now rewrite length_store.
Qed.

(** X2.  The forward passes stay inside their buffers.  On a well-shaped
    input, [CPPLayer::Forward_cpu] and [SepCPPLayer::Forward_cpu] run with
    every read of [img] and [ker] and every write of [out] checked against
    the buffer succeed, and return the blobs of the unchecked pass: no access
    is out of bounds. *)
Theorem Forward_cpu_in_bounds (L : LayerState) (io : Blobs Dtype) :
  (dense_shaped L io ->
   CPPLayer_Forward_cpu_checked dzero dadd dmul L io =
   Some (CPPLayer_Forward_cpu dzero dadd dmul L io)) /\
  (sep_shaped L io ->
   SepCPPLayer_Forward_cpu_checked dzero dadd dmul L io =
   Some (SepCPPLayer_Forward_cpu dzero dadd dmul L io)).
Proof.
  split.
  - intros [(Hs0 & Hst & HN & HC & HH & HW & Hodd & _ & [Ha0 _] & [Ha1 _] & [Hat _]) Hs1].
    rewrite Hs0 in Hst. pose proof (kernel_nonneg L Hodd) as HK.
    destruct (count_4 _ _ _ _ _ Hs0) as (Hc0 & Hc1 & Hc2).
    destruct (count_4 _ _ _ _ _ Hs1) as (Hk0 & Hk1 & Hk2).
    destruct (count_4 _ _ _ _ _ Hst) as (Ht0 & _).
    unfold CPPLayer_Forward_cpu_checked, CPPLayer_Forward_cpu. cbv zeta.
    rewrite Hc1, Hc2, Hk1, Hk2.
    erewrite forward_nest_checked_Some; [reflexivity|assumption|assumption|lia|].
    intros n c y x Hin. apply CPP_pixel_checked_Some; (assumption || lia).
  - intros [(Hs0 & Hst & HN & HC & HH & HW & Hodd & _ & [Ha0 _] & [Ha1 _] & [Hat _]) Hs1].
    rewrite Hs0 in Hst. pose proof (kernel_nonneg L Hodd) as HK.
    destruct (count_4 _ _ _ _ _ Hs0) as (Hc0 & Hc1 & Hc2).
    destruct (count_4 _ _ _ _ _ Hs1) as (Hk0 & Hk1 & Hk2).
    destruct (count_4 _ _ _ _ _ Hst) as (Ht0 & _).
    unfold SepCPPLayer_Forward_cpu_checked, SepCPPLayer_Forward_cpu. cbv zeta.
    rewrite Hc1, Hc2, Hk1, Hk2.
    erewrite forward_nest_checked_Some; [reflexivity|assumption|assumption|lia|].
    intros n c y x Hin. apply SepCPP_pixel_checked_Some; (assumption || lia).
Qed.

Lemma channel_dot_checked_Some (L : LayerState) (src img : list Dtype)
    (n y x i_img j_img : Z) :
  0 <= n < batch_num_ L -> 0 <= y < height_ L -> 0 <= x < width_ L ->
  0 <= i_img < height_ L -> 0 <= j_img < width_ L ->
  batch_num_ L * channels_ L * height_ L * width_ L <= Z.of_nat (length src) ->
  batch_num_ L * channels_ L * height_ L * width_ L <= Z.of_nat (length img) ->
  let PI := channels_ L * height_ L * width_ L in
  let PC := height_ L * width_ L in
  channel_dot_checked dzero dadd dmul L src img PI PC n y x i_img j_img =
  Some (channel_dot dzero dadd dmul L src img PI PC n y x i_img j_img).
Proof.
  intros Hn Hy Hx Hi Hj Hsrc Himg PI PC.
  unfold channel_dot_checked, channel_dot.
  apply (for_range_rel (fun ov v => ov = Some v)); [reflexivity|].
  intros c ov v Hc ->. cbn [mbind option_bind]. cbv zeta.
  rewrite (load_checked_Some src).
  2:{ pose proof (image_index_bound L _ n c y x ltac:(unfold in_image; tauto) Hsrc).
      subst PI PC. lia. }
  rewrite (load_checked_Some img).
  2:{ pose proof (image_index_bound L _ n c i_img j_img
                    ltac:(unfold in_image; tauto) Himg).
      subst PI PC. lia. }
  reflexivity.
Qed.

Lemma sized_of_common (L : LayerState) (io : Blobs Dtype) :
  common_shaped L io ->
  count (bottom0 io) 1 = channels_ L * height_ L * width_ L /\
  count (bottom0 io) 2 = height_ L * width_ L /\
  0 < kernel_ L /\
  batch_num_ L * channels_ L * height_ L * width_ L <=
    Z.of_nat (length (data_ (bottom0 io))) /\
  batch_num_ L * channels_ L * height_ L * width_ L <=
    Z.of_nat (length (diff_ (top0 io))).
Proof.
  intros (Hs0 & Hst & _ & _ & _ & _ & Hodd & _ & [Ha0 _] & _ & [_ Hat]).
  rewrite Hs0 in Hst.
  destruct (count_4 _ _ _ _ _ Hs0) as (Hc0 & -> & ->).
  destruct (count_4 _ _ _ _ _ Hst) as (Ht0 & _).
  repeat split; try lia. now apply kernel_nonneg.
Qed.

Lemma SepCPP_horizontal_value_checked_Some (L : LayerState)
    (src img ker : list Dtype) (n y x j_img : Z) :
  0 <= n < batch_num_ L -> 0 <= y < height_ L -> 0 <= x < width_ L ->
  0 <= j_img < width_ L -> 0 <= kernel_ L ->
  batch_num_ L * channels_ L * height_ L * width_ L <= Z.of_nat (length src) ->
  batch_num_ L * channels_ L * height_ L * width_ L <= Z.of_nat (length img) ->
  batch_num_ L * (2 * kernel_ L) * height_ L * width_ L <= Z.of_nat (length ker) ->
  let PI := channels_ L * height_ L * width_ L in
  let PC := height_ L * width_ L in
  let KB := 2 * kernel_ L * height_ L * width_ L in
  SepCPP_horizontal_value_checked dzero dadd dmul L src img ker PI PC KB PC
    n y x j_img =
  Some (SepCPP_horizontal_value dzero dadd dmul L src img ker PI PC KB PC n y x j_img).
Proof.
  intros Hn Hy Hx Hj HK Hsrc Himg Hker PI PC KB.
  unfold SepCPP_horizontal_value_checked, SepCPP_horizontal_value.
  rewrite !smart_for_range.
  apply (for_range_rel (fun ov v => ov = Some v)); [reflexivity|].
  intros i ov v Hi ->. cbn [mbind option_bind]. cbv zeta.
  rewrite channel_dot_checked_Some by (assumption || lia).
  cbn [mbind option_bind].
  rewrite (load_checked_Some ker).
  2:{ pose proof (kernel_index_bound L (2 * kernel_ L) _ n (kernel_ L + i) y x Hn
                    ltac:(lia) Hy Hx Hker). subst KB PC. lia. }
  reflexivity.
Qed.

Lemma SepCPP_vertical_value_checked_Some (L : LayerState)
    (src img ker : list Dtype) (n y x i_img : Z) :
  0 <= n < batch_num_ L -> 0 <= y < height_ L -> 0 <= x < width_ L ->
  0 <= i_img < height_ L -> 0 <= kernel_ L ->
  batch_num_ L * channels_ L * height_ L * width_ L <= Z.of_nat (length src) ->
  batch_num_ L * channels_ L * height_ L * width_ L <= Z.of_nat (length img) ->
  batch_num_ L * (2 * kernel_ L) * height_ L * width_ L <= Z.of_nat (length ker) ->
  let PI := channels_ L * height_ L * width_ L in
  let PC := height_ L * width_ L in
  let KB := 2 * kernel_ L * height_ L * width_ L in
  SepCPP_vertical_value_checked dzero dadd dmul L src img ker PI PC KB PC
    n y x i_img =
  Some (SepCPP_vertical_value dzero dadd dmul L src img ker PI PC KB PC n y x i_img).
Proof.
  intros Hn Hy Hx Hi HK Hsrc Himg Hker PI PC KB.
  unfold SepCPP_vertical_value_checked, SepCPP_vertical_value.
  rewrite !smart_for_range.
  apply (for_range_rel (fun ov v => ov = Some v)); [reflexivity|].
  intros j ov v Hj ->. cbn [mbind option_bind]. cbv zeta.
  rewrite channel_dot_checked_Some by (assumption || lia).
  cbn [mbind option_bind].
  rewrite (load_checked_Some ker).
  2:{ pose proof (kernel_index_bound L (2 * kernel_ L) _ n j y x Hn
                    ltac:(lia) Hy Hx Hker). subst KB PC. lia. }
  reflexivity.
Qed.

(** X22.  The backward passes stay inside their buffers.  On a well-shaped
    input, [CPPLayer::Backward_cpu] and [SepCPPLayer::Backward_cpu] run with
    every read of [src], [img] and [ker] and every write of [diff] checked
    against the buffer succeed, and return the blobs of the unchecked pass;
    this holds although the stride of the kernel blob is read from the image
    blob. *)
Theorem Backward_cpu_in_bounds (L : LayerState) (pd : list bool) (io : Blobs Dtype) :
  (dense_shaped L io ->
   CPPLayer_Backward_cpu_checked dzero dadd dmul L pd io =
   Some (CPPLayer_Backward_cpu dzero dadd dmul L pd io)) /\
  (sep_shaped L io ->
   SepCPPLayer_Backward_cpu_checked dzero dadd dmul L pd io =
   Some (SepCPPLayer_Backward_cpu dzero dadd dmul L pd io)).
Proof.
  split.
  - intros [Hcom Hs1].
    destruct (sized_of_common L io Hcom) as (Hc1 & Hc2 & HK & Himg & Hsrc).
    destruct Hcom as (_ & _ & _ & _ & _ & _ & _ & _ & _ & [Hkd Hkg] & _).
    destruct (count_4 _ _ _ _ _ Hs1) as (Hk0 & Hk1 & _). rewrite Hk0 in Hkg.
    unfold CPPLayer_Backward_cpu_checked, CPPLayer_Backward_cpu. cbv zeta.
    rewrite Hc1, Hc2, Hk1.
    match goal with
    | |- ?X ≫= _ = Some {| bottom0 := _; bottom1 := {| diff_ := ?Y |}; top0 := _ |} =>
        enough (Hrel : X = Some Y /\ length Y = length (diff_ (bottom1 io)))
          by (destruct Hrel as [-> _]; reflexivity)
    end.
    set (R := fun (o : option (list Dtype)) d =>
                o = Some d /\ length d = length (diff_ (bottom1 io))).
    apply (for_range_rel R); [split; reflexivity|]. intros n o1 d1 Hn H1.
    apply (for_range_rel R); [exact H1|]. intros y o2 d2 Hy H2.
    apply (for_range_rel R); [exact H2|]. intros x o3 d3 Hx H3.
    rewrite !smart_for_range.
    apply (for_range_rel R); [exact H3|]. intros i o4 d4 Hi H4.
    rewrite !smart_for_range.
    apply (for_range_rel R); [exact H4|]. intros j o5 d5 Hj [-> Hl5].
    cbn [mbind option_bind].
    rewrite channel_dot_checked_Some by (assumption || lia).
    cbn [mbind option_bind].
    rewrite store_checked_Some.
    + split; [reflexivity|]. now rewrite length_store.
    + rewrite Hl5.
      assert (Hch : 0 <= i * kernel_ L + j < kernel_ L * kernel_ L)
        by (apply flat_bound; lia).
      pose proof (kernel_index_bound L _ _ n _ y x Hn Hch Hy Hx Hkg). lia.
  - intros [Hcom Hs1].
    destruct (sized_of_common L io Hcom) as (Hc1 & Hc2 & HK & Himg & Hsrc).
    destruct Hcom as (_ & _ & _ & _ & _ & _ & _ & _ & _ & [Hkd Hkg] & _).
    destruct (count_4 _ _ _ _ _ Hs1) as (Hk0 & Hk1 & _). rewrite Hk0 in Hkg, Hkd.
    unfold SepCPPLayer_Backward_cpu_checked, SepCPPLayer_Backward_cpu. cbv zeta.
    rewrite Hc1, Hc2, Hk1.
    match goal with
    | |- ?X ≫= _ = Some {| bottom0 := _; bottom1 := {| diff_ := ?Y |}; top0 := _ |} =>
        enough (Hrel : X = Some Y /\ length Y = length (diff_ (bottom1 io)))
          by (destruct Hrel as [-> _]; reflexivity)
    end.
    set (R := fun (o : option (list Dtype)) d =>
                o = Some d /\ length d = length (diff_ (bottom1 io))).
    apply (for_range_rel R); [split; reflexivity|]. intros n o1 d1 Hn H1.
    apply (for_range_rel R); [exact H1|]. intros y o2 d2 Hy H2.
    apply (for_range_rel R); [exact H2|]. intros x o3 d3 Hx H3.
    rewrite !smart_for_range.
    apply (for_range_rel R).
    + apply (for_range_rel R); [exact H3|]. intros j o4 d4 Hj [-> Hl4].
      cbn [mbind option_bind].
      rewrite SepCPP_horizontal_value_checked_Some by (assumption || lia).
      cbn [mbind option_bind].
      rewrite store_checked_Some.
      * split; [reflexivity|]. now rewrite length_store.
      * rewrite Hl4.
        pose proof (kernel_index_bound L (2 * kernel_ L) _ n j y x Hn
                      ltac:(lia) Hy Hx Hkg). lia.
    + intros i o4 d4 Hi [-> Hl4].
      cbn [mbind option_bind].
      rewrite SepCPP_vertical_value_checked_Some by (assumption || lia).
      cbn [mbind option_bind].
      rewrite store_checked_Some.
      * split; [reflexivity|]. now rewrite length_store.
      * rewrite Hl4.
        pose proof (kernel_index_bound L (2 * kernel_ L) _ n (kernel_ L + i) y x Hn
                      ltac:(lia) Hy Hx Hkg). lia.
Qed.
End Checked.


(** * The kernel size of a perfect square *)

(** X3.  The derivation of the kernel size is exact on every perfect
    square: for every k >= 0 whose square is an [int],
    [static_cast<int>(sqrt(static_cast<float>(k*k)))] is k, although the
    conversion to [float] rounds squares above 2^24. *)
Theorem CPP_kernel_size_round_trip (k : Z) :
  0 <= k -> k * k <= INT_MAX -> CPP_kernel_size (k * k) = k.
Proof.
  intros Hk Hsq. destruct (Z.eq_dec k 0) as [->|Hne]; [reflexivity|].
  apply CPP_kernel_size_square; [lia|]. unfold INT_MAX in Hsq. lia.
Qed.

(** * Which check fails *)

Section Diagnostics.
Context {Dtype : Type}.
Variable dzero : Dtype.
Implicit Types (b : Blob Dtype) (io : Blobs Dtype).

Lemma CHECK_EQ_refl (a : Z) (msg : string) : CHECK_EQ a a msg = Ok tt.
Proof. unfold CHECK_EQ. now rewrite Z.eqb_refl. Qed.

Lemma CHECK_EQ_neq (a a' : Z) (msg : string) :
  a <> a' -> CHECK_EQ a a' msg = Fatal (CheckFailed msg).
Proof. unfold CHECK_EQ. destruct (Z.eqb_spec a a'); [contradiction|reflexivity]. Qed.

(** On two 4-axis blobs with the same batch count the dense validator
    comes down to its four remaining checks. *)
Lemma CPPLayer_Reshape_members_4 b0 b1 (N C H W B H1 W1 : Z) :
  shape_ b0 = [N; C; H; W] -> shape_ b1 = [N; B; H1; W1] ->
  CPPLayer_Reshape_members b0 b1 =
  (let kernel := CPP_kernel_size B in
   CHECK_EQ (int_wrap (kernel * kernel)) B
     "input channel dimension must be a square of an integer.";;
   CHECK_EQ (Z.rem kernel 2) 1 "input kernel size must be an odd integer.";;
   CHECK_EQ W W1 "inputs must have the same height.";;
   CHECK_EQ H H1 "inputs must have the same width.";;
   Ok {| kernel_ := kernel; padding_ := Z.quot (kernel - 1) 2; height_ := H;
         width_ := W; batch_num_ := N; channels_ := C |}).
Proof.
  intros Hs0 Hs1. unfold CPPLayer_Reshape_members.
  destruct (shape_4 b0 _ _ _ _ Hs0) as (-> & -> & -> & -> & ->).
  destruct (shape_4 b1 _ _ _ _ Hs1) as (-> & -> & -> & -> & ->).
  rewrite !CHECK_EQ_refl. cbn [mbind outcome_bind].
  rewrite !CHECK_EQ_refl. reflexivity.
Qed.

Lemma SepCPPLayer_Reshape_members_4 b0 b1 (N C H W B H1 W1 : Z) :
  shape_ b0 = [N; C; H; W] -> shape_ b1 = [N; B; H1; W1] ->
  SepCPPLayer_Reshape_members b0 b1 =
  (CHECK_EQ (Z.rem B 2) 0
     "kernel blob channel dimension must be an even integer.";;
   let kernel := Z.quot B 2 in
   CHECK_EQ (Z.rem kernel 2) 1 "input kernel size must be an odd integer.";;
   CHECK_EQ W W1 "inputs must have the same height.";;
   CHECK_EQ H H1 "inputs must have the same width.";;
   Ok {| kernel_ := kernel; padding_ := Z.quot (kernel - 1) 2; height_ := H;
         width_ := W; batch_num_ := N; channels_ := C |}).
Proof.
  intros Hs0 Hs1. unfold SepCPPLayer_Reshape_members.
  destruct (shape_4 b0 _ _ _ _ Hs0) as (-> & -> & -> & -> & ->).
  destruct (shape_4 b1 _ _ _ _ Hs1) as (-> & -> & -> & -> & ->).
  rewrite !CHECK_EQ_refl. cbn [mbind outcome_bind].
  rewrite !CHECK_EQ_refl. reflexivity.
Qed.

(** X4.  A channel count of the wrong form is reported by the first check
    on it, whatever the spatial extents of the kernel blob: the dense
    validator fails with "input channel dimension must be a square of an
    integer." when the count is not a perfect square, the separable one with
    "kernel blob channel dimension must be an even integer." when it is
    odd. *)
Theorem Reshape_rejects_channel_count io (N C H W B H1 W1 : Z) :
  shape_ (bottom0 io) = [N; C; H; W] ->
  shape_ (bottom1 io) = [N; B; H1; W1] ->
  0 <= B <= INT_MAX ->
  ((forall k, k * k <> B) ->
   CPPLayer_Reshape dzero io =
   Fatal (CheckFailed "input channel dimension must be a square of an integer.")) /\
  (Z.odd B = true ->
   SepCPPLayer_Reshape dzero io =
   Fatal (CheckFailed "kernel blob channel dimension must be an even integer.")).
Proof.
  intros Hs0 Hs1 HB. split.
  - intros Hns. unfold CPPLayer_Reshape.
    rewrite (CPPLayer_Reshape_members_4 _ _ _ _ _ _ _ _ _ Hs0 Hs1). cbv zeta.
    assert (Hne : int_wrap (CPP_kernel_size B * CPP_kernel_size B) <> B).
    { intros E. apply (Hns (CPP_kernel_size B)).
      apply int_wrap_kernel_square; [|lia|exact E].
      apply CPP_kernel_size_bound. unfold INT_MAX in HB. lia. }
    now rewrite (CHECK_EQ_neq _ _ _ Hne).
  - intros Hodd. unfold SepCPPLayer_Reshape.
    rewrite (SepCPPLayer_Reshape_members_4 _ _ _ _ _ _ _ _ _ Hs0 Hs1).
    assert (Hne : Z.rem B 2 <> 0).
    { rewrite Z.rem_mod_nonneg by lia. rewrite Zmod_odd, Hodd. discriminate. }
    now rewrite (CHECK_EQ_neq _ _ _ Hne).
Qed.

(** X5.  An even kernel size is reported as such: the dense validator on
    the square of an even k (zero included), and the separable one on twice
    an even k, fail with "input kernel size must be an odd integer.". *)
Theorem Reshape_rejects_even_kernel io (N C H W B H1 W1 k : Z) :
  shape_ (bottom0 io) = [N; C; H; W] ->
  shape_ (bottom1 io) = [N; B; H1; W1] ->
  0 <= k -> Z.even k = true -> B <= INT_MAX ->
  (B = k * k ->
   CPPLayer_Reshape dzero io =
   Fatal (CheckFailed "input kernel size must be an odd integer.")) /\
  (B = 2 * k ->
   SepCPPLayer_Reshape dzero io =
   Fatal (CheckFailed "input kernel size must be an odd integer.")).
Proof.
  intros Hs0 Hs1 Hk Hev HB.
  assert (Hrem : Z.rem k 2 <> 1).
  { rewrite Z.rem_mod_nonneg by lia. rewrite Zmod_even, Hev. discriminate. }
  split; intros ->.
  - unfold CPPLayer_Reshape.
    rewrite (CPPLayer_Reshape_members_4 _ _ _ _ _ _ _ _ _ Hs0 Hs1). cbv zeta.
    assert (Hsize : CPP_kernel_size (k * k) = k).
    { destruct (Z.eq_dec k 0) as [->|Hne]; [reflexivity|].
      apply CPP_kernel_size_square; [lia|]. unfold INT_MAX in HB. lia. }
    rewrite Hsize, int_wrap_in_range by (unfold INT_MAX in HB; nia).
    rewrite CHECK_EQ_refl, (CHECK_EQ_neq _ _ _ Hrem). reflexivity.
  - unfold SepCPPLayer_Reshape.
    rewrite (SepCPPLayer_Reshape_members_4 _ _ _ _ _ _ _ _ _ Hs0 Hs1). cbv zeta.
    replace (Z.rem (2 * k) 2) with 0 by (rewrite Z.mul_comm, Z.rem_mul; lia).
    replace (Z.quot (2 * k) 2) with k by (rewrite Z.mul_comm, Z.quot_mul; lia).
    rewrite CHECK_EQ_refl, (CHECK_EQ_neq _ _ _ Hrem). reflexivity.
Qed.

(** X6.  The two spatial checks carry each other's message.  With a channel
    count that passes, a kernel blob whose last axis (the width) differs from
    the image's is rejected with "inputs must have the same height."; when
    the widths agree and the second-to-last axis (the height) differs, the
    message is "inputs must have the same width.".  Both validators behave
    alike. *)
Theorem Reshape_spatial_messages io (N C H W B H1 W1 : Z) :
  shape_ (bottom0 io) = [N; C; H; W] ->
  shape_ (bottom1 io) = [N; B; H1; W1] ->
  (CPP_kernel_accepted B = true ->
   (W <> W1 ->
    CPPLayer_Reshape dzero io =
    Fatal (CheckFailed "inputs must have the same height.")) /\
   (W = W1 -> H <> H1 ->
    CPPLayer_Reshape dzero io =
    Fatal (CheckFailed "inputs must have the same width."))) /\
  (SepCPP_kernel_accepted B = true ->
   (W <> W1 ->
    SepCPPLayer_Reshape dzero io =
    Fatal (CheckFailed "inputs must have the same height.")) /\
   (W = W1 -> H <> H1 ->
    SepCPPLayer_Reshape dzero io =
    Fatal (CheckFailed "inputs must have the same width."))).
Proof.
  intros Hs0 Hs1. split; intros Hacc.
  - unfold CPP_kernel_accepted in Hacc. cbv zeta in Hacc.
    apply andb_prop in Hacc as [Hsq Hodd]. apply Z.eqb_eq in Hsq, Hodd.
    unfold CPPLayer_Reshape.
    rewrite (CPPLayer_Reshape_members_4 _ _ _ _ _ _ _ _ _ Hs0 Hs1). cbv zeta.
    rewrite Hsq, Hodd, !CHECK_EQ_refl. split.
    + intros HW. now rewrite (CHECK_EQ_neq _ _ _ HW).
    + intros <- HH. now rewrite CHECK_EQ_refl, (CHECK_EQ_neq _ _ _ HH).
  - unfold SepCPP_kernel_accepted in Hacc.
    apply andb_prop in Hacc as [Hev Hodd]. apply Z.eqb_eq in Hev, Hodd.
    unfold SepCPPLayer_Reshape.
    rewrite (SepCPPLayer_Reshape_members_4 _ _ _ _ _ _ _ _ _ Hs0 Hs1). cbv zeta.
    rewrite Hev, Hodd, !CHECK_EQ_refl. split.
    + intros HW. now rewrite (CHECK_EQ_neq _ _ _ HW).
    + intros <- HH. now rewrite CHECK_EQ_refl, (CHECK_EQ_neq _ _ _ HH).
Qed.
(** X7.  The stride the backward passes read from the image blob is the
    kernel blob's own.  Both [Backward_cpu] take [pixels_in_kernel] from
    [bottom[0]->count(2)], where the forward passes take
    [bottom[1]->count(2)]; whenever [Reshape] has returned, the two counts
    are equal, and equal to [height_ * width_]. *)
Theorem Reshape_strides_agree io (L : LayerState) io' :
  (CPPLayer_Reshape dzero io = Ok (L, io') ->
   count (bottom0 io') 2 = count (bottom1 io') 2 /\
   count (bottom1 io') 2 = height_ L * width_ L) /\
  (SepCPPLayer_Reshape dzero io = Ok (L, io') ->
   count (bottom0 io') 2 = count (bottom1 io') 2 /\
   count (bottom1 io') 2 = height_ L * width_ L).
Proof.
  split.
  - unfold CPPLayer_Reshape.
    destruct (CPPLayer_Reshape_members_cases (bottom0 io) (bottom1 io))
      as [(N & C & H & W & B & Hs0 & Hs1 & _ & ->)|[[msg ->] _]];
      cbn [mbind outcome_bind]; intros E; [|discriminate E].
    inversion E; subst L io'; clear E. cbn [bottom0 bottom1 height_ width_].
    destruct (count_4 _ _ _ _ _ Hs0) as (_ & _ & ->).
    destruct (count_4 _ _ _ _ _ Hs1) as (_ & _ & ->). split; reflexivity.
  - unfold SepCPPLayer_Reshape.
    destruct (SepCPPLayer_Reshape_members_cases (bottom0 io) (bottom1 io))
      as [(N & C & H & W & B & Hs0 & Hs1 & _ & ->)|[[msg ->] _]];
      cbn [mbind outcome_bind]; intros E; [|discriminate E].
    inversion E; subst L io'; clear E. cbn [bottom0 bottom1 height_ width_].
    destruct (count_4 _ _ _ _ _ Hs0) as (_ & _ & ->).
    destruct (count_4 _ _ _ _ _ Hs1) as (_ & _ & ->). split; reflexivity.
Qed.
End Diagnostics.

(** * Validation followed by a forward pass *)

Section Pipeline.
Context {Dtype : Type}.
Variables (dzero done : Dtype) (dadd dmul dsub : Dtype -> Dtype -> Dtype)
          (dopp : Dtype -> Dtype).
Hypothesis Dtype_ring : ring_theory dzero done dadd dmul dsub dopp eq.

Local Infix "⊗" := dmul (at level 40, left associativity).

(** X8.  Set-up and forward pass of the dense layer fit together.  On
    allocated blobs with valid extents that satisfy the shape rules,
    [CPPLayer::Reshape] returns, and [CPPLayer::Forward_cpu] run with the
    members it derived leaves an output of the image's shape whose element
    (n, c, y, x) is the zero-padded window sum of the original image and
    kernel blobs. *)
Theorem CPPLayer_Reshape_then_Forward (io : Blobs Dtype) :
  dims_valid (bottom0 io) -> dims_valid (bottom1 io) ->
  blob_allocated (bottom0 io) -> blob_allocated (bottom1 io) ->
  length (data_ (top0 io)) = length (diff_ (top0 io)) ->
  inputs_agree pac_channel_rule (bottom0 io) (bottom1 io) ->
  exists L io',
    CPPLayer_Reshape dzero io = Ok (L, io') /\
    let out := top0 (CPPLayer_Forward_cpu dzero dadd dmul L io') in
    shape_ out = shape_ (bottom0 io) /\
    shape_ (bottom0 io) = [batch_num_ L; channels_ L; height_ L; width_ L] /\
    forall n c y x, in_image L n c y x ->
      data_at dzero out n c y x =
      dsum_if dzero dadd 0 (kernel_ L) (in_bounds L y (height_ L)) (fun i =>
        dsum_if dzero dadd 0 (kernel_ L) (in_bounds L x (width_ L)) (fun j =>
          data_at dzero (bottom0 io) n c (y - padding_ L + i) (x - padding_ L + j) ⊗
          data_at dzero (bottom1 io) n (i * kernel_ L + j) y x)).
Proof.
  intros Hv0 Hv1 Ha0 Ha1 Hcap Hagree.
  apply inputs_agree_shapes in Hagree as (N & C & H & W & B & Hs0 & Hs1 & HR).
  pose proof (dims_valid_channels _ _ _ _ _ Hv1 Hs1) as HB.
  pose proof (CPP_odd_square_accepted B HB HR) as Hacc.
  destruct (CPPLayer_Reshape_members_cases (bottom0 io) (bottom1 io))
    as [(N' & C' & H' & W' & B' & Hs0' & Hs1' & _ & HM)|[_ Hno]].
  2:{ exfalso. apply Hno. now exists N, C, H, W, B. }
  set (L := {| kernel_ := CPP_kernel_size B';
               padding_ := Z.quot (CPP_kernel_size B' - 1) 2;
               height_ := H'; width_ := W'; batch_num_ := N';
               channels_ := C' |}) in *.
  set (io' := {| bottom0 := bottom0 io; bottom1 := bottom1 io;
                 top0 := ReshapeLike dzero (top0 io) (bottom0 io) |}).
  assert (HRe : CPPLayer_Reshape dzero io = Ok (L, io')).
  { unfold CPPLayer_Reshape. rewrite HM. reflexivity. }
  pose proof (CPPLayer_Reshape_dense_shaped dzero io L io' Hv0 Hv1 Ha0 Ha1 Hcap HRe)
    as Hsh.
  exists L, io'. split; [exact HRe|]. cbv zeta.
  split; [apply ReshapeLike_shape|]. split; [exact Hs0'|].
  intros n c y x Hin.
  rewrite CPP_forward_data by assumption.
  rewrite (CPP_pixel_terms dzero done dadd dmul dsub dopp Dtype_ring) by assumption.
  symmetry. apply (dsum_if_window2 dzero done dadd dmul dsub dopp Dtype_ring).
Qed.

(** X9.  The same for the separable layer: after [SepCPPLayer::Reshape],
    [SepCPPLayer::Forward_cpu] leaves at (n, c, y, x) the sum over the
    in-bounds rows i of the row sum with the horizontal weights, times the
    vertical weight of row i. *)
Theorem SepCPPLayer_Reshape_then_Forward (io : Blobs Dtype) :
  dims_valid (bottom0 io) -> dims_valid (bottom1 io) ->
  blob_allocated (bottom0 io) -> blob_allocated (bottom1 io) ->
  length (data_ (top0 io)) = length (diff_ (top0 io)) ->
  inputs_agree sep_channel_rule (bottom0 io) (bottom1 io) ->
  exists L io',
    SepCPPLayer_Reshape dzero io = Ok (L, io') /\
    let out := top0 (SepCPPLayer_Forward_cpu dzero dadd dmul L io') in
    shape_ out = shape_ (bottom0 io) /\
    shape_ (bottom0 io) = [batch_num_ L; channels_ L; height_ L; width_ L] /\
    forall n c y x, in_image L n c y x ->
      data_at dzero out n c y x =
      dsum_if dzero dadd 0 (kernel_ L) (in_bounds L y (height_ L)) (fun i =>
        dsum_if dzero dadd 0 (kernel_ L) (in_bounds L x (width_ L)) (fun j =>
          data_at dzero (bottom0 io) n c (y - padding_ L + i) (x - padding_ L + j) ⊗
          data_at dzero (bottom1 io) n j y x) ⊗
        data_at dzero (bottom1 io) n (kernel_ L + i) y x).
Proof.
  intros Hv0 Hv1 Ha0 Ha1 Hcap Hagree.
  apply inputs_agree_shapes in Hagree as (N & C & H & W & B & Hs0 & Hs1 & HR).
  pose proof (dims_valid_channels _ _ _ _ _ Hv1 Hs1) as HB.
  assert (Hacc : SepCPP_kernel_accepted B = true)
    by (apply SepCPP_kernel_accepted_iff; [lia|exact HR]).
  destruct (SepCPPLayer_Reshape_members_cases (bottom0 io) (bottom1 io))
    as [(N' & C' & H' & W' & B' & Hs0' & Hs1' & _ & HM)|[_ Hno]].
  2:{ exfalso. apply Hno. now exists N, C, H, W, B. }
  set (L := {| kernel_ := Z.quot B' 2;
               padding_ := Z.quot (Z.quot B' 2 - 1) 2;
               height_ := H'; width_ := W'; batch_num_ := N';
               channels_ := C' |}) in *.
  set (io' := {| bottom0 := bottom0 io; bottom1 := bottom1 io;
                 top0 := ReshapeLike dzero (top0 io) (bottom0 io) |}).
  assert (HRe : SepCPPLayer_Reshape dzero io = Ok (L, io')).
  { unfold SepCPPLayer_Reshape. rewrite HM. reflexivity. }
  pose proof (SepCPPLayer_Reshape_sep_shaped dzero io L io' Hv0 Hv1 Ha0 Ha1 Hcap HRe)
    as Hsh.
  exists L, io'. split; [exact HRe|]. cbv zeta.
  split; [apply ReshapeLike_shape|]. split; [exact Hs0'|].
  intros n c y x Hin.
  rewrite (SepCPP_forward_data dzero done dadd dmul dsub dopp Dtype_ring)
    by assumption.
  rewrite (dsum_if_guard dzero done dadd dmul dsub dopp Dtype_ring).
  rewrite <- (dsum_window dzero done dadd dmul dsub dopp Dtype_ring).
  apply (dsum_ext dzero dadd). intros i _.
  destruct (in_bounds L y (height_ L) i); [|reflexivity].
  f_equal.
  rewrite (dsum_if_guard dzero done dadd dmul dsub dopp Dtype_ring).
  now rewrite <- (dsum_window dzero done dadd dmul dsub dopp Dtype_ring).
Qed.
End Pipeline.

(** * Overwriting passes *)

Section Overwrite.
Context {Dtype : Type}.
Variables (dzero : Dtype) (dadd dmul : Dtype -> Dtype -> Dtype).

Lemma load_ext (a b : list Dtype) :
  length a = length b ->
  (forall j, load dzero a j = load dzero b j) -> a = b.
Proof.
  intros Hlen Hld. apply list_eq. intros i.
  destruct (decide (i < length a)%nat) as [Hi|Hi].
  - destruct (lookup_lt_is_Some_2 a i Hi) as [u Hu].
    destruct (lookup_lt_is_Some_2 b i ltac:(lia)) as [v Hv].
    specialize (Hld (Z.of_nat i)). unfold load in Hld.
    destruct (Z.of_nat i <? 0) eqn:E; [lia|].
    rewrite Nat2Z.id, Hu, Hv in Hld. cbn in Hld. now rewrite Hu, Hv, Hld.
  - rewrite !lookup_ge_None_2 by lia. reflexivity.
Qed.

(** Stores that assign, on the same set of indices, values determined by
    the index change nothing when they are repeated. *)
Lemma stores_into_again (dom : Z -> Prop) (R : Z -> Dtype -> Prop)
    (b b1 b2 : list Dtype) :
  (forall j v v', dom j -> R j v -> R j v' -> v = v') ->
  stores_into dzero dom R b b1 -> stores_into dzero dom R b1 b2 -> b2 = b1.
Proof.
  intros Hfun (_ & Hin1 & _) (Hlen & _ & Hfr2).
  apply load_ext; [exact Hlen|]. intros j.
  destruct (Hfr2 j) as [E|[Hd HR]]; [exact E|].
  apply (Hfun j); [exact Hd|exact HR|now apply Hin1].
Qed.

Lemma nest_value_functional (L : LayerState) (PI PC : Z)
    (pixel : Z -> Z -> Z -> Z -> Z -> Dtype) (j : Z) (v v' : Dtype) :
  (exists n c y x, in_image L n c y x /\ j = n * PI + c * PC + y * width_ L + x) ->
  nest_value L PI PC pixel j v -> nest_value L PI PC pixel j v' -> v = v'.
Proof.
  intros (n & c & y & x & Hin & E) Hv Hv'.
  rewrite (Hv n c y x Hin E). now rewrite (Hv' n c y x Hin E).
Qed.

Lemma forward_nest_again (L : LayerState) pixel (out : list Dtype) :
  let PI := channels_ L * height_ L * width_ L in
  let PC := height_ L * width_ L in
  0 <= batch_num_ L -> 0 <= channels_ L -> 0 <= height_ L -> 0 <= width_ L ->
  batch_num_ L * channels_ L * height_ L * width_ L <= Z.of_nat (length out) ->
  forward_nest L PI PC pixel (forward_nest L PI PC pixel out) =
  forward_nest L PI PC pixel out.
Proof.
  intros PI PC HN HC HH HW Hlen.
  pose proof (forward_nest_stores dzero L pixel out HN HC HH HW Hlen) as H1.
  assert (Hlen' : batch_num_ L * channels_ L * height_ L * width_ L <=
                  Z.of_nat (length (forward_nest L PI PC pixel out))).
  { destruct H1 as [E _]. unfold PI, PC. rewrite E. exact Hlen. }
  pose proof (forward_nest_stores dzero L pixel _ HN HC HH HW Hlen') as H2.
  eapply stores_into_again; [|exact H1|exact H2].
  intros j v v'. apply nest_value_functional.
Qed.

Lemma forward_nest_frame (L : LayerState) pixel (out : list Dtype) :
  let PI := channels_ L * height_ L * width_ L in
  let PC := height_ L * width_ L in
  0 <= batch_num_ L -> 0 <= channels_ L -> 0 <= height_ L -> 0 <= width_ L ->
  batch_num_ L * channels_ L * height_ L * width_ L <= Z.of_nat (length out) ->
  length (forward_nest L PI PC pixel out) = length out /\
  forall j, batch_num_ L * channels_ L * height_ L * width_ L <= j ->
    load dzero (forward_nest L PI PC pixel out) j = load dzero out j.
Proof.
  intros PI PC HN HC HH HW Hlen.
  destruct (forward_nest_stores dzero L pixel out HN HC HH HW Hlen)
    as (Hl & _ & Hfr).
  split; [exact Hl|]. intros j Hj.
  destruct (Hfr j) as [E|[(n & c & y & x & (Hn & Hc & Hy & Hx) & E) _]];
    [exact E|exfalso].
  pose proof (index4_bound (batch_num_ L) (channels_ L) (height_ L) (width_ L)
                n c y x Hn Hc Hy Hx). subst PI PC. lia.
Qed.

Lemma dense_forward_sizes (L : LayerState) (io : Blobs Dtype) :
  dense_shaped L io ->
  count (bottom0 io) 1 = channels_ L * height_ L * width_ L /\
  count (bottom0 io) 2 = height_ L * width_ L /\
  count (top0 io) 0 = batch_num_ L * channels_ L * height_ L * width_ L /\
  0 <= batch_num_ L /\ 0 <= channels_ L /\ 0 <= height_ L /\ 0 <= width_ L /\
  batch_num_ L * channels_ L * height_ L * width_ L <=
    Z.of_nat (length (data_ (top0 io))).
Proof.
  intros [(Hs0 & Hst & HN & HC & HH & HW & _ & _ & _ & _ & [Ht _]) _].
  rewrite Hs0 in Hst.
  destruct (count_4 _ _ _ _ _ Hs0) as (_ & -> & ->).
  destruct (count_4 _ _ _ _ _ Hst) as (Hct & _). rewrite Hct in *.
  repeat split; assumption.
Qed.

Lemma sep_forward_sizes (L : LayerState) (io : Blobs Dtype) :
  sep_shaped L io ->
  count (bottom0 io) 1 = channels_ L * height_ L * width_ L /\
  count (bottom0 io) 2 = height_ L * width_ L /\
  count (top0 io) 0 = batch_num_ L * channels_ L * height_ L * width_ L /\
  0 <= batch_num_ L /\ 0 <= channels_ L /\ 0 <= height_ L /\ 0 <= width_ L /\
  batch_num_ L * channels_ L * height_ L * width_ L <=
    Z.of_nat (length (data_ (top0 io))).
Proof.
  intros [(Hs0 & Hst & HN & HC & HH & HW & _ & _ & _ & _ & [Ht _]) _].
  rewrite Hs0 in Hst.
  destruct (count_4 _ _ _ _ _ Hs0) as (_ & -> & ->).
  destruct (count_4 _ _ _ _ _ Hst) as (Hct & _). rewrite Hct in *.
  repeat split; assumption.
Qed.

(** X10.  The forward passes overwrite their output: on a well-shaped input
    a second run of [CPPLayer::Forward_cpu], or of
    [SepCPPLayer::Forward_cpu], on the blobs the first run left returns
    exactly the same blobs.  Nothing is accumulated into the output. *)
Theorem Forward_cpu_idempotent (L : LayerState) (io : Blobs Dtype) :
  (dense_shaped L io ->
   CPPLayer_Forward_cpu dzero dadd dmul L (CPPLayer_Forward_cpu dzero dadd dmul L io) =
   CPPLayer_Forward_cpu dzero dadd dmul L io) /\
  (sep_shaped L io ->
   SepCPPLayer_Forward_cpu dzero dadd dmul L (SepCPPLayer_Forward_cpu dzero dadd dmul L io) =
   SepCPPLayer_Forward_cpu dzero dadd dmul L io).
Proof.
  split; intros Hsh.
  - destruct (dense_forward_sizes L io Hsh) as (E1 & E2 & _ & HN & HC & HH & HW & Hlen).
    unfold CPPLayer_Forward_cpu. cbn [bottom0 bottom1 top0 data_ shape_ diff_].
    rewrite E1, E2. do 2 f_equal. now apply forward_nest_again.
  - destruct (sep_forward_sizes L io Hsh) as (E1 & E2 & _ & HN & HC & HH & HW & Hlen).
    unfold SepCPPLayer_Forward_cpu. cbn [bottom0 bottom1 top0 data_ shape_ diff_].
    rewrite E1, E2. do 2 f_equal. now apply forward_nest_again.
Qed.

(** X11.  What a forward pass leaves alone.  Both forward passes return the
    two input blobs unchanged and keep the shape and the gradient buffer of
    the output blob; on a well-shaped input the output buffer keeps its
    length, and every element at or beyond the element count N*C*H*W of the
    output blob keeps its value. *)
Theorem Forward_cpu_frame (L : LayerState) (io : Blobs Dtype) :
  let dense := CPPLayer_Forward_cpu dzero dadd dmul L io in
  let sep := SepCPPLayer_Forward_cpu dzero dadd dmul L io in
  (bottom0 dense = bottom0 io /\ bottom1 dense = bottom1 io /\
   shape_ (top0 dense) = shape_ (top0 io) /\
   diff_ (top0 dense) = diff_ (top0 io) /\
   (dense_shaped L io ->
    length (data_ (top0 dense)) = length (data_ (top0 io)) /\
    forall j, count (top0 io) 0 <= j ->
      load dzero (data_ (top0 dense)) j = load dzero (data_ (top0 io)) j)) /\
  (bottom0 sep = bottom0 io /\ bottom1 sep = bottom1 io /\
   shape_ (top0 sep) = shape_ (top0 io) /\
   diff_ (top0 sep) = diff_ (top0 io) /\
   (sep_shaped L io ->
    length (data_ (top0 sep)) = length (data_ (top0 io)) /\
    forall j, count (top0 io) 0 <= j ->
      load dzero (data_ (top0 sep)) j = load dzero (data_ (top0 io)) j)).
Proof.
  cbv zeta. split; (repeat (split; [reflexivity|])); intros Hsh.
  - destruct (dense_forward_sizes L io Hsh) as (E1 & E2 & E3 & HN & HC & HH & HW & Hlen).
    unfold CPPLayer_Forward_cpu. cbn [top0 data_]. rewrite E1, E2, E3.
    now apply forward_nest_frame.
  - destruct (sep_forward_sizes L io Hsh) as (E1 & E2 & E3 & HN & HC & HH & HW & Hlen).
    unfold SepCPPLayer_Forward_cpu. cbn [top0 data_]. rewrite E1, E2, E3.
    now apply forward_nest_frame.
Qed.

Lemma dense_assigns_functional (L : LayerState) (src img : list Dtype)
    (e : Z) (v v' : Dtype) :
  dense_assigned L e ->
  dense_assigns dzero dadd dmul L src img e v ->
  dense_assigns dzero dadd dmul L src img e v' -> v = v'.
Proof.
  intros (n & Hn & y & Hy & x & Hx & i & Hi & j & Hj & E) Hv Hv'.
  rewrite (Hv n y x i j) by (assumption || lia).
  now rewrite (Hv' n y x i j) by (assumption || lia).
Qed.

Lemma sep_assigns_functional (L : LayerState) (src img ker : list Dtype)
    (e : Z) (v v' : Dtype) :
  sep_assigned L e ->
  sep_assigns dzero dadd dmul L src img ker e v ->
  sep_assigns dzero dadd dmul L src img ker e v' -> v = v'.
Proof.
  intros (n & Hn & y & Hy & x & Hx & [(j & Hj & E)|(i & Hi & E)]) [Hh Hv] [Hh' Hv'].
  - rewrite (Hh n y x j) by (assumption || lia).
    now rewrite (Hh' n y x j) by (assumption || lia).
  - rewrite (Hv n y x i) by (assumption || lia).
    now rewrite (Hv' n y x i) by (assumption || lia).
Qed.

Lemma CPP_backward_shaped (L : LayerState) (pd : list bool) (io : Blobs Dtype) :
  dense_shaped L io -> dense_shaped L (CPPLayer_Backward_cpu dzero dadd dmul L pd io).
Proof.
  intros Hsh. destruct (CPP_backward_stores dzero dadd dmul L pd io Hsh) as (Hlen & _).
  destruct Hsh as [(Hs0 & Hst & HN & HC & HH & HW & Hodd & HP & Ha0 & Ha1 & Hat) Hs1].
  split; [|exact Hs1]. repeat (split; [assumption|]). split; [|exact Hat].
  destruct Ha1 as [Hd Hg]. split; [exact Hd|].
  unfold count in *. cbn [CPPLayer_Backward_cpu bottom1 shape_] in *.
  rewrite Hlen. exact Hg.
Qed.

Lemma SepCPP_backward_shaped (L : LayerState) (pd : list bool) (io : Blobs Dtype) :
  sep_shaped L io -> sep_shaped L (SepCPPLayer_Backward_cpu dzero dadd dmul L pd io).
Proof.
  intros Hsh. destruct (SepCPP_backward_stores dzero dadd dmul L pd io Hsh) as (Hlen & _).
  destruct Hsh as [(Hs0 & Hst & HN & HC & HH & HW & Hodd & HP & Ha0 & Ha1 & Hat) Hs1].
  split; [|exact Hs1]. repeat (split; [assumption|]). split; [|exact Hat].
  destruct Ha1 as [Hd Hg]. split; [exact Hd|].
  unfold count in *. cbn [SepCPPLayer_Backward_cpu bottom1 shape_] in *.
  rewrite Hlen. exact Hg.
Qed.

(** X12.  The backward passes overwrite the gradient entries they assign:
    on a well-shaped input a second run of [CPPLayer::Backward_cpu], or of
    [SepCPPLayer::Backward_cpu], on the blobs the first run left returns
    exactly the same blobs, whatever the [propagate_down] flags of the two
    runs.  Gradients are not accumulated across calls. *)
Theorem Backward_cpu_idempotent (L : LayerState) (pd pd' : list bool)
    (io : Blobs Dtype) :
  (dense_shaped L io ->
   CPPLayer_Backward_cpu dzero dadd dmul L pd'
     (CPPLayer_Backward_cpu dzero dadd dmul L pd io) =
   CPPLayer_Backward_cpu dzero dadd dmul L pd io) /\
  (sep_shaped L io ->
   SepCPPLayer_Backward_cpu dzero dadd dmul L pd'
     (SepCPPLayer_Backward_cpu dzero dadd dmul L pd io) =
   SepCPPLayer_Backward_cpu dzero dadd dmul L pd io).
Proof.
  split; intros Hsh.
  - set (io1 := CPPLayer_Backward_cpu dzero dadd dmul L pd io).
    pose proof (CPP_backward_stores dzero dadd dmul L pd io Hsh) as H1.
    pose proof (CPP_backward_stores dzero dadd dmul L pd' io1
                  (CPP_backward_shaped L pd io Hsh)) as H2.
    fold io1 in H1.
    assert (Hd : diff_ (bottom1 (CPPLayer_Backward_cpu dzero dadd dmul L pd' io1)) =
                 diff_ (bottom1 io1)).
    { eapply stores_into_again; [|exact H1|exact H2].
      intros e v v'. apply dense_assigns_functional. }
    change (CPPLayer_Backward_cpu dzero dadd dmul L pd' io1)
      with {| bottom0 := bottom0 io1;
              bottom1 := {| shape_ := shape_ (bottom1 io1);
                            data_ := data_ (bottom1 io1);
                            diff_ := diff_ (bottom1 (CPPLayer_Backward_cpu
                                                       dzero dadd dmul L pd' io1)) |};
              top0 := top0 io1 |}.
    rewrite Hd. reflexivity.
  - set (io1 := SepCPPLayer_Backward_cpu dzero dadd dmul L pd io).
    pose proof (SepCPP_backward_stores dzero dadd dmul L pd io Hsh) as H1.
    pose proof (SepCPP_backward_stores dzero dadd dmul L pd' io1
                  (SepCPP_backward_shaped L pd io Hsh)) as H2.
    fold io1 in H1.
    assert (Hd : diff_ (bottom1 (SepCPPLayer_Backward_cpu dzero dadd dmul L pd' io1)) =
                 diff_ (bottom1 io1)).
    { eapply stores_into_again; [|exact H1|exact H2].
      intros e v v'. apply sep_assigns_functional. }
    change (SepCPPLayer_Backward_cpu dzero dadd dmul L pd' io1)
      with {| bottom0 := bottom0 io1;
              bottom1 := {| shape_ := shape_ (bottom1 io1);
                            data_ := data_ (bottom1 io1);
                            diff_ := diff_ (bottom1 (SepCPPLayer_Backward_cpu
                                                       dzero dadd dmul L pd' io1)) |};
              top0 := top0 io1 |}.
    rewrite Hd. reflexivity.
Qed.
End Overwrite.

(** * Empty extents *)

Section Empty.
Context {Dtype : Type}.
Variables (dzero : Dtype) (dadd dmul : Dtype -> Dtype -> Dtype).

Lemma forward_nest_empty (L : LayerState) (PI PC : Z) pixel (out : list Dtype) :
  batch_num_ L <= 0 \/ channels_ L <= 0 \/ height_ L <= 0 \/ width_ L <= 0 ->
  forward_nest L PI PC pixel out = out.
Proof.
  intros Hempty. unfold forward_nest.
  apply for_range_id. intros n out1 Hn.
  apply for_range_id. intros c out2 Hc. cbv zeta.
  destruct (Z_le_gt_dec (height_ L) 0) as [HH|HH].
  - now rewrite for_range_nil by lia.
  - rewrite for_range_id; [reflexivity|].
    intros y st _. apply for_range_nil. lia.
Qed.

Lemma Blobs_eta (io : Blobs Dtype) :
  {| bottom0 := bottom0 io; bottom1 := bottom1 io;
     top0 := {| shape_ := shape_ (top0 io); data_ := data_ (top0 io);
                diff_ := diff_ (top0 io) |} |} = io.
Proof. destruct io as [b0 b1 [s d g]]. reflexivity. Qed.

Lemma Blobs_eta_bottom1 (io : Blobs Dtype) :
  {| bottom0 := bottom0 io;
     bottom1 := {| shape_ := shape_ (bottom1 io); data_ := data_ (bottom1 io);
                   diff_ := diff_ (bottom1 io) |};
     top0 := top0 io |} = io.
Proof. destruct io as [b0 [s d g] t]. reflexivity. Qed.

Lemma smart_for_empty {S : Type} (L : LayerState) (pos dim : Z)
    (body2 : Z -> Z -> S -> S) (s : S) :
  kernel_ L <= 0 -> smart_for L pos dim body2 s = s.
Proof. intros HK. rewrite smart_for_range. apply for_range_nil. lia. Qed.

(** X13.  A layer with an empty extent does nothing.  On blobs whose
    buffers exist (the accessors of a blob that has none abort): when the
    batch count, the channel count, the height or the width held by the layer
    is zero (or less), both forward passes return their blobs unchanged; when
    the batch count, the height, the width or the kernel size is zero (or
    less), both backward passes do.  No shape assumption is needed. *)
Theorem empty_extent_noop (L : LayerState) (pd : list bool) (io : Blobs Dtype) :
  has_buffers (bottom0 io) -> has_buffers (bottom1 io) -> has_buffers (top0 io) ->
  (batch_num_ L <= 0 \/ channels_ L <= 0 \/ height_ L <= 0 \/ width_ L <= 0 ->
   CPPLayer_Forward_cpu dzero dadd dmul L io = io /\
   SepCPPLayer_Forward_cpu dzero dadd dmul L io = io) /\
  (batch_num_ L <= 0 \/ height_ L <= 0 \/ width_ L <= 0 \/ kernel_ L <= 0 ->
   CPPLayer_Backward_cpu dzero dadd dmul L pd io = io /\
   SepCPPLayer_Backward_cpu dzero dadd dmul L pd io = io).
Proof.
  intros _ _ _. split; intros Hempty.
  - unfold CPPLayer_Forward_cpu, SepCPPLayer_Forward_cpu.
    rewrite !forward_nest_empty by exact Hempty. split; apply Blobs_eta.
  - unfold CPPLayer_Backward_cpu, SepCPPLayer_Backward_cpu. cbv zeta.
    split.
    + rewrite for_range_id; [apply Blobs_eta_bottom1|].
      intros n d1 Hn. apply for_range_id. intros y d2 Hy.
      apply for_range_id. intros x d3 Hx.
      rewrite smart_for_empty by lia. reflexivity.
    + rewrite for_range_id; [apply Blobs_eta_bottom1|].
      intros n d1 Hn. apply for_range_id. intros y d2 Hy.
      apply for_range_id. intros x d3 Hx.
      rewrite !smart_for_empty by lia. reflexivity.
Qed.

(** X14.  [LayerSetUp] alone leaves a layer that computes nothing: with the
    members as [CPPLayer::LayerSetUp] and [SepCPPLayer::LayerSetUp] set them,
    before any [Reshape], all four passes return blobs whose buffers exist
    unchanged. *)
Theorem LayerSetUp_passes_noop (pd : list bool) (io : Blobs Dtype) :
  has_buffers (bottom0 io) -> has_buffers (bottom1 io) -> has_buffers (top0 io) ->
  CPPLayer_Forward_cpu dzero dadd dmul LayerSetUp io = io /\
  SepCPPLayer_Forward_cpu dzero dadd dmul LayerSetUp io = io /\
  CPPLayer_Backward_cpu dzero dadd dmul LayerSetUp pd io = io /\
  SepCPPLayer_Backward_cpu dzero dadd dmul LayerSetUp pd io = io.
Proof. intros _ _ _. destruct io as [b0 [s1 d1 g1] [s d g]]. repeat split. Qed.
End Empty.

(** * Algebraic laws of the passes *)

Section Algebra.
Context {Dtype : Type}.
Variables (dzero done : Dtype) (dadd dmul dsub : Dtype -> Dtype -> Dtype)
          (dopp : Dtype -> Dtype).
Hypothesis Dtype_ring : ring_theory dzero done dadd dmul dsub dopp eq.
Add Ring DtypeRingAlgebra : Dtype_ring.

Local Infix "⊕" := dadd (at level 50, left associativity).
Local Infix "⊗" := dmul (at level 40, left associativity).
Local Abbreviation Σ := (dsum dzero dadd).
Local Abbreviation dat := (data_at dzero).
Local Abbreviation CPP_forward := (CPPLayer_Forward_cpu dzero dadd dmul).
Local Abbreviation SepCPP_forward := (SepCPPLayer_Forward_cpu dzero dadd dmul).
Local Abbreviation ringed l := (l dzero done dadd dmul dsub dopp Dtype_ring)
  (only parsing).

(** The closed form of the dense forward pass over the clamped window. *)
Lemma CPP_forward_window (L : LayerState) (io : Blobs Dtype) (n c y x : Z) :
  dense_shaped L io -> in_image L n c y x ->
  dat (top0 (CPP_forward L io)) n c y x =
  Σ (lo_ L y) (hi_ L y (height_ L)) (fun i =>
    Σ (lo_ L x) (hi_ L x (width_ L)) (fun j =>
      dat (bottom0 io) n c (y - padding_ L + i) (x - padding_ L + j) ⊗
      dat (bottom1 io) n (i * kernel_ L + j) y x)).
Proof.
  intros Hsh Hin. rewrite CPP_forward_data by assumption.
  now apply (ringed CPP_pixel_terms).
Qed.

Lemma window_in_image (L : LayerState) (n c y x i j : Z) :
  in_image L n c y x ->
  lo_ L y <= i < hi_ L y (height_ L) -> lo_ L x <= j < hi_ L x (width_ L) ->
  in_image L n c (y - padding_ L + i) (x - padding_ L + j) /\
  0 <= i < kernel_ L /\ 0 <= j < kernel_ L.
Proof. unfold in_image. lia. Qed.

(** X15.  With K = 1 the separable forward pass is a pointwise product with
    both weights of the pixel: [out[n,c,y,x] = img[n,c,y,x] * ker[n,0,y,x] *
    ker[n,1,y,x]], channel 0 being the horizontal and channel 1 the vertical
    weight. *)
Theorem SepCPP_forward_K1_pointwise (L : LayerState) (io : Blobs Dtype) (n c y x : Z) :
  sep_shaped L io -> kernel_ L = 1 -> in_image L n c y x ->
  dat (top0 (SepCPP_forward L io)) n c y x =
  dat (bottom0 io) n c y x ⊗ dat (bottom1 io) n 0 y x ⊗ dat (bottom1 io) n 1 y x.
Proof.
  intros Hsh HK Hin.
  rewrite (ringed SepCPP_forward_data) by assumption.
  assert (HP : padding_ L = 0).
  { destruct Hsh as [(_ & _ & _ & _ & _ & _ & _ & HP & _) _].
    rewrite HP, HK. reflexivity. }
  destruct Hin as (_ & _ & Hy & Hx). rewrite HP, HK.
  replace (Z.max (0 - y) 0) with 0 by lia.
  replace (Z.max (0 - x) 0) with 0 by lia.
  replace (Z.min 1 (height_ L + 0 - y)) with (0 + 1) by lia.
  replace (Z.min 1 (width_ L + 0 - x)) with (0 + 1) by lia.
  rewrite dsum_last, dsum_nil by lia.
  rewrite dsum_last, dsum_nil by lia.
  replace (y - 0 + 0) with y by lia. replace (x - 0 + 0) with x by lia.
  replace (1 + 0) with 1 by lia. ring.
Qed.

(** X16.  Both forward passes are linear in the image.  If, with the same
    kernel blob, the image of a third call is the combination
    [a * img1 + b * img2] of the images of two calls, element by element,
    then so is its output. *)
Theorem Forward_cpu_linear_in_image (L : LayerState) (io1 io2 io : Blobs Dtype)
    (a b : Dtype) :
  bottom1 io1 = bottom1 io -> bottom1 io2 = bottom1 io ->
  (forall n c y x, in_image L n c y x ->
     dat (bottom0 io) n c y x =
     a ⊗ dat (bottom0 io1) n c y x ⊕ b ⊗ dat (bottom0 io2) n c y x) ->
  (dense_shaped L io1 -> dense_shaped L io2 -> dense_shaped L io ->
   forall n c y x, in_image L n c y x ->
     dat (top0 (CPP_forward L io)) n c y x =
     a ⊗ dat (top0 (CPP_forward L io1)) n c y x ⊕
     b ⊗ dat (top0 (CPP_forward L io2)) n c y x) /\
  (sep_shaped L io1 -> sep_shaped L io2 -> sep_shaped L io ->
   forall n c y x, in_image L n c y x ->
     dat (top0 (SepCPP_forward L io)) n c y x =
     a ⊗ dat (top0 (SepCPP_forward L io1)) n c y x ⊕
     b ⊗ dat (top0 (SepCPP_forward L io2)) n c y x).
Proof.
  intros Hk1 Hk2 Himg. split; intros Hs1 Hs2 Hs n c y x Hin.
  - rewrite !CPP_forward_window by assumption. rewrite Hk1, Hk2.
    rewrite <- !(ringed dsum_mul_l), <- (ringed dsum_add).
    apply dsum_ext. intros i Hi.
    rewrite <- !(ringed dsum_mul_l), <- (ringed dsum_add).
    apply dsum_ext. intros j Hj.
    rewrite Himg by (eapply window_in_image; eassumption). ring.
  - rewrite !(ringed SepCPP_forward_data) by assumption. rewrite Hk1, Hk2.
    rewrite <- !(ringed dsum_mul_l), <- (ringed dsum_add).
    apply dsum_ext. intros i Hi.
    transitivity
      (Σ (lo_ L x) (hi_ L x (width_ L)) (fun j =>
         (a ⊗ (dat (bottom0 io1) n c (y - padding_ L + i) (x - padding_ L + j) ⊗
               dat (bottom1 io) n j y x) ⊕
          b ⊗ (dat (bottom0 io2) n c (y - padding_ L + i) (x - padding_ L + j) ⊗
               dat (bottom1 io) n j y x))) ⊗
       dat (bottom1 io) n (kernel_ L + i) y x).
    + f_equal. apply dsum_ext. intros j Hj.
      rewrite Himg by (eapply window_in_image; eassumption). ring.
    + rewrite (ringed dsum_add), !(ringed dsum_mul_l). ring.
Qed.

(** X17.  The dense forward pass is linear in the kernel blob: with the same
    image, if the kernels of a third call are [a * ker1 + b * ker2], element
    by element, then its output is the same combination of the two outputs.
    Together with X16 the pass is bilinear. *)
Theorem CPP_forward_linear_in_kernel (L : LayerState) (io1 io2 io : Blobs Dtype)
    (a b : Dtype) :
  dense_shaped L io1 -> dense_shaped L io2 -> dense_shaped L io ->
  bottom0 io1 = bottom0 io -> bottom0 io2 = bottom0 io ->
  (forall n ch y x,
     0 <= n < batch_num_ L -> 0 <= ch < kernel_ L * kernel_ L ->
     0 <= y < height_ L -> 0 <= x < width_ L ->
     dat (bottom1 io) n ch y x =
     a ⊗ dat (bottom1 io1) n ch y x ⊕ b ⊗ dat (bottom1 io2) n ch y x) ->
  forall n c y x, in_image L n c y x ->
    dat (top0 (CPP_forward L io)) n c y x =
    a ⊗ dat (top0 (CPP_forward L io1)) n c y x ⊕
    b ⊗ dat (top0 (CPP_forward L io2)) n c y x.
Proof.
  intros Hs1 Hs2 Hs Hi1 Hi2 Hker n c y x Hin.
  rewrite !CPP_forward_window by assumption. rewrite Hi1, Hi2.
  rewrite <- !(ringed dsum_mul_l), <- (ringed dsum_add).
  apply dsum_ext. intros i Hi.
  rewrite <- !(ringed dsum_mul_l), <- (ringed dsum_add).
  apply dsum_ext. intros j Hj.
  destruct (window_in_image L n c y x i j Hin Hi Hj) as (_ & Hi' & Hj').
  destruct Hin as (Hn & _ & Hy & Hx).
  rewrite Hker by (try assumption; apply flat_bound; lia). ring.
Qed.

(** X18.  The forward passes are local.  The output at (n, c, y, x) depends
    on the image only through the in-bounds part of the K x K window around
    (y, x) in channel c of batch n, and on the kernel blob only through the
    weights of pixel (y, x) of batch n: two calls that agree there agree on
    that output element. *)
Theorem Forward_cpu_local (L : LayerState) (io io' : Blobs Dtype) (n c y x : Z) :
  in_image L n c y x ->
  (forall i j, 0 <= i < kernel_ L -> 0 <= j < kernel_ L ->
     in_bounds L y (height_ L) i = true -> in_bounds L x (width_ L) j = true ->
     dat (bottom0 io) n c (y - padding_ L + i) (x - padding_ L + j) =
     dat (bottom0 io') n c (y - padding_ L + i) (x - padding_ L + j)) ->
  (dense_shaped L io -> dense_shaped L io' ->
   (forall ch, 0 <= ch < kernel_ L * kernel_ L ->
      dat (bottom1 io) n ch y x = dat (bottom1 io') n ch y x) ->
   dat (top0 (CPP_forward L io)) n c y x = dat (top0 (CPP_forward L io')) n c y x) /\
  (sep_shaped L io -> sep_shaped L io' ->
   (forall ch, 0 <= ch < 2 * kernel_ L ->
      dat (bottom1 io) n ch y x = dat (bottom1 io') n ch y x) ->
   dat (top0 (SepCPP_forward L io)) n c y x =
   dat (top0 (SepCPP_forward L io')) n c y x).
Proof.
  intros Hin Himg. split; intros Hs Hs' Hker.
  - rewrite !CPP_forward_window by assumption.
    apply dsum_ext. intros i Hi. apply dsum_ext. intros j Hj.
    apply window_range in Hi as [Hi Hbi]. apply window_range in Hj as [Hj Hbj].
    rewrite Himg by assumption. rewrite Hker by (apply flat_bound; lia).
    reflexivity.
  - rewrite !(ringed SepCPP_forward_data) by assumption.
    apply dsum_ext. intros i Hi. apply window_range in Hi as [Hi Hbi].
    rewrite (Hker (kernel_ L + i)) by lia. f_equal.
    apply dsum_ext. intros j Hj. apply window_range in Hj as [Hj Hbj].
    rewrite Himg by assumption. now rewrite (Hker j) by lia.
Qed.

Local Abbreviation dif := (diff_at dzero).

(** X19.  The separable gradient is the dense gradient contracted with the
    other filter.  On the same image and upstream gradient, the entry
    [SepCPPLayer::Backward_cpu] assigns to a horizontal weight j is the sum,
    over the in-bounds rows i, of the entry [CPPLayer::Backward_cpu] assigns
    to the dense weight (i, j) times the vertical weight i; and the entry of
    a vertical weight i is the sum over the in-bounds columns j of the dense
    entry (i, j) times the horizontal weight j: the chain rule through
    [K_dense[i*K+j] = K_horiz[j] * K_vert[i]]. *)
Theorem SepCPP_backward_contracts_dense (L : LayerState) (pd pd' : list bool)
    (io_sep io_dense : Blobs Dtype) (n y x : Z) :
  sep_shaped L io_sep -> dense_shaped L io_dense ->
  bottom0 io_dense = bottom0 io_sep -> top0 io_dense = top0 io_sep ->
  0 <= n < batch_num_ L -> 0 <= y < height_ L -> 0 <= x < width_ L ->
  let gs := bottom1 (SepCPPLayer_Backward_cpu dzero dadd dmul L pd io_sep) in
  let gd := bottom1 (CPPLayer_Backward_cpu dzero dadd dmul L pd' io_dense) in
  (forall j, 0 <= j < kernel_ L -> in_bounds L x (width_ L) j = true ->
     dif gs n j y x =
     dsum_if dzero dadd 0 (kernel_ L) (in_bounds L y (height_ L)) (fun i =>
       dif gd n (i * kernel_ L + j) y x ⊗ dat (bottom1 io_sep) n (kernel_ L + i) y x)) /\
  (forall i, 0 <= i < kernel_ L -> in_bounds L y (height_ L) i = true ->
     dif gs n (kernel_ L + i) y x =
     dsum_if dzero dadd 0 (kernel_ L) (in_bounds L x (width_ L)) (fun j =>
       dif gd n (i * kernel_ L + j) y x ⊗ dat (bottom1 io_sep) n j y x)).
Proof.
  intros Hsep Hden Hb0 Ht0 Hn Hy Hx gs gd. subst gs gd. split.
  - intros j Hj Hbj.
    rewrite (ringed SepCPP_backward_diff_h) by assumption.
    rewrite (ringed dsum_if_guard), <- (ringed dsum_window).
    apply dsum_ext. intros i Hi.
    destruct (in_bounds L y (height_ L) i) eqn:Hbi; [|reflexivity].
    rewrite (ringed CPP_backward_diff) by assumption.
    now rewrite Hb0, Ht0.
  - intros i Hi Hbi.
    rewrite (ringed SepCPP_backward_diff_v) by assumption.
    rewrite (ringed dsum_if_guard), <- (ringed dsum_window).
    apply dsum_ext. intros j Hj.
    destruct (in_bounds L x (width_ L) j) eqn:Hbj; [|reflexivity].
    rewrite (ringed CPP_backward_diff) by assumption.
    now rewrite Hb0, Ht0.
Qed.

Lemma odd_kernel_padding (L : LayerState) :
  Z.rem (kernel_ L) 2 = 1 -> padding_ L = Z.quot (kernel_ L - 1) 2 ->
  kernel_ L = 2 * padding_ L + 1.
Proof.
  intros Hodd HP. pose proof (kernel_nonneg L Hodd) as HK.
  rewrite Z.rem_mod_nonneg in Hodd by lia.
  rewrite Z.quot_div_nonneg in HP by lia.
  pose proof (Z.div_mod (kernel_ L) 2 ltac:(lia)) as E. rewrite Hodd in E.
  replace (kernel_ L - 1) with (kernel_ L / 2 * 2) in HP by lia.
  rewrite Z.div_mul in HP by lia. lia.
Qed.

(** X20.  Away from the border nothing is skipped: at an output pixel at
    least P rows and columns away from every edge, the dense forward pass is
    the plain sum over all K x K offsets of image value times weight. *)
Theorem CPP_forward_interior (L : LayerState) (io : Blobs Dtype) (n c y x : Z) :
  dense_shaped L io -> in_image L n c y x ->
  padding_ L <= y < height_ L - padding_ L ->
  padding_ L <= x < width_ L - padding_ L ->
  dat (top0 (CPP_forward L io)) n c y x =
  Σ 0 (kernel_ L) (fun i => Σ 0 (kernel_ L) (fun j =>
    dat (bottom0 io) n c (y - padding_ L + i) (x - padding_ L + j) ⊗
    dat (bottom1 io) n (i * kernel_ L + j) y x)).
Proof.
  intros Hsh Hin Hy Hx. rewrite CPP_forward_window by assumption.
  destruct Hsh as [(_ & _ & _ & _ & _ & _ & Hodd & HP & _) _].
  pose proof (odd_kernel_padding L Hodd HP) as HK.
  replace (lo_ L y) with 0 by lia. replace (lo_ L x) with 0 by lia.
  replace (hi_ L y (height_ L)) with (kernel_ L) by lia.
  replace (hi_ L x (width_ L)) with (kernel_ L) by lia.
  reflexivity.
Qed.

(** X21.  The dense backward pass is the adjoint of the forward pass with
    respect to the kernel blob.  For a well-shaped input, the forward output
    paired with the upstream gradient equals the kernel blob paired with the
    gradient [CPPLayer::Backward_cpu] leaves, the latter taken over the
    in-bounds entries only (the others are never assigned):
    [sum src * Forward(img, ker) = sum Backward(src, img) * ker]. *)
Theorem CPP_backward_adjoint (L : LayerState) (pd : list bool) (io : Blobs Dtype) :
  dense_shaped L io ->
  pairing dzero dadd dmul L (top0 io) (top0 (CPP_forward L io)) =
  Σ 0 (batch_num_ L) (fun n =>
    Σ 0 (height_ L) (fun y =>
      Σ 0 (width_ L) (fun x =>
        Σ 0 (kernel_ L) (fun i =>
          Σ 0 (kernel_ L) (fun j =>
            if in_bounds L y (height_ L) i && in_bounds L x (width_ L) j
            then dif (bottom1 (CPPLayer_Backward_cpu dzero dadd dmul L pd io))
                   n (i * kernel_ L + j) y x ⊗
                 dat (bottom1 io) n (i * kernel_ L + j) y x
            else dzero))))).
Proof.
  intros Hsh. unfold pairing.
  set (t := fun n c y x i j =>
         if in_bounds L y (height_ L) i && in_bounds L x (width_ L) j
         then dif (top0 io) n c y x ⊗
              dat (bottom0 io) n c (y - padding_ L + i) (x - padding_ L + j) ⊗
              dat (bottom1 io) n (i * kernel_ L + j) y x
         else dzero).
  transitivity
    (Σ 0 (batch_num_ L) (fun n => Σ 0 (channels_ L) (fun c =>
       Σ 0 (height_ L) (fun y => Σ 0 (width_ L) (fun x =>
         Σ 0 (kernel_ L) (fun i => Σ 0 (kernel_ L) (fun j => t n c y x i j))))))).
  - apply dsum_ext. intros n Hn. apply dsum_ext. intros c Hc.
    apply dsum_ext. intros y Hy. apply dsum_ext. intros x Hx.
    rewrite CPP_forward_window by (unfold in_image; tauto).
    rewrite (ringed dsum_window2).
    rewrite <- (ringed dsum_mul_l). apply dsum_ext. intros i Hi.
    rewrite <- (ringed dsum_mul_l). apply dsum_ext. intros j Hj.
    unfold t. destruct (in_bounds L y (height_ L) i && in_bounds L x (width_ L) j);
      ring.
  - apply dsum_ext. intros n Hn.
    rewrite (ringed dsum_swap). apply dsum_ext. intros y Hy.
    rewrite (ringed dsum_swap). apply dsum_ext. intros x Hx.
    rewrite (ringed dsum_swap). apply dsum_ext. intros i Hi.
    rewrite (ringed dsum_swap). apply dsum_ext. intros j Hj.
    unfold t.
    destruct (in_bounds L y (height_ L) i) eqn:Hbi;
      destruct (in_bounds L x (width_ L) j) eqn:Hbj; cbn [andb];
      try (apply (ringed dsum_zero); reflexivity).
    rewrite (ringed CPP_backward_diff) by assumption.
    now rewrite <- (ringed dsum_mul_r).
Qed.

End Algebra.


(** * The two halves of the separable layer *)

Section Separable.
Context {Dtype : Type}.
Variables (dzero done : Dtype) (dadd dmul dsub : Dtype -> Dtype -> Dtype)
          (dopp : Dtype -> Dtype).
Hypothesis Dtype_ring : ring_theory dzero done dadd dmul dsub dopp eq.
Add Ring DtypeRingSeparable : Dtype_ring.

Local Infix "⊕" := dadd (at level 50, left associativity).
Local Infix "⊗" := dmul (at level 40, left associativity).
Local Abbreviation Σ := (dsum dzero dadd).
Local Abbreviation dat := (data_at dzero).
Local Abbreviation dif := (diff_at dzero).
Local Abbreviation ringed l := (l dzero done dadd dmul dsub dopp Dtype_ring)
  (only parsing).

(** X24.  The two one-dimensional passes of the separable layer commute.
    [SepCPPLayer::Forward_cpu] forms row sums with the horizontal weights and
    combines them with the vertical weights; its output equals the one
    obtained the other way round, from column sums with the vertical weights
    combined with the horizontal weights. *)
Theorem SepCPP_forward_passes_commute (L : LayerState) (io : Blobs Dtype)
    (n c y x : Z) :
  sep_shaped L io -> in_image L n c y x ->
  dat (top0 (SepCPPLayer_Forward_cpu dzero dadd dmul L io)) n c y x =
  dsum_if dzero dadd 0 (kernel_ L) (in_bounds L x (width_ L)) (fun j =>
    dsum_if dzero dadd 0 (kernel_ L) (in_bounds L y (height_ L)) (fun i =>
      dat (bottom0 io) n c (y - padding_ L + i) (x - padding_ L + j) ⊗
      dat (bottom1 io) n (kernel_ L + i) y x) ⊗
    dat (bottom1 io) n j y x).
Proof.
  intros Hsh Hin.
  rewrite (ringed SepCPP_forward_data) by assumption.
  rewrite (ringed dsum_if_guard), (ringed dsum_window).
  transitivity
    (Σ (lo_ L x) (hi_ L x (width_ L)) (fun j =>
       Σ (lo_ L y) (hi_ L y (height_ L)) (fun i =>
         dat (bottom0 io) n c (y - padding_ L + i) (x - padding_ L + j) ⊗
         dat (bottom1 io) n j y x ⊗ dat (bottom1 io) n (kernel_ L + i) y x))).
  - rewrite (ringed dsum_swap). apply dsum_ext. intros i _.
    now rewrite (ringed dsum_mul_r).
  - apply dsum_ext. intros j _.
    rewrite (ringed dsum_if_guard), (ringed dsum_window).
    rewrite <- (ringed dsum_mul_r). apply dsum_ext. intros i _. ring.
Qed.
(** X25.  Each half of the separable gradient pairs with its filter to the
    forward output.  For a well-shaped input and every pixel (n, y, x), the
    sum over the in-bounds horizontal weights of gradient entry times weight,
    and the sum over the in-bounds vertical weights of gradient entry times
    weight, both equal the sum over the channels of upstream gradient times
    forward output at that pixel: the output is linear in either filter, and
    [SepCPPLayer::Backward_cpu] is its adjoint with respect to each. *)
Theorem SepCPP_backward_pairs_with_forward (L : LayerState) (pd : list bool)
    (io : Blobs Dtype) (n y x : Z) :
  sep_shaped L io ->
  0 <= n < batch_num_ L -> 0 <= y < height_ L -> 0 <= x < width_ L ->
  let g := bottom1 (SepCPPLayer_Backward_cpu dzero dadd dmul L pd io) in
  let paired :=
    Σ 0 (channels_ L) (fun c =>
      dif (top0 io) n c y x ⊗
      dat (top0 (SepCPPLayer_Forward_cpu dzero dadd dmul L io)) n c y x) in
  dsum_if dzero dadd 0 (kernel_ L) (in_bounds L x (width_ L)) (fun j =>
    dif g n j y x ⊗ dat (bottom1 io) n j y x) = paired /\
  dsum_if dzero dadd 0 (kernel_ L) (in_bounds L y (height_ L)) (fun i =>
    dif g n (kernel_ L + i) y x ⊗ dat (bottom1 io) n (kernel_ L + i) y x) = paired.
Proof.
  intros Hsh Hn Hy Hx g paired. subst g paired.
  set (t := fun c i j =>
         dif (top0 io) n c y x ⊗
         dat (bottom0 io) n c (y - padding_ L + i) (x - padding_ L + j) ⊗
         dat (bottom1 io) n j y x ⊗ dat (bottom1 io) n (kernel_ L + i) y x).
  assert (Hfwd :
    Σ 0 (channels_ L) (fun c =>
      dif (top0 io) n c y x ⊗
      dat (top0 (SepCPPLayer_Forward_cpu dzero dadd dmul L io)) n c y x) =
    Σ (lo_ L y) (hi_ L y (height_ L)) (fun i =>
      Σ (lo_ L x) (hi_ L x (width_ L)) (fun j =>
        Σ 0 (channels_ L) (fun c => t c i j)))).
  { transitivity
      (Σ 0 (channels_ L) (fun c =>
         Σ (lo_ L y) (hi_ L y (height_ L)) (fun i =>
           Σ (lo_ L x) (hi_ L x (width_ L)) (fun j => t c i j)))).
    - apply dsum_ext. intros c Hc.
      rewrite (ringed SepCPP_forward_data) by (unfold in_image; tauto).
      rewrite <- (ringed dsum_mul_l). apply dsum_ext. intros i _.
      rewrite <- (ringed dsum_mul_r), <- (ringed dsum_mul_l).
      apply dsum_ext. intros j _. unfold t. ring.
    - rewrite (ringed dsum_swap). apply dsum_ext. intros i _.
      apply (ringed dsum_swap). }
  rewrite Hfwd. split.
  - rewrite (ringed dsum_if_guard), (ringed dsum_window).
    rewrite (ringed dsum_swap). apply dsum_ext. intros j Hj.
    apply window_range in Hj as [Hj Hbj].
    rewrite (ringed SepCPP_backward_diff_h) by assumption.
    rewrite <- (ringed dsum_mul_r). apply dsum_ext. intros i _.
    rewrite <- !(ringed dsum_mul_r). apply dsum_ext. intros c _. unfold t. ring.
  - rewrite (ringed dsum_if_guard), (ringed dsum_window).
    apply dsum_ext. intros i Hi. apply window_range in Hi as [Hi Hbi].
    rewrite (ringed SepCPP_backward_diff_v) by assumption.
    rewrite <- (ringed dsum_mul_r). apply dsum_ext. intros j _.
    rewrite <- !(ringed dsum_mul_r). apply dsum_ext. intros c _. unfold t. ring.
Qed.
End Separable.

(** * The further theorems at concrete inputs *)

Lemma dims_valid_image3 : dims_valid image3.
Proof. repeat constructor; vm_compute; congruence. Qed.

Lemma dims_valid_dense_kernels3 : dims_valid dense_kernels3.
Proof. repeat constructor; vm_compute; congruence. Qed.

Lemma dims_valid_sep_kernels3 : dims_valid sep_kernels3.
Proof. repeat constructor; vm_compute; congruence. Qed.

Lemma sep_identity_io_shaped : sep_shaped L1 sep_identity_io.
Proof. shaped. Qed.

(** Both layers on their 3x3 inputs stay in bounds; with an empty kernel
    buffer the first read of the checked dense pass fails. *)
Lemma Forward_cpu_in_bounds_witness :
  dense_shaped L3 dense_io3 /\ sep_shaped L3 sep_io3 /\
  CPPLayer_Forward_cpu_checked 0 Z.add Z.mul L3 dense_io3 =
  Some (CPPLayer_Forward_cpu 0 Z.add Z.mul L3 dense_io3) /\
  SepCPPLayer_Forward_cpu_checked 0 Z.add Z.mul L3 sep_io3 =
  Some (SepCPPLayer_Forward_cpu 0 Z.add Z.mul L3 sep_io3) /\
  CPPLayer_Forward_cpu_checked 0 Z.add Z.mul L3 (with_kernel_data dense_io3 []) = None.
Proof.
  assert (Hd : dense_shaped L3 dense_io3) by shaped.
  assert (Hs : sep_shaped L3 sep_io3) by shaped.
  split; [exact Hd|]. split; [exact Hs|]. split; [|split].
  - exact (proj1 (Forward_cpu_in_bounds 0 Z.add Z.mul L3 dense_io3) Hd).
  - exact (proj2 (Forward_cpu_in_bounds 0 Z.add Z.mul L3 sep_io3) Hs).
  - reflexivity.
Defined.

(** The same for the backward passes; with an empty gradient buffer the
    first write of the checked dense pass fails. *)
Lemma Backward_cpu_in_bounds_witness :
  dense_shaped L3 dense_io3 /\ sep_shaped L3 sep_io3 /\
  CPPLayer_Backward_cpu_checked 0 Z.add Z.mul L3 [true; true] dense_io3 =
  Some (CPPLayer_Backward_cpu 0 Z.add Z.mul L3 [true; true] dense_io3) /\
  SepCPPLayer_Backward_cpu_checked 0 Z.add Z.mul L3 [true; true] sep_io3 =
  Some (SepCPPLayer_Backward_cpu 0 Z.add Z.mul L3 [true; true] sep_io3) /\
  CPPLayer_Backward_cpu_checked 0 Z.add Z.mul L3 [true; true]
    {| bottom0 := image3;
       bottom1 := {| shape_ := [1; 9; 3; 3]; data_ := replicate 81 2; diff_ := [] |};
       top0 := top3 |} = None.
Proof.
  assert (Hd : dense_shaped L3 dense_io3) by shaped.
  assert (Hs : sep_shaped L3 sep_io3) by shaped.
  split; [exact Hd|]. split; [exact Hs|]. split; [|split].
  - exact (proj1 (Backward_cpu_in_bounds 0 Z.add Z.mul L3 [true; true] dense_io3) Hd).
  - exact (proj2 (Backward_cpu_in_bounds 0 Z.add Z.mul L3 [true; true] sep_io3) Hs).
  - reflexivity.
Defined.

(** Eight channels are no square and seven are odd. *)
Lemma Reshape_rejects_channel_count_witness :
  CPPLayer_Reshape 0 (shapes_io [1; 1; 3; 3] [1; 8; 5; 7]) =
  Fatal (CheckFailed "input channel dimension must be a square of an integer.") /\
  SepCPPLayer_Reshape 0 (shapes_io [1; 1; 3; 3] [1; 7; 5; 7]) =
  Fatal (CheckFailed "kernel blob channel dimension must be an even integer.").
Proof.
  split.
  - apply (proj1 (Reshape_rejects_channel_count 0
                    (shapes_io [1; 1; 3; 3] [1; 8; 5; 7]) 1 1 3 3 8 5 7
                    eq_refl eq_refl ltac:(vm_compute; split; congruence))).
    intros k E. assert (Hk : -3 < k < 3) by nia.
    assert (Hc : k = -2 \/ k = -1 \/ k = 0 \/ k = 1 \/ k = 2) by lia.
    destruct Hc as [-> | [-> | [-> | [-> | ->]]]]; discriminate E.
  - apply (proj2 (Reshape_rejects_channel_count 0
                    (shapes_io [1; 1; 3; 3] [1; 7; 5; 7]) 1 1 3 3 7 5 7
                    eq_refl eq_refl ltac:(vm_compute; split; congruence))).
    reflexivity.
Defined.

(** Four channels: K = 2 for either layer. *)
Lemma Reshape_rejects_even_kernel_witness :
  CPPLayer_Reshape 0 (shapes_io [1; 1; 3; 3] [1; 4; 3; 3]) =
  Fatal (CheckFailed "input kernel size must be an odd integer.") /\
  SepCPPLayer_Reshape 0 (shapes_io [1; 1; 3; 3] [1; 4; 3; 3]) =
  Fatal (CheckFailed "input kernel size must be an odd integer.").
Proof.
  destruct (Reshape_rejects_even_kernel 0
              (shapes_io [1; 1; 3; 3] [1; 4; 3; 3]) 1 1 3 3 4 3 3 2
              eq_refl eq_refl ltac:(lia) eq_refl
              ltac:(vm_compute; congruence)) as [Hd Hs].
  split; [apply Hd|apply Hs]; reflexivity.
Defined.

(** A 3x3 image against 3x4 kernels (width 4) and against 4x3 kernels
    (height 4). *)
Lemma Reshape_spatial_messages_witness :
  CPPLayer_Reshape 0 (shapes_io [1; 1; 3; 3] [1; 9; 3; 4]) =
  Fatal (CheckFailed "inputs must have the same height.") /\
  CPPLayer_Reshape 0 (shapes_io [1; 1; 3; 3] [1; 9; 4; 3]) =
  Fatal (CheckFailed "inputs must have the same width.") /\
  SepCPPLayer_Reshape 0 (shapes_io [1; 1; 3; 3] [1; 6; 3; 4]) =
  Fatal (CheckFailed "inputs must have the same height.").
Proof.
  split; [|split].
  - destruct (Reshape_spatial_messages 0 (shapes_io [1; 1; 3; 3] [1; 9; 3; 4])
                1 1 3 3 9 3 4 eq_refl eq_refl) as [Hd _].
    destruct (Hd eq_refl) as [Hw _]. apply Hw. lia.
  - destruct (Reshape_spatial_messages 0 (shapes_io [1; 1; 3; 3] [1; 9; 4; 3])
                1 1 3 3 9 4 3 eq_refl eq_refl) as [Hd _].
    destruct (Hd eq_refl) as [_ Hh]. apply Hh; [reflexivity|lia].
  - destruct (Reshape_spatial_messages 0 (shapes_io [1; 1; 3; 3] [1; 6; 3; 4])
                1 1 3 3 6 3 4 eq_refl eq_refl) as [_ Hs].
    destruct (Hs eq_refl) as [Hw _]. apply Hw. lia.
Defined.

Lemma CPP_kernel_size_round_trip_witness :
  0 <= 4097 /\ 4097 * 4097 <= INT_MAX /\ CPP_kernel_size (4097 * 4097) = 4097.
Proof.
  assert (H0 : 0 <= 4097) by lia.
  assert (H1 : 4097 * 4097 <= INT_MAX) by (vm_compute; congruence).
  split; [exact H0|]. split; [exact H1|].
  exact (CPP_kernel_size_round_trip 4097 H0 H1).
Defined.

Ltac allocated := unfold blob_allocated; split; vm_compute; congruence.

(** [dense_io3] passes the dense validator and is run forward. *)
Lemma CPPLayer_Reshape_then_Forward_witness :
  inputs_agree pac_channel_rule (bottom0 dense_io3) (bottom1 dense_io3) /\
  exists L io',
    CPPLayer_Reshape 0 dense_io3 = Ok (L, io') /\
    shape_ (top0 (CPPLayer_Forward_cpu 0 Z.add Z.mul L io')) = [1; 1; 3; 3].
Proof.
  assert (Hag : inputs_agree pac_channel_rule (bottom0 dense_io3) (bottom1 dense_io3)).
  { unfold inputs_agree. repeat split. exists 3. split; reflexivity. }
  split; [exact Hag|].
  destruct (CPPLayer_Reshape_then_Forward 0 1 Z.add Z.mul Z.sub Z.opp Zth dense_io3
              dims_valid_image3 dims_valid_dense_kernels3
              ltac:(allocated) ltac:(allocated) eq_refl Hag)
    as (L & io' & HRe & Hshape & _).
  exists L, io'. split; [exact HRe|exact Hshape].
Defined.

Lemma SepCPPLayer_Reshape_then_Forward_witness :
  inputs_agree sep_channel_rule (bottom0 sep_io3) (bottom1 sep_io3) /\
  exists L io',
    SepCPPLayer_Reshape 0 sep_io3 = Ok (L, io') /\
    shape_ (top0 (SepCPPLayer_Forward_cpu 0 Z.add Z.mul L io')) = [1; 1; 3; 3].
Proof.
  assert (Hag : inputs_agree sep_channel_rule (bottom0 sep_io3) (bottom1 sep_io3)).
  { unfold inputs_agree. repeat split. }
  split; [exact Hag|].
  destruct (SepCPPLayer_Reshape_then_Forward 0 1 Z.add Z.mul Z.sub Z.opp Zth sep_io3
              dims_valid_image3 dims_valid_sep_kernels3
              ltac:(allocated) ltac:(allocated) eq_refl Hag)
    as (L & io' & HRe & Hshape & _).
  exists L, io'. split; [exact HRe|exact Hshape].
Defined.

Lemma Forward_cpu_idempotent_witness :
  dense_shaped L3 dense_io3 /\ sep_shaped L3 sep_io3 /\
  CPPLayer_Forward_cpu 0 Z.add Z.mul L3 (CPPLayer_Forward_cpu 0 Z.add Z.mul L3 dense_io3) =
  CPPLayer_Forward_cpu 0 Z.add Z.mul L3 dense_io3 /\
  SepCPPLayer_Forward_cpu 0 Z.add Z.mul L3
    (SepCPPLayer_Forward_cpu 0 Z.add Z.mul L3 sep_io3) =
  SepCPPLayer_Forward_cpu 0 Z.add Z.mul L3 sep_io3.
Proof.
  assert (Hd : dense_shaped L3 dense_io3) by shaped.
  assert (Hs : sep_shaped L3 sep_io3) by shaped.
  split; [exact Hd|]. split; [exact Hs|]. split.
  - exact (proj1 (Forward_cpu_idempotent 0 Z.add Z.mul L3 dense_io3) Hd).
  - exact (proj2 (Forward_cpu_idempotent 0 Z.add Z.mul L3 sep_io3) Hs).
Defined.

Lemma Forward_cpu_frame_witness :
  dense_shaped L3 dense_io3 /\
  length (data_ (top0 (CPPLayer_Forward_cpu 0 Z.add Z.mul L3 dense_io3))) =
  length (data_ (top0 dense_io3)).
Proof.
  assert (Hd : dense_shaped L3 dense_io3) by shaped.
  split; [exact Hd|].
  destruct (Forward_cpu_frame 0 Z.add Z.mul L3 dense_io3)
    as [(_ & _ & _ & _ & Hfr) _].
  exact (proj1 (Hfr Hd)).
Defined.

Lemma Backward_cpu_idempotent_witness :
  dense_shaped L3 dense_io3 /\ sep_shaped L3 sep_io3 /\
  CPPLayer_Backward_cpu 0 Z.add Z.mul L3 [false; true]
    (CPPLayer_Backward_cpu 0 Z.add Z.mul L3 [true; true] dense_io3) =
  CPPLayer_Backward_cpu 0 Z.add Z.mul L3 [true; true] dense_io3 /\
  SepCPPLayer_Backward_cpu 0 Z.add Z.mul L3 [false; true]
    (SepCPPLayer_Backward_cpu 0 Z.add Z.mul L3 [true; true] sep_io3) =
  SepCPPLayer_Backward_cpu 0 Z.add Z.mul L3 [true; true] sep_io3.
Proof.
  assert (Hd : dense_shaped L3 dense_io3) by shaped.
  assert (Hs : sep_shaped L3 sep_io3) by shaped.
  split; [exact Hd|]. split; [exact Hs|]. split.
  - exact (proj1 (Backward_cpu_idempotent 0 Z.add Z.mul L3 [true; true]
                    [false; true] dense_io3) Hd).
  - exact (proj2 (Backward_cpu_idempotent 0 Z.add Z.mul L3 [true; true]
                    [false; true] sep_io3) Hs).
Defined.

Ltac buffers := unfold has_buffers; split; vm_compute; congruence.

(** An empty batch in blobs that keep their buffers: the dense forward pass
    and the separable backward pass return them as they are. *)
Lemma empty_extent_noop_witness :
  has_buffers (bottom0 dense_io_empty) /\ has_buffers (bottom1 dense_io_empty) /\
  has_buffers (top0 dense_io_empty) /\ has_buffers (bottom1 sep_io_empty) /\
  batch_num_ L_empty <= 0 /\
  CPPLayer_Forward_cpu 0 Z.add Z.mul L_empty dense_io_empty = dense_io_empty /\
  SepCPPLayer_Backward_cpu 0 Z.add Z.mul L_empty [true; true] sep_io_empty =
  sep_io_empty.
Proof.
  assert (B0 : has_buffers (bottom0 dense_io_empty)) by buffers.
  assert (B1 : has_buffers (bottom1 dense_io_empty)) by buffers.
  assert (Bt : has_buffers (top0 dense_io_empty)) by buffers.
  assert (B1s : has_buffers (bottom1 sep_io_empty)) by buffers.
  assert (H0 : batch_num_ L_empty <= 0) by (cbn; lia).
  split; [exact B0|]. split; [exact B1|]. split; [exact Bt|].
  split; [exact B1s|]. split; [exact H0|]. split.
  - exact (proj1 (proj1 (empty_extent_noop 0 Z.add Z.mul L_empty [] dense_io_empty
                           B0 B1 Bt) (or_introl H0))).
  - exact (proj2 (proj2 (empty_extent_noop 0 Z.add Z.mul L_empty [true; true]
                           sep_io_empty B0 B1s Bt) (or_introl H0))).
Defined.

(** The blobs of [dense_io3] and [sep_io3] in a layer that was set up but
    never reshaped. *)
Lemma LayerSetUp_passes_noop_witness :
  has_buffers (bottom0 dense_io3) /\ has_buffers (bottom1 dense_io3) /\
  has_buffers (top0 dense_io3) /\ has_buffers (bottom1 sep_io3) /\
  CPPLayer_Forward_cpu 0 Z.add Z.mul LayerSetUp dense_io3 = dense_io3 /\
  CPPLayer_Backward_cpu 0 Z.add Z.mul LayerSetUp [true; true] dense_io3 = dense_io3 /\
  SepCPPLayer_Forward_cpu 0 Z.add Z.mul LayerSetUp sep_io3 = sep_io3 /\
  SepCPPLayer_Backward_cpu 0 Z.add Z.mul LayerSetUp [true; true] sep_io3 = sep_io3.
Proof.
  assert (B0 : has_buffers (bottom0 dense_io3)) by buffers.
  assert (B1 : has_buffers (bottom1 dense_io3)) by buffers.
  assert (Bt : has_buffers (top0 dense_io3)) by buffers.
  assert (B1s : has_buffers (bottom1 sep_io3)) by buffers.
  split; [exact B0|]. split; [exact B1|]. split; [exact Bt|]. split; [exact B1s|].
  destruct (LayerSetUp_passes_noop 0 Z.add Z.mul [true; true] dense_io3 B0 B1 Bt)
    as (Hf & _ & Hb & _).
  destruct (LayerSetUp_passes_noop 0 Z.add Z.mul [true; true] sep_io3 B0 B1s Bt)
    as (_ & Hfs & _ & Hbs).
  split; [exact Hf|]. split; [exact Hb|]. split; [exact Hfs|exact Hbs].
Defined.

(** K = 1: the output at (1, 2, 3, 3) is 96 * 2 * 3. *)
Lemma SepCPP_forward_K1_pointwise_witness :
  sep_shaped L1 sep_identity_io /\ kernel_ L1 = 1 /\ in_image L1 1 2 3 3 /\
  data_at 0 (top0 (SepCPPLayer_Forward_cpu 0 Z.add Z.mul L1 sep_identity_io)) 1 2 3 3 =
  576.
Proof.
  assert (Hs : sep_shaped L1 sep_identity_io) by shaped.
  assert (Hi : in_image L1 1 2 3 3) by shaped.
  split; [exact Hs|]. split; [reflexivity|]. split; [exact Hi|].
  etransitivity;
    [exact (SepCPP_forward_K1_pointwise 0 1 Z.add Z.mul Z.sub Z.opp Zth
              L1 sep_identity_io 1 2 3 3 Hs eq_refl Hi)|reflexivity].
Defined.

(** Three different images, [image3c = 3 * image3 - 2 * image3b], under the
    same kernels: at the centre pixel the outputs are 258 = 3 * 90 - 2 * 6 for
    either layer. *)
Lemma Forward_cpu_linear_in_image_witness :
  dense_shaped L3 dense_io3 /\ sep_shaped L3 sep_io3 /\ in_image L3 0 0 1 1 /\
  data_ image3 <> data_ image3b /\
  data_at 0 (top0 (CPPLayer_Forward_cpu 0 Z.add Z.mul L3
                     {| bottom0 := image3c; bottom1 := dense_kernels3;
                        top0 := top3 |})) 0 0 1 1 =
  3 * data_at 0 (top0 (CPPLayer_Forward_cpu 0 Z.add Z.mul L3 dense_io3)) 0 0 1 1 +
  -2 * data_at 0 (top0 (CPPLayer_Forward_cpu 0 Z.add Z.mul L3
                          {| bottom0 := image3b; bottom1 := dense_kernels3;
                             top0 := top3 |})) 0 0 1 1 /\
  data_at 0 (top0 (SepCPPLayer_Forward_cpu 0 Z.add Z.mul L3
                     {| bottom0 := image3c; bottom1 := sep_kernels3;
                        top0 := top3 |})) 0 0 1 1 =
  3 * data_at 0 (top0 (SepCPPLayer_Forward_cpu 0 Z.add Z.mul L3 sep_io3)) 0 0 1 1 +
  -2 * data_at 0 (top0 (SepCPPLayer_Forward_cpu 0 Z.add Z.mul L3
                          {| bottom0 := image3b; bottom1 := sep_kernels3;
                             top0 := top3 |})) 0 0 1 1 /\
  data_at 0 (top0 (CPPLayer_Forward_cpu 0 Z.add Z.mul L3 dense_io3)) 0 0 1 1 = 90 /\
  data_at 0 (top0 (CPPLayer_Forward_cpu 0 Z.add Z.mul L3
                     {| bottom0 := image3b; bottom1 := dense_kernels3;
                        top0 := top3 |})) 0 0 1 1 = 6 /\
  data_at 0 (top0 (CPPLayer_Forward_cpu 0 Z.add Z.mul L3
                     {| bottom0 := image3c; bottom1 := dense_kernels3;
                        top0 := top3 |})) 0 0 1 1 = 258.
Proof.
  assert (Hd : dense_shaped L3 dense_io3) by shaped.
  assert (Hs : sep_shaped L3 sep_io3) by shaped.
  assert (Hi : in_image L3 0 0 1 1) by shaped.
  assert (Hcomb : forall bk n c y x, in_image L3 n c y x ->
            data_at 0 (bottom0 {| bottom0 := image3c; bottom1 := bk; top0 := top3 |})
              n c y x =
            3 * data_at 0 (bottom0 {| bottom0 := image3; bottom1 := bk; top0 := top3 |})
                  n c y x +
            -2 * data_at 0 (bottom0 {| bottom0 := image3b; bottom1 := bk;
                                       top0 := top3 |}) n c y x).
  { intros bk n c y x (Hn & Hc & Hy & Hx).
    assert (n = 0) as -> by (cbn in Hn; lia).
    assert (c = 0) as -> by (cbn in Hc; lia).
    destruct (range3 y Hy) as [-> | [-> | ->]];
      destruct (range3 x Hx) as [-> | [-> | ->]]; reflexivity. }
  split; [exact Hd|]. split; [exact Hs|]. split; [exact Hi|].
  split; [discriminate|]. split; [|split; [|repeat split]].
  - apply (proj1 (Forward_cpu_linear_in_image 0 1 Z.add Z.mul Z.sub Z.opp Zth
                    L3 dense_io3
                    {| bottom0 := image3b; bottom1 := dense_kernels3; top0 := top3 |}
                    {| bottom0 := image3c; bottom1 := dense_kernels3; top0 := top3 |}
                    3 (-2) eq_refl eq_refl (Hcomb dense_kernels3))
             Hd ltac:(shaped) ltac:(shaped) 0 0 1 1 Hi).
  - apply (proj2 (Forward_cpu_linear_in_image 0 1 Z.add Z.mul Z.sub Z.opp Zth
                    L3 sep_io3
                    {| bottom0 := image3b; bottom1 := sep_kernels3; top0 := top3 |}
                    {| bottom0 := image3c; bottom1 := sep_kernels3; top0 := top3 |}
                    3 (-2) eq_refl eq_refl (Hcomb sep_kernels3))
             Hs ltac:(shaped) ltac:(shaped) 0 0 1 1 Hi).
Defined.

(** Three different kernel blobs, [dense_kernels3c = 3 * dense_kernels3 -
    2 * dense_kernels3b], under the same image: at the centre pixel the
    outputs are -4410 = 3 * 90 - 2 * 2340. *)
Lemma CPP_forward_linear_in_kernel_witness :
  dense_shaped L3 dense_io3 /\ in_image L3 0 0 1 1 /\
  data_ dense_kernels3 <> data_ dense_kernels3b /\
  data_at 0 (top0 (CPPLayer_Forward_cpu 0 Z.add Z.mul L3
                     {| bottom0 := image3; bottom1 := dense_kernels3c;
                        top0 := top3 |})) 0 0 1 1 =
  3 * data_at 0 (top0 (CPPLayer_Forward_cpu 0 Z.add Z.mul L3 dense_io3)) 0 0 1 1 +
  -2 * data_at 0 (top0 (CPPLayer_Forward_cpu 0 Z.add Z.mul L3
                          {| bottom0 := image3; bottom1 := dense_kernels3b;
                             top0 := top3 |})) 0 0 1 1 /\
  data_at 0 (top0 (CPPLayer_Forward_cpu 0 Z.add Z.mul L3
                     {| bottom0 := image3; bottom1 := dense_kernels3b;
                        top0 := top3 |})) 0 0 1 1 = 2340 /\
  data_at 0 (top0 (CPPLayer_Forward_cpu 0 Z.add Z.mul L3
                     {| bottom0 := image3; bottom1 := dense_kernels3c;
                        top0 := top3 |})) 0 0 1 1 = -4410.
Proof.
  assert (Hd : dense_shaped L3 dense_io3) by shaped.
  assert (Hi : in_image L3 0 0 1 1) by shaped.
  split; [exact Hd|]. split; [exact Hi|]. split; [discriminate|].
  split; [|split; reflexivity].
  apply (CPP_forward_linear_in_kernel 0 1 Z.add Z.mul Z.sub Z.opp Zth
           L3 dense_io3
           {| bottom0 := image3; bottom1 := dense_kernels3b; top0 := top3 |}
           {| bottom0 := image3; bottom1 := dense_kernels3c; top0 := top3 |}
           3 (-2) Hd ltac:(shaped) ltac:(shaped) eq_refl eq_refl).
  - intros n ch y x Hn Hch Hy Hx.
    assert (n = 0) as -> by (cbn in Hn; lia).
    assert (Hc : ch = 0 \/ ch = 1 \/ ch = 2 \/ ch = 3 \/ ch = 4 \/ ch = 5 \/
                 ch = 6 \/ ch = 7 \/ ch = 8) by (cbn in Hch; lia).
    destruct Hc as [-> | [-> | [-> | [-> | [-> | [-> | [-> | [-> | ->]]]]]]]];
      destruct (range3 y Hy) as [-> | [-> | ->]];
      destruct (range3 x Hx) as [-> | [-> | ->]]; reflexivity.
  - exact Hi.
Defined.

(** Changing the weight of channel 8 at the last pixel (2,2) does not change
    the output at pixel (0,0). *)
Lemma Forward_cpu_local_witness :
  in_image L3 0 0 0 0 /\
  data_at 0 (top0 (CPPLayer_Forward_cpu 0 Z.add Z.mul L3 dense_io3)) 0 0 0 0 =
  data_at 0 (top0 (CPPLayer_Forward_cpu 0 Z.add Z.mul L3
                     (with_kernel_data dense_io3
                        (store (data_ dense_kernels3) 80 99)))) 0 0 0 0.
Proof.
  assert (Hi : in_image L3 0 0 0 0) by shaped.
  split; [exact Hi|].
  apply (proj1 (Forward_cpu_local 0 1 Z.add Z.mul Z.sub Z.opp Zth L3 dense_io3
                  (with_kernel_data dense_io3 (store (data_ dense_kernels3) 80 99))
                  0 0 0 0 Hi ltac:(reflexivity))).
  - shaped.
  - shaped.
  - intros ch Hch.
    assert (Hc : ch = 0 \/ ch = 1 \/ ch = 2 \/ ch = 3 \/ ch = 4 \/ ch = 5 \/
                 ch = 6 \/ ch = 7 \/ ch = 8) by (cbn in Hch; lia).
    destruct Hc as [-> | [-> | [-> | [-> | [-> | [-> | [-> | [-> | ->]]]]]]]];
      reflexivity.
Defined.

(** At pixel (0,0) and j = 1 the dense entries (1,1) and (2,1) are 1 and 4;
    with vertical weights 2 the horizontal entry is 10. *)
Lemma SepCPP_backward_contracts_dense_witness :
  sep_shaped L3 sep_io3 /\ dense_shaped L3 dense_io3 /\
  diff_at 0 (bottom1 (SepCPPLayer_Backward_cpu 0 Z.add Z.mul L3 [true; true] sep_io3))
    0 1 0 0 = 0 + 1 * 2 + 4 * 2.
Proof.
  assert (Hs : sep_shaped L3 sep_io3) by shaped.
  assert (Hd : dense_shaped L3 dense_io3) by shaped.
  split; [exact Hs|]. split; [exact Hd|].
  destruct (SepCPP_backward_contracts_dense 0 1 Z.add Z.mul Z.sub Z.opp Zth
              L3 [true; true] [true; true] sep_io3 dense_io3 0 0 0 Hs Hd
              eq_refl eq_refl ltac:(cbn; lia) ltac:(cbn; lia) ltac:(cbn; lia))
    as [Hh _].
  etransitivity; [exact (Hh 1 ltac:(cbn; lia) eq_refl)|reflexivity].
Defined.

(** The centre pixel (1,1) of the 3x3 image is interior: all nine terms. *)
Lemma CPP_forward_interior_witness :
  dense_shaped L3 dense_io3 /\ in_image L3 0 0 1 1 /\
  data_at 0 (top0 (CPPLayer_Forward_cpu 0 Z.add Z.mul L3 dense_io3)) 0 0 1 1 = 90.
Proof.
  assert (Hd : dense_shaped L3 dense_io3) by shaped.
  assert (Hi : in_image L3 0 0 1 1) by shaped.
  split; [exact Hd|]. split; [exact Hi|].
  etransitivity;
    [exact (CPP_forward_interior 0 1 Z.add Z.mul Z.sub Z.opp Zth L3 dense_io3
              0 0 1 1 Hd Hi ltac:(cbn; lia) ltac:(cbn; lia))|reflexivity].
Defined.

(** With unit upstream gradient and weights 2 the pairing is the sum of the
    outputs, 2 * (12 + 21 + 16 + 27 + 45 + 33 + 24 + 39 + 28) = 490. *)
Lemma CPP_backward_adjoint_witness :
  dense_shaped L3 dense_io3 /\
  pairing 0 Z.add Z.mul L3 (top0 dense_io3)
    (top0 (CPPLayer_Forward_cpu 0 Z.add Z.mul L3 dense_io3)) = 490.
Proof.
  assert (Hd : dense_shaped L3 dense_io3) by shaped.
  split; [exact Hd|].
  etransitivity;
    [exact (CPP_backward_adjoint 0 1 Z.add Z.mul Z.sub Z.opp Zth L3 [true; true]
              dense_io3 Hd)|vm_compute; reflexivity].
Defined.

(** The oracle on [sep_io3], computing on the CPU, returns and agrees at the
    centre pixel.  On the GPU it ends in the dense layer's unimplemented
    forward pass, and for a 64x50x256x256 kernel blob (K = 25) the expanded
    blob of 64 * 625 * 256 * 256 elements is refused. *)
Lemma reference_cpp_agrees_witness :
  sep_shaped L3 sep_io3 /\
  batch_num_ L3 * (kernel_ L3 * kernel_ L3) * height_ L3 * width_ L3 <= INT_MAX /\
  (exists io_ref,
     reference_cpp 0 Z.add Z.mul CPU (bottom0 sep_io3) (bottom1 sep_io3) top3 =
     Ok io_ref /\
     data_at 0 (top0 (SepCPPLayer_Forward_cpu 0 Z.add Z.mul L3 sep_io3)) 0 0 1 1 =
     data_at 0 (top0 io_ref) 0 0 1 1) /\
  reference_cpp 0 Z.add Z.mul GPU (bottom0 sep_io3) (bottom1 sep_io3) top3 =
  Fatal NotImplementedYet /\
  reference_cpp 0 Z.add Z.mul CPU
    (bottom0 (shapes_io [64; 3; 256; 256] [64; 50; 256; 256]))
    (bottom1 (shapes_io [64; 3; 256; 256] [64; 50; 256; 256])) top3 =
  Fatal (CheckFailed "blob size exceeds INT_MAX").
Proof.
  assert (Hs : sep_shaped L3 sep_io3) by shaped.
  assert (HK : batch_num_ L3 * (kernel_ L3 * kernel_ L3) * height_ L3 * width_ L3
               <= INT_MAX) by (vm_compute; congruence).
  split; [exact Hs|]. split; [exact HK|]. split; [|split; reflexivity].
  destruct (reference_cpp_agrees 0 1 Z.add Z.mul Z.sub Z.opp Zth L3 sep_io3 top3
              Hs ltac:(cbn; lia) ltac:(cbn; lia) ltac:(cbn; lia) ltac:(cbn; lia)
              HK eq_refl) as (io_ref & Href & Hag).
  exists io_ref. split; [exact Href|]. apply Hag. shaped.
Defined.

(** After the dense validator has accepted [dense_io3] both strides are 9. *)
Lemma Reshape_strides_agree_witness :
  exists L io',
    CPPLayer_Reshape 0 dense_io3 = Ok (L, io') /\
    count (bottom0 io') 2 = count (bottom1 io') 2.
Proof.
  eexists _, _. split; [reflexivity|].
  eapply (proj1 (Reshape_strides_agree 0 dense_io3 _ _)). reflexivity.
Defined.


(** At the centre pixel of [sep_io3] the output is 90, by rows or by
    columns. *)
Lemma SepCPP_forward_passes_commute_witness :
  sep_shaped L3 sep_io3 /\ in_image L3 0 0 1 1 /\
  data_at 0 (top0 (SepCPPLayer_Forward_cpu 0 Z.add Z.mul L3 sep_io3)) 0 0 1 1 = 90.
Proof.
  assert (Hs : sep_shaped L3 sep_io3) by shaped.
  assert (Hi : in_image L3 0 0 1 1) by shaped.
  split; [exact Hs|]. split; [exact Hi|].
  etransitivity;
    [exact (SepCPP_forward_passes_commute 0 1 Z.add Z.mul Z.sub Z.opp Zth
              L3 sep_io3 0 0 1 1 Hs Hi)|reflexivity].
Defined.

(** At the corner pixel (0,0) of [sep_io3], with unit upstream gradient,
    both halves pair to the output 24. *)
Lemma SepCPP_backward_pairs_with_forward_witness :
  sep_shaped L3 sep_io3 /\
  dsum_if 0 Z.add 0 3 (in_bounds L3 0 3) (fun j =>
    diff_at 0 (bottom1 (SepCPPLayer_Backward_cpu 0 Z.add Z.mul L3 [true; true]
                          sep_io3)) 0 j 0 0 *
    data_at 0 (bottom1 sep_io3) 0 j 0 0) = 24 /\
  dsum_if 0 Z.add 0 3 (in_bounds L3 0 3) (fun i =>
    diff_at 0 (bottom1 (SepCPPLayer_Backward_cpu 0 Z.add Z.mul L3 [true; true]
                          sep_io3)) 0 (3 + i) 0 0 *
    data_at 0 (bottom1 sep_io3) 0 (3 + i) 0 0) = 24.
Proof.
  assert (Hs : sep_shaped L3 sep_io3) by shaped.
  split; [exact Hs|].
  destruct (SepCPP_backward_pairs_with_forward 0 1 Z.add Z.mul Z.sub Z.opp Zth
              L3 [true; true] sep_io3 0 0 0 Hs
              ltac:(cbn; lia) ltac:(cbn; lia) ltac:(cbn; lia)) as [Hh Hv].
  split.
  - etransitivity; [exact Hh|reflexivity].
  - etransitivity; [exact Hv|reflexivity].
Defined.
